(** * Session orchestration and terminal multiplexing: a verified model

    Shallow embedding of [backend/server/src/services/Project.ts] (the
    Project Session Manager), of the earlier socket server
    [backend/server/src/index.ts] and of its compiled [Pty] class, and the
    properties of the specification that concern them; then the rest of
    these files (the handshake and the file handlers of the earlier
    server, the file, deployment and inventory handlers of [Project.ts])
    and the URL helper of [tests/utils/api.ts], with properties read off
    the code.

    Layout:
    - JavaScript strings and numbers, [extractPortNumber];
    - the sandbox handle, the project object, the external calls;
    - [Prog], a resumption monad whose suspension points are the [await]s
      of the source, with a sequential interpreter [exec];
    - the keyed mutex and the terminal multiplexer, whose sources are not
      part of the repository snapshot, modelled from the specification;
    - [initialize], [disconnect] and the socket handlers;
    - the event loop: interleavings of several [initialize] calls;
    - the earlier server ([Legacy]);
    - the vocabulary of the statements, the phases of a call of
      [initialize], sample sessions;
    - [Api], [LegacySession] and [Operations]: the code beside the
      specification's properties;
    - the theorems: the interpreter, the sequential runs, the concurrent
      runs, the properties on sample sessions, the further properties. *)

From Stdlib Require Import ZArith NArith List String Ascii Bool Lia.
From stdpp Require Import gmap strings list pretty.
From Equations Require Import Equations.

Open Scope string_scope.

(* ===================================================================== *)
(** ** JavaScript strings and numbers *)
(* ===================================================================== *)

(** A JavaScript string is a sequence of code units.  The functions below
    only ever compare code units against ASCII characters, so a code unit
    is an [ascii] here. *)

Definition ESC : ascii := "027"%char.

(** [\d] (no [u] flag): the ten ASCII digits. *)
Definition isDigit (c : ascii) : bool :=
  (48 <=? nat_of_ascii c)%nat && (nat_of_ascii c <=? 57)%nat.

(** The character class [[0-9;]]. *)
Definition isSgrParam (c : ascii) : bool := isDigit c || (c =? ";")%char.

(** [[0-9;]*], greedy: the rest of the string after the longest run. *)
Fixpoint skipSgrParams (s : string) : string :=
  match s with
  | String c r => if isSgrParam c then skipSgrParams r else s
  | EmptyString => s
  end.

(** The regular expression [/\x1B\[[0-9;]*m/] anchored at the start of [s]:
    the text that follows the match.  The run [[0-9;]*] is followed by [m],
    which is not in the class, so giving characters back never helps. *)
Definition matchSgr (s : string) : option string :=
  match s with
  | String e (String b r) =>
      if (e =? ESC)%char && (b =? "[")%char then
        match skipSgrParams r with
        | String m r' => if (m =? "m")%char then Some r' else None
        | EmptyString => None
        end
      else None
  | _ => None
  end.

Definition inspect {A : Type} (x : A) : {y : A | x = y} := exist _ x eq_refl.

(** [inputString.replace(/\x1B\[[0-9;]*m/g, "")]: scanning from the left,
    a match is dropped and the scan resumes after it; where there is no
    match one code unit is kept. *)
Equations stripAnsi (s : string) : string by wf (String.length s) lt :=
  stripAnsi EmptyString := EmptyString;
  stripAnsi (String c r) with inspect (matchSgr (String c r)) := {
    | exist _ (Some r') H => stripAnsi r'
    | exist _ None _ => String c (stripAnsi r) }.
Next Obligation.
  assert (Hskip : forall t, (String.length (skipSgrParams t) <= String.length t)%nat).
  { induction t as [|x t IH]; simpl; [lia|].
    destruct (isSgrParam x); simpl; lia. }
  destruct r as [|b t]; simpl in H; try discriminate.
  destruct (_ && _); try discriminate.
  specialize (Hskip t).
  destruct (skipSgrParams t) as [|m u]; try discriminate.
  destruct (m =? "m")%char; try discriminate.
  injection H as <-. simpl in *. lia.
Qed.

(** [afterPrefix p s]: the rest of [s] when [p] is a prefix of it. *)
Fixpoint afterPrefix (p s : string) : option string :=
  match p, s with
  | EmptyString, _ => Some s
  | String a p', String b s' => if (a =? b)%char then afterPrefix p' s' else None
  | String _ _, EmptyString => None
  end.

(** [\d*], greedy: the longest run of digits at the start. *)
Fixpoint takeDigits (s : string) : string :=
  match s with
  | String c r => if isDigit c then String c (takeDigits r) else EmptyString
  | EmptyString => EmptyString
  end.

Definition localhostPrefix : string := "http://localhost:".

(** The regular expression [/http:\/\/localhost:(\d+)/] anchored at the
    start of [s]: capture group 1. *)
Definition matchLocalhostHere (s : string) : option string :=
  match afterPrefix localhostPrefix s with
  | Some r =>
      match takeDigits r with
      | EmptyString => None
      | d => Some d
      end
  | None => None
  end.

(** [cleanedString.match(regex)]: the leftmost match, its group 1. *)
Fixpoint matchLocalhost (s : string) : option string :=
  match matchLocalhostHere s with
  | Some d => Some d
  | None =>
      match s with
      | EmptyString => None
      | String _ r => matchLocalhost r
      end
  end.

(** The numbers the code can produce: non-negative integers that are
    doubles, [Infinity] and [NaN]. *)
Inductive number : Type :=
| Num (n : N)
| Infinity
| NaN.

(** The double nearest to a non-negative integer (ties to even). *)
Definition roundToDouble (m : N) : number :=
  if (m <? 2 ^ 53)%N then Num m
  else
    let e := (N.log2 m - 52)%N in
    let q := N.shiftr m e in
    let r := (m mod 2 ^ e)%N in
    let half := (2 ^ (e - 1))%N in
    let q' := if (half <? r)%N || ((r =? half)%N && N.odd q) then (q + 1)%N else q in
    let v := N.shiftl q' e in
    if (2 ^ 1024 <=? v)%N then Infinity else Num v.

Definition digitValue (c : ascii) : N := (N_of_ascii c - 48)%N.

Fixpoint mathInt (acc : N) (s : string) : N :=
  match s with
  | EmptyString => acc
  | String c r => mathInt (10 * acc + digitValue c)%N r
  end.

(** [parseInt(s)] for a string that starts with a decimal digit or is
    empty, which is all [extractPortNumber] passes to it (group 1 of the
    match is a non-empty run of digits, lemma [matchLocalhost_digits]):
    the digits at the start are read in base 10; no digit gives [NaN]. *)
Definition parseInt (s : string) : number :=
  match takeDigits s with
  | EmptyString => NaN
  | d => roundToDouble (mathInt 0 d)
  end.

(** [function extractPortNumber(inputString: string): number | null] *)
Definition extractPortNumber (inputString : string) : option number :=
  let cleanedString := stripAnsi inputString in
  match matchLocalhost cleanedString with
  | Some group1 => Some (parseInt group1)
  | None => None
  end.

(** Truthiness of [number | null], as in [if (port)]. *)
Definition truthyNumber (v : option number) : bool :=
  match v with
  | Some (Num n) => negb (n =? 0)%N
  | Some Infinity => true
  | Some NaN => false
  | None => false
  end.

(** Truthiness of [string | null], as in [if (this.containerId)]. *)
Definition truthyString (v : option string) : bool :=
  match v with
  | Some EmptyString => false
  | Some (String _ _) => true
  | None => false
  end.


(* ===================================================================== *)
(** ** The sandbox handle, the project object, the external calls *)
(* ===================================================================== *)

(** The message of a thrown [Error], or the reason of a rejected promise. *)
Definition Error : Type := string.

(** A settled promise of an external call. *)
Inductive Result (A : Type) : Type :=
| Ok (a : A)
| Err (e : Error).
Arguments Ok {A} a.
Arguments Err {A} e.

(** The e2b [Sandbox] handle ([Container] in the source).  The code reads
    its [sandboxId] and calls its methods; the methods are external calls. *)
Record Container : Type := { sandboxId : string }.

(** [{ timeoutMs: CONTAINER_TIMEOUT, autoPause: true }] *)
Record SandboxOpts : Type := { timeoutMs : Z; autoPause : bool }.

Record FileManager : Type := { fm_container : Container }.

Definition Socket : Type := nat.

(** [connection: { userId: string; isOwner: boolean; socket: Socket }] *)
Record Connection : Type := { userId : string; isOwner : bool; socket : Socket }.

Record Dimensions : Type := { cols : nat; rows : nat }.

(** The handle of a shell process inside the sandbox. *)
Definition Pid : Type := nat.

(** The output callback that [handleCreateTerminal] passes to the
    multiplexer is an arrow function closing over [connection], [id] and
    [this]; it is represented by what it closes over ([this] is the one
    project object of the state), its body is [onTerminalOutput]. *)
Record OutputCallback : Type := { cb_socket : Socket; cb_id : string }.

(** Modelled from the spec: the Terminal Session record of section 3 (the
    source of [TerminalManager] is missing): the process handle and the
    output callback bound at creation. *)
Record Terminal : Type := { term_pid : Pid; term_onOutput : OutputCallback }.

(** Modelled from the spec: the Terminal Multiplexer of section 4.3 (the
    source of [TerminalManager] is missing): bound to one sandbox, it owns
    a registry of terminal sessions keyed by the logical id. *)
Record TerminalManager : Type :=
  { tm_container : Container; tm_terminals : gmap string Terminal }.

(** [class Project] *)
Record Project : Type := {
  projectId : string;
  type : string;
  fileManager : option FileManager;
  terminalManager : option TerminalManager;
  container : option Container;
  containerId : option string
}.

Definition with_container (c : option Container) (p : Project) : Project :=
  {| projectId := projectId p; type := type p; fileManager := fileManager p;
     terminalManager := terminalManager p; container := c;
     containerId := containerId p |}.

Definition with_containerId (i : option string) (p : Project) : Project :=
  {| projectId := projectId p; type := type p; fileManager := fileManager p;
     terminalManager := terminalManager p; container := container p;
     containerId := i |}.

Definition with_terminalManager (m : option TerminalManager) (p : Project) : Project :=
  {| projectId := projectId p; type := type p; fileManager := fileManager p;
     terminalManager := m; container := container p;
     containerId := containerId p |}.

Definition with_fileManager (f : option FileManager) (p : Project) : Project :=
  {| projectId := projectId p; type := type p; fileManager := f;
     terminalManager := terminalManager p; container := container p;
     containerId := containerId p |}.

(** [constructor(projectId: string, type: string, containerId: string)] *)
Definition newProject (projectId type containerId : string) : Project :=
  {| projectId := projectId; type := type; fileManager := None;
     terminalManager := None; container := None;
     containerId := Some containerId |}.

(** The asynchronous operations of the external collaborators: the sandbox
    service, the persistent store, the file adapter, and the shell
    processes the multiplexer runs inside the sandbox. *)
Inductive Call : Type :=
| Container_connect (sandboxId : string) (opts : SandboxOpts)
| Container_create (template : string) (opts : SandboxOpts)
| Container_isRunning (c : Container)
| Container_setTimeout (c : Container) (timeoutMs : Z)
| Db_setContainerId (projectId : string) (containerId : option string)
| FileManager_stopWatching (fm : FileManager)
| Pty_create (c : Container)
| Pty_sendInput (pid : Pid) (data : string)
| Pty_resize (pid : Pid) (dimensions : Dimensions)
| Pty_kill (pid : Pid).

Definition Reply (c : Call) : Type :=
  match c with
  | Container_connect _ _ | Container_create _ _ => Container
  | Container_isRunning _ => bool
  | Pty_create _ => Pid
  | _ => unit
  end.

(** The payload of a [terminalResponse] event: the string itself
    ([Project.ts]) or [Buffer.from(data, "utf-8")] ([Pty.send]). *)
Inductive Chunk : Type :=
| Text (s : string)
| BufferFrom (s : string).

(** [socket.emit("terminalResponse", { id, data })] (the earlier server
    emits [{ data }], no [id]) and [socket.emit("previewURL", url)]. *)
Inductive SocketEvent : Type :=
| terminalResponse (id : option string) (data : Chunk)
| previewURL (url : string).

(** What the outside world sees of a run, oldest first. *)
Inductive Event : Type :=
| Called (c : Call) (r : Result (Reply c))
| Emitted (s : Socket) (ev : SocketEvent).

(** The outside world: how each external call settles, given all that
    happened before it. *)
Record Env : Type := { respond : list Event -> forall c : Call, Result (Reply c) }.

(* ===================================================================== *)
(** ** Programs: a resumption monad *)
(* ===================================================================== *)

(** An [async] function of the source is a [Prog]: synchronous steps on the
    project object and the sockets, and suspension points.  [Await] is the
    [await] of an external call, [Tick] the [await] of a promise of the
    server's own, [Acquire] the wait for the keyed mutex. *)
Inductive Prog (A : Type) : Type :=
| Ret (a : A)
| Throw (e : Error)
| GetThis (k : Project -> Prog A)
| SetThis (p : Project) (k : Prog A)
| Emit (s : Socket) (ev : SocketEvent) (k : Prog A)
| Await (c : Call) (k : Result (Reply c) -> Prog A)
| Tick (k : Prog A)
| Acquire (key : string) (k : Prog A)
| Release (key : string) (k : Prog A).
Arguments Ret {A} a.
Arguments Throw {A} e.
Arguments GetThis {A} k.
Arguments SetThis {A} p k.
Arguments Emit {A} s ev k.
Arguments Await {A} c k.
Arguments Tick {A} k.
Arguments Acquire {A} key k.
Arguments Release {A} key k.

Fixpoint bind {A B : Type} (p : Prog A) (f : A -> Prog B) : Prog B :=
  match p with
  | Ret a => f a
  | Throw e => Throw e
  | GetThis k => GetThis (fun t => bind (k t) f)
  | SetThis t k => SetThis t (bind k f)
  | Emit s ev k => Emit s ev (bind k f)
  | Await c k => Await c (fun r => bind (k r) f)
  | Tick k => Tick (bind k f)
  | Acquire key k => Acquire key (bind k f)
  | Release key k => Release key (bind k f)
  end.

Declare Scope prog_scope.
Delimit Scope prog_scope with prog.
Bind Scope prog_scope with Prog.
Notation "'let*' x ':=' p 'in' q" := (bind p (fun x => q))
  (at level 10, x name, p at level 100, q at level 200) : prog_scope.
Notation "p '>>' q" := (bind p (fun _ => q))
  (at level 100, right associativity) : prog_scope.
Open Scope prog_scope.

(** [try { p } catch (e) { h e }] *)
Fixpoint tryCatch {A : Type} (p : Prog A) (h : Error -> Prog A) : Prog A :=
  match p with
  | Ret a => Ret a
  | Throw e => h e
  | GetThis k => GetThis (fun t => tryCatch (k t) h)
  | SetThis t k => SetThis t (tryCatch k h)
  | Emit s ev k => Emit s ev (tryCatch k h)
  | Await c k => Await c (fun r => tryCatch (k r) h)
  | Tick k => Tick (tryCatch k h)
  | Acquire key k => Acquire key (tryCatch k h)
  | Release key k => Release key (tryCatch k h)
  end.

(** [try { p } finally { cleanup }] *)
Fixpoint finally {A : Type} (p : Prog A) (cleanup : Prog unit) : Prog A :=
  match p with
  | Ret a => cleanup >> Ret a
  | Throw e => cleanup >> Throw e
  | GetThis k => GetThis (fun t => finally (k t) cleanup)
  | SetThis t k => SetThis t (finally k cleanup)
  | Emit s ev k => Emit s ev (finally k cleanup)
  | Await c k => Await c (fun r => finally (k r) cleanup)
  | Tick k => Tick (finally k cleanup)
  | Acquire key k => Acquire key (finally k cleanup)
  | Release key k => Release key (finally k cleanup)
  end.

Definition getThis : Prog Project := GetThis Ret.

(** [this.field = value]: a write into the project object as it is now. *)
Definition assign (f : Project -> Project) : Prog unit :=
  GetThis (fun t => SetThis (f t) (Ret tt)).

Definition emit (s : Socket) (ev : SocketEvent) : Prog unit := Emit s ev (Ret tt).

(** [await externalCall(...)]: a rejection is thrown at the [await]. *)
Definition call (c : Call) : Prog (Reply c) :=
  Await c (fun r => match r with Ok a => Ret a | Err e => Throw e end).

(** [await p] for an [async] function [p] of the server itself: the caller
    resumes, with the result or the exception, one tick after [p] settles. *)
Definition await {A : Type} (p : Prog A) : Prog A := finally p (Tick (Ret tt)).

(** [array.forEach], [for ... of] over a list, in sequence. *)
Fixpoint forEach {A : Type} (l : list A) (f : A -> Prog unit) : Prog unit :=
  match l with
  | [] => Ret tt
  | x :: l' => f x >> forEach l' f
  end.

(** A promise nobody awaits: the call runs, its rejection reaches no caller. *)
Definition fireAndForget (p : Prog unit) : Prog unit :=
  tryCatch p (fun _ => Ret tt).

(* ===================================================================== *)
(** ** The state and the sequential interpreter *)
(* ===================================================================== *)

(** Calls in flight are numbered. *)
Abbreviation TaskId := nat (only parsing).

(** Modelled from the spec: the Keyed Mutex state of section 3 (the source
    of [LockManager] is missing): per key, the current holder and the queue
    of pending acquirers, oldest first. *)
Record Lock : Type := { holder : option TaskId; waiters : list TaskId }.

Definition freeLock : Lock := {| holder := None; waiters := [] |}.

Record St : Type := {
  st_this : Project;
  st_trace : list Event;
  st_locks : gmap string Lock
}.

Definition lockOf (st : St) (key : string) : Lock :=
  default freeLock (st_locks st !! key).

Definition set_this (t : Project) (st : St) : St :=
  {| st_this := t; st_trace := st_trace st; st_locks := st_locks st |}.

Definition log (e : Event) (st : St) : St :=
  {| st_this := st_this st; st_trace := st_trace st ++ [e]; st_locks := st_locks st |}.

Definition set_lock (key : string) (l : Lock) (st : St) : St :=
  {| st_this := st_this st; st_trace := st_trace st;
     st_locks := <[key := l]> (st_locks st) |}.

(** Modelled from the spec: the three moves of the Keyed Mutex of section
    4.1 on its state (the source of [LockManager] is missing): an acquirer
    joins the queue of its key, the oldest waiter of a free key becomes its
    holder, the holder leaves. *)
Definition enqueue (key : string) (me : TaskId) (st : St) : St :=
  set_lock key {| holder := holder (lockOf st key);
                  waiters := waiters (lockOf st key) ++ [me] |} st.

Definition grant (key : string) (me : TaskId) (st : St) : St :=
  set_lock key {| holder := Some me;
                  waiters := tail (waiters (lockOf st key)) |} st.

Definition release (key : string) (st : St) : St :=
  set_lock key {| holder := None; waiters := waiters (lockOf st key) |} st.

(** The lock of [key] can go to [me]: it is free and [me] is the oldest
    waiter. *)
Definition grantable (key : string) (me : TaskId) (st : St) : bool :=
  match holder (lockOf st key), waiters (lockOf st key) with
  | None, w :: _ => Nat.eqb w me
  | _, _ => false
  end.

(** How a call ends: it returns, it throws, or it never resumes. *)
Inductive Outcome (A : Type) : Type :=
| Returned (a : A)
| Thrown (e : Error)
| Blocked.
Arguments Returned {A} a.
Arguments Thrown {A} e.
Arguments Blocked {A}.

(** One call run on its own, from its start to its end: every suspension
    resumes before anything else happens.  At [Acquire] the call joins the
    queue and goes on when the lock can go to it; when it cannot, the call
    never resumes, nothing else runs that could release the lock. *)
Fixpoint exec (env : Env) (me : TaskId) {A : Type} (p : Prog A) (st : St)
  : Outcome A * St :=
  match p with
  | Ret a => (Returned a, st)
  | Throw e => (Thrown e, st)
  | GetThis k => exec env me (k (st_this st)) st
  | SetThis t k => exec env me k (set_this t st)
  | Emit s ev k => exec env me k (log (Emitted s ev) st)
  | Await c k =>
      let r := respond env (st_trace st) c in
      exec env me (k r) (log (Called c r) st)
  | Tick k => exec env me k st
  | Acquire key k =>
      let st' := enqueue key me st in
      if grantable key me st' then exec env me k (grant key me st')
      else (Blocked, st')
  | Release key k => exec env me k (release key st)
  end.

(* ===================================================================== *)
(** ** The keyed mutex and the terminal multiplexer *)
(* ===================================================================== *)

(** Modelled from the spec: [LockManager.acquireLock] of [utils/lock.ts],
    whose source is missing.  Section 4.1: [acquire(key, criticalSection)]
    runs [criticalSection] while no other critical section of the same key
    runs, waiters are served in submission order, and on every exit path,
    a failure included, the lock is released and the result or the failure
    goes to the caller. *)
Definition acquireLock {A : Type} (key : string) (criticalSection : Prog A) : Prog A :=
  Acquire key (finally criticalSection (Release key (Ret tt))).

(** A write into the multiplexer's registry, when the project still has
    its multiplexer. *)
Definition updateTerminals
    (f : gmap string Terminal -> gmap string Terminal) : Prog unit :=
  assign (fun t =>
    match terminalManager t with
    | Some m =>
        with_terminalManager
          (Some {| tm_container := tm_container m;
                   tm_terminals := f (tm_terminals m) |}) t
    | None => t
    end).

(** Modelled from the spec: [new TerminalManager(container)], no session
    registered yet. *)
Definition newTerminalManager (c : Container) : TerminalManager :=
  {| tm_container := c; tm_terminals := ∅ |}.

(** Modelled from the spec: section 4.3, [createTerminal(logicalId,
    onOutput)] spawns a shell process inside the bound sandbox and
    registers it under [logicalId]; a session already registered under that
    id is closed before it is replaced. *)
Definition TerminalManager_createTerminal
    (m : TerminalManager) (id : string) (onOutput : OutputCallback) : Prog unit :=
  match tm_terminals m !! id with
  | Some old => call (Pty_kill (term_pid old)) >> updateTerminals (delete id)
  | None => Ret tt
  end >>
  let* pid := call (Pty_create (tm_container m)) in
  updateTerminals (insert id {| term_pid := pid; term_onOutput := onOutput |}).

(** Modelled from the spec: section 4.3, [sendTerminalData(logicalId,
    bytes)] forwards the bytes to the input of the matching process; an
    unknown id is a no-op. *)
Definition TerminalManager_sendTerminalData
    (m : TerminalManager) (id : string) (data : string) : Prog unit :=
  match tm_terminals m !! id with
  | Some t => call (Pty_sendInput (term_pid t) data)
  | None => Ret tt
  end.

(** Modelled from the spec: the [resizeTerminal] event carries the
    dimensions only and "resizes active terminal(s)" (section 6): the
    resize signal goes to every registered session. *)
Definition TerminalManager_resizeTerminal
    (m : TerminalManager) (dimensions : Dimensions) : Prog unit :=
  forEach (map_to_list (tm_terminals m))
    (fun '(_, t) => call (Pty_resize (term_pid t) dimensions)).

(** Modelled from the spec: section 4.3, [closeTerminal(logicalId)]
    terminates the process and removes the registry entry; an unknown id is
    a no-op. *)
Definition TerminalManager_closeTerminal
    (m : TerminalManager) (id : string) : Prog unit :=
  match tm_terminals m !! id with
  | Some t => call (Pty_kill (term_pid t)) >> updateTerminals (delete id)
  | None => Ret tt
  end.

(** Modelled from the spec: section 4.3, [closeAllTerminals()] closes every
    registered session and clears the registry. *)
Definition TerminalManager_closeAllTerminals (m : TerminalManager) : Prog unit :=
  forEach (map_to_list (tm_terminals m))
    (fun '(_, t) => call (Pty_kill (term_pid t))) >>
  updateTerminals (fun _ => ∅).

(** Modelled from the spec: [new FileManager(container)]; the file adapter
    is outside the core, only its [stopWatching] is called here. *)
Definition newFileManager (c : Container) : FileManager := {| fm_container := c |}.

(* ===================================================================== *)
(** ** [Project.ts] *)
(* ===================================================================== *)

Section ProjectSession.

(** [CONTAINER_TIMEOUT] of [utils/constants], and the handle's
    [getHost(port)], a string computed without a remote call. *)
Variable CONTAINER_TIMEOUT : Z.
Variable getHost : Container -> number -> string.

Definition sandboxOpts : SandboxOpts :=
  {| timeoutMs := CONTAINER_TIMEOUT; autoPause := true |}.

Definition templateTypes : list string :=
  ["vanillajs"; "reactjs"; "nextjs"; "streamlit"; "php"].

(** [array.includes(x)] on strings. *)
Definition includes (l : list string) (x : string) : bool :=
  existsb (String.eqb x) l.

(** [templateTypes.includes(this.type) ? `gitwit-${this.type}` : `base`] *)
Definition templateOf (type : string) : string :=
  if includes templateTypes type then "gitwit-" ++ type else "base".

(** Lines 65-71: [if (this.containerId) { this.container = await
    Container.connect(this.containerId, ...) }]. *)
Definition connectExisting : Prog unit :=
  let* this := getThis in
  match containerId this with
  | Some id =>
      if truthyString (Some id) then
        let* c := call (Container_connect id sandboxOpts) in
        assign (with_container (Some c))
      else Ret tt
  | None => Ret tt
  end.

(** Line 74: [!this.container || !(await this.container.isRunning())]. *)
Definition needsNewContainer : Prog bool :=
  let* this := getThis in
  match container this with
  | None => Ret true
  | Some c =>
      let* running := call (Container_isRunning c) in
      Ret (negb running)
  end.

(** Lines 86-97: create from [template], record the id, persist it. *)
Definition createFrom (template : string) : Prog unit :=
  let* c := call (Container_create template sandboxOpts) in
  assign (with_container (Some c)) >>
  let* this := getThis in
  match container this with
  | Some c' => assign (with_containerId (Some (sandboxId c')))
  | None => Throw "TypeError: Cannot read properties of null (reading 'sandboxId')"
  end >>
  let* this := getThis in
  call (Db_setContainerId (projectId this) (containerId this)).

(** Lines 75-97: the template of the project type, then [createFrom]. *)
Definition createContainer : Prog unit :=
  let* this := getThis in
  let template := templateOf (type this) in
  createFrom template.

(** The critical section of [initialize], lines 63-99. *)
Definition initializeCritical : Prog unit :=
  connectExisting >>
  let* needed := needsNewContainer in
  if needed : bool then createContainer else Ret tt.

(** Lines 100-112, one synchronous stretch: [this.container] is the same
    at its three reads. *)
Definition initializeManagers : Prog unit :=
  let* this := getThis in
  match container this with
  | None => Throw "Failed to create container"
  | Some c =>
      match terminalManager this with
      | None => assign (with_terminalManager (Some (newTerminalManager c)))
      | Some _ => Ret tt
      end >>
      let* this := getThis in
      match fileManager this with
      | None => assign (with_fileManager (Some (newFileManager c)))
      | Some _ => Ret tt
      end
  end.

(** [async initialize()] *)
Definition initialize : Prog unit :=
  let* this := getThis in
  await (acquireLock (projectId this) initializeCritical) >>
  initializeManagers.

(** [async disconnect()] *)
Definition disconnect : Prog unit :=
  let* this := getThis in
  await (match terminalManager this with
         | Some m => TerminalManager_closeAllTerminals m
         | None => Ret tt
         end) >>
  assign (with_terminalManager None) >>
  let* this := getThis in
  match fileManager this with
  | Some fm => call (FileManager_stopWatching fm)
  | None => Tick (Ret tt)
  end >>
  assign (with_fileManager None).

(** [handleHeartbeat]: [try { await this.container?.setTimeout(...) }
    catch (error) { return false }] for the owner, then [return true]. *)
Definition handleHeartbeat (connection : Connection) : Prog bool :=
  if isOwner connection then
    tryCatch
      (let* this := getThis in
       match container this with
       | Some c => call (Container_setTimeout c CONTAINER_TIMEOUT)
       | None => Tick (Ret tt)
       end >>
       Ret true)
      (fun _error => Ret false)
  else Ret true.

(** The arrow function [(responseString: string) => { ... }] of
    [handleCreateTerminal], lines 255-267. *)
Definition onTerminalOutput (cb : OutputCallback) (responseString : string) : Prog unit :=
  emit (cb_socket cb) (terminalResponse (Some (cb_id cb)) (Text responseString)) >>
  match extractPortNumber responseString with
  | Some port =>
      if truthyNumber (Some port) then
        let* this := getThis in
        emit (cb_socket cb)
          (previewURL ("https://" ++
             match container this with
             | Some c => getHost c port
             | None => "undefined"
             end))
      else Ret tt
  | None => Ret tt
  end.

(** [handleCreateTerminal] *)
Definition handleCreateTerminal (connection : Connection) (id : string) : Prog unit :=
  let* this := getThis in
  await (acquireLock (projectId this)
    (let* this := getThis in
     await (match terminalManager this with
            | Some m =>
                TerminalManager_createTerminal m id
                  {| cb_socket := socket connection; cb_id := id |}
            | None => Ret tt
            end))).

(** [handleResizeTerminal]: the promise is neither returned nor awaited. *)
Definition handleResizeTerminal (dimensions : Dimensions) : Prog unit :=
  let* this := getThis in
  match terminalManager this with
  | Some m => fireAndForget (TerminalManager_resizeTerminal m dimensions)
  | None => Ret tt
  end.

(** [handleTerminalData]: the promise of the multiplexer, or [undefined],
    is returned to the dispatcher. *)
Definition handleTerminalData (id data : string) : Prog unit :=
  let* this := getThis in
  match terminalManager this with
  | Some m => TerminalManager_sendTerminalData m id data
  | None => Ret tt
  end.

(** [handleCloseTerminal] *)
Definition handleCloseTerminal (id : string) : Prog unit :=
  let* this := getThis in
  match terminalManager this with
  | Some m => TerminalManager_closeTerminal m id
  | None => Ret tt
  end.

(** Modelled from the spec: section 4.4, a process output event invokes the
    forwarding callback bound to the session at creation, with the decoded
    chunk (the source of the process session is missing). *)
Definition processOutput (id : string) (chunk : string) : Prog unit :=
  let* this := getThis in
  match terminalManager this with
  | Some m =>
      match tm_terminals m !! id with
      | Some t => onTerminalOutput (term_onOutput t) chunk
      | None => Ret tt
      end
  | None => Ret tt
  end.

End ProjectSession.

(* ===================================================================== *)
(** ** The event loop *)
(* ===================================================================== *)

(** Several calls in flight on one project object.  The server runs one
    stretch of synchronous code at a time: a call runs from one suspension
    point to the next without interruption, and between two stretches of
    one call any stretch of another call may run. *)
Inductive Task (A : Type) : Type :=
| Todo (p : Prog A)
| Paused (p : Prog A)
| Settled (r : Result A).
Arguments Todo {A} p.
Arguments Paused {A} p.
Arguments Settled {A} r.

(** A stretch of synchronous code: up to the next suspension point, where
    the call waits ([Paused], at [Acquire] it has joined the queue of the
    key), or to the end of the call. *)
Fixpoint advance {A : Type} (me : TaskId) (p : Prog A) (st : St) : Task A * St :=
  match p with
  | Ret a => (Settled (Ok a), st)
  | Throw e => (Settled (Err e), st)
  | GetThis k => advance me (k (st_this st)) st
  | SetThis t k => advance me k (set_this t st)
  | Emit s ev k => advance me k (log (Emitted s ev) st)
  | Release key k => advance me k (release key st)
  | Await c k => (Paused (Await c k), st)
  | Tick k => (Paused (Tick k), st)
  | Acquire key k => (Paused (Acquire key k), enqueue key me st)
  end.

(** A paused call resumes: the external call it awaits settles, the tick
    passes, or the mutex is granted to it. *)
Definition resume (env : Env) {A : Type} (me : TaskId) (p : Prog A) (st : St)
  : option (Task A * St) :=
  match p with
  | Await c k =>
      let r := respond env (st_trace st) c in
      Some (advance me (k r) (log (Called c r) st))
  | Tick k => Some (advance me k st)
  | Acquire key k =>
      if grantable key me st then Some (advance me k (grant key me st)) else None
  | _ => None
  end.

Record Sys (A : Type) : Type := { sys_st : St; sys_tasks : list (Task A) }.
Arguments sys_st {A} s.
Arguments sys_tasks {A} s.

(** The loop runs the next stretch of call [i], when it has one that can
    run. *)
Definition step (env : Env) {A : Type} (i : TaskId) (s : Sys A) : option (Sys A) :=
  match sys_tasks s !! i with
  | Some (Todo p) =>
      let '(t, st') := advance i p (sys_st s) in
      Some {| sys_st := st'; sys_tasks := <[i := t]> (sys_tasks s) |}
  | Some (Paused p) =>
      match resume env i p (sys_st s) with
      | Some (t, st') =>
          Some {| sys_st := st'; sys_tasks := <[i := t]> (sys_tasks s) |}
      | None => None
      end
  | _ => None
  end.

(** A schedule names the call that runs next, stretch after stretch; a
    call that cannot run is passed over. *)
Fixpoint run (env : Env) {A : Type} (schedule : list TaskId) (s : Sys A) : Sys A :=
  match schedule with
  | [] => s
  | i :: rest => run env rest (default s (step env i s))
  end.

(** [n] calls of [p], none of them made yet. *)
Definition spawn {A : Type} (n : nat) (p : Prog A) (st : St) : Sys A :=
  {| sys_st := st; sys_tasks := replicate n (Todo p) |}.

Definition isSettled {A : Type} (t : Task A) : bool :=
  match t with Settled _ => true | _ => false end.

Definition isFulfilled {A : Type} (t : Task A) : bool :=
  match t with Settled (Ok _) => true | _ => false end.

(** Every call has run to its end. *)
Definition quiescent {A : Type} (s : Sys A) : bool := forallb isSettled (sys_tasks s).

(** Some call has a stretch that can run. *)
Definition canStep (env : Env) {A : Type} (s : Sys A) : bool :=
  existsb (fun i => match step env i s with Some _ => true | None => false end)
    (seq 0 (length (sys_tasks s))).

(** ** Reading a trace *)

Definition isCreateCall (e : Event) : bool :=
  match e with
  | Called (Container_create _ _) _ => true
  | _ => false
  end.

Definition isConnectCall (e : Event) : bool :=
  match e with
  | Called (Container_connect _ _) _ => true
  | _ => false
  end.

Definition isDbWrite (e : Event) : bool :=
  match e with
  | Called (Db_setContainerId _ _) _ => true
  | _ => false
  end.

Definition isSetTimeoutCall (e : Event) : bool :=
  match e with
  | Called (Container_setTimeout _ _) _ => true
  | _ => false
  end.

(** The number of sandbox-creation calls made. *)
Definition createCalls (tr : list Event) : nat :=
  length (List.filter isCreateCall tr).

(** The ids of the sandboxes created. *)
Definition createdId (e : Event) : option string :=
  match e with
  | Called c r =>
      match c return Result (Reply c) -> option string with
      | Container_create _ _ =>
          fun r => match r with Ok h => Some (sandboxId h) | Err _ => None end
      | _ => fun _ => None
      end r
  | Emitted _ _ => None
  end.

Definition createdIds (tr : list Event) : list string := omap createdId tr.

(* ===================================================================== *)
(** ** The earlier server: [index.ts] and its [Pty] class *)
(* ===================================================================== *)

Module Legacy.

(** [class Pty]: the constructor takes [(socket, id)] and keeps [socket],
    [shell] and [ptyProcess]; [id] is not stored. *)
Record Pty : Type := { pty_socket : Socket; pty_shell : string; ptyProcess : Pid }.

(** What the server does to the outside: a shell spawned, bytes written to
    a shell, an event sent on a socket. *)
Inductive Effect : Type :=
| Spawned (shell : string) (pid : Pid)
| Wrote (pid : Pid) (data : string)
| Sent (s : Socket) (ev : SocketEvent).

(** [const terminals: { [id: string]: Pty } = {}]: the own properties of
    the table; its prototype is [Object.prototype]. *)
Record Server : Type := { terminals : gmap string Pty; effects : list Effect }.

Definition start : Server := {| terminals := ∅; effects := [] |}.

(** The names every object literal answers to without owning them. *)
Definition objectPrototypeKeys : list string :=
  ["constructor"; "__proto__"; "hasOwnProperty"; "isPrototypeOf";
   "propertyIsEnumerable"; "toLocaleString"; "toString"; "valueOf";
   "__defineGetter__"; "__defineSetter__"; "__lookupGetter__";
   "__lookupSetter__"].

(** What [terminals[id]] evaluates to. *)
Inductive Value : Type :=
| VUndefined
| VPty (p : Pty)
| VInherited (name : string).

(** [terminals[id]]: an own property, else a member of [Object.prototype],
    else [undefined]. *)
Definition getTerminal (sv : Server) (id : string) : Value :=
  match terminals sv !! id with
  | Some p => VPty p
  | None =>
      if existsb (String.eqb id) objectPrototypeKeys then VInherited id
      else VUndefined
  end.

Section Handlers.

(** [os.platform()] *)
Variable platform : string.

(** [new Pty(socket, id)]; [pid] is the process [spawn] returns. *)
Definition newPty (socket : Socket) (id : string) (pid : Pid) : Pty :=
  {| pty_socket := socket;
     pty_shell := if String.eqb platform "win32" then "cmd.exe" else "bash";
     ptyProcess := pid |}.

(** [Pty.write(data)] *)
Definition Pty_write (p : Pty) (data : string) (sv : Server) : Server :=
  {| terminals := terminals sv; effects := effects sv ++ [Wrote (ptyProcess p) data] |}.

(** [Pty.send(data)]: [this.socket.emit("terminalResponse", { data:
    Buffer.from(data, "utf-8") })]. *)
Definition Pty_send (p : Pty) (data : string) (sv : Server) : Server :=
  {| terminals := terminals sv;
     effects := effects sv ++
       [Sent (pty_socket p) (terminalResponse None (BufferFrom data))] |}.

(** [this.ptyProcess.onData((data) => { this.send(data) })] *)
Definition Pty_onData (p : Pty) (data : string) (sv : Server) : Server :=
  Pty_send p data sv.

(** [socket.on("createTerminal", ({ id }) => { terminals[id] = new
    Pty(socket, id) })].  For [id = "__proto__"] the assignment replaces
    the prototype of the table instead of adding a property; that case is
    [None] here and is taken up by [LegacySession.handle]. *)
Definition onCreateTerminal (socket : Socket) (id : string) (pid : Pid) (sv : Server)
  : option Server :=
  if String.eqb id "__proto__" then None
  else
    let p := newPty socket id pid in
    Some {| terminals := <[id := p]> (terminals sv);
            effects := effects sv ++ [Spawned (pty_shell p) pid] |}.

(** [socket.on("terminalData", ({ id, data }) => { if (!terminals[id]) {
    ...; return }; terminals[id].write(data) })]. *)
Definition onTerminalData (id data : string) (sv : Server) : Result Server :=
  match getTerminal sv id with
  | VUndefined => Ok sv
  | VPty p => Ok (Pty_write p data sv)
  | VInherited _ => Err "TypeError: terminals[id].write is not a function"
  end.

(** The shell registered under [id] prints [data]. *)
Definition onProcessData (id data : string) (sv : Server) : Server :=
  match terminals sv !! id with
  | Some p => Pty_onData p data sv
  | None => sv
  end.

End Handlers.

End Legacy.

(* ===================================================================== *)
(** ** Vocabulary of the statements *)
(* ===================================================================== *)

(** What follows a call that ended. *)
Definition andThen {A B : Type} (r : Outcome A * St)
    (k : A -> St -> Outcome B * St) : Outcome B * St :=
  match r with
  | (Returned a, st) => k a st
  | (Thrown e, st) => (Thrown e, st)
  | (Blocked, st) => (Blocked, st)
  end.

(** The state of a call that joined the queue of a free key and was
    granted the lock at once. *)
Definition locked (key : string) (me : TaskId) (st : St) : St :=
  grant key me (enqueue key me st).

(** A program that never touches the mutex. *)
Fixpoint lockless {A : Type} (p : Prog A) : Prop :=
  match p with
  | Ret _ | Throw _ => True
  | GetThis k => forall t, lockless (k t)
  | SetThis _ k | Emit _ _ k | Tick k => lockless k
  | Await c k => forall r, lockless (k r)
  | Acquire _ _ | Release _ _ => False
  end.

(** The run finds no usable handle: none exists, or the one it keeps or
    connects to reports not-running.  The last two arguments are the
    project object and the trace at the moment the creation starts. *)
Inductive NeedsNewSandbox (T : Z) (env : Env) (this : Project) (tr : list Event)
  : Project -> list Event -> Prop :=
| NoHandle :
    truthyString (containerId this) = false ->
    container this = None ->
    NeedsNewSandbox T env this tr this tr
| KeptHandleNotRunning (c : Container) :
    truthyString (containerId this) = false ->
    container this = Some c ->
    respond env tr (Container_isRunning c) = Ok false ->
    NeedsNewSandbox T env this tr this
      (tr ++ [Called (Container_isRunning c) (Ok false)])
| ConnectedNotRunning (id : string) (c : Container) :
    containerId this = Some id ->
    truthyString (Some id) = true ->
    respond env tr (Container_connect id (sandboxOpts T)) = Ok c ->
    respond env (tr ++ [Called (Container_connect id (sandboxOpts T)) (Ok c)])
      (Container_isRunning c) = Ok false ->
    NeedsNewSandbox T env this tr (with_container (Some c) this)
      (tr ++ [Called (Container_connect id (sandboxOpts T)) (Ok c);
              Called (Container_isRunning c) (Ok false)]).

(** The event is an external call that failed. *)
Definition isFailure (e : Event) : bool :=
  match e with
  | Called _ r => match r with Err _ => true | Ok _ => false end
  | Emitted _ _ => false
  end.

(** The event gives the run a running handle: a handle that [isRunning]
    validated, or a sandbox created. *)
Definition yieldsRunningHandle (e : Event) : bool :=
  match e with
  | Called c r =>
      match c return Result (Reply c) -> bool with
      | Container_isRunning _ =>
          fun r => match r with Ok true => true | _ => false end
      | Container_create _ _ =>
          fun r => match r with Ok _ => true | Err _ => false end
      | _ => fun _ => false
      end r
  | Emitted _ _ => false
  end.


(** The text contains [http://localhost:] followed by a digit. *)
Definition hasLocalhostUrl (s : string) : Prop :=
  exists pre d rest,
    isDigit d = true /\ s = pre ++ localhostPrefix ++ String d rest.

(** The text contains the escape character. *)
Fixpoint hasEscape (s : string) : bool :=
  match s with
  | EmptyString => false
  | String c r => (c =? ESC)%char || hasEscape r
  end.

(** What the output callback sends for a chunk. *)
Definition outputEvents (getHost : Container -> number -> string)
    (this : Project) (cb : OutputCallback) (chunk : string) : list Event :=
  Emitted (cb_socket cb) (terminalResponse (Some (cb_id cb)) (Text chunk))
  :: match extractPortNumber chunk with
     | Some port =>
         if truthyNumber (Some port) then
           [Emitted (cb_socket cb)
              (previewURL ("https://" ++
                 match container this with
                 | Some c => getHost c port
                 | None => "undefined"
                 end))]
         else []
     | None => []
     end.

(** Every session of the registry forwards its output under the logical id
    it is registered under. *)
Definition wellTagged (m : TerminalManager) : Prop :=
  forall id t, tm_terminals m !! id = Some t -> cb_id (term_onOutput t) = id.

(** The output of the specification's example: a server announcing its
    port in green. *)
Definition serverRunning : string :=
  String ESC "[32mServer running at http://localhost:3001/" ++ String ESC "[0m".

(** A line in which the port number is set in bold, as development
    servers print it. *)
Definition coloredPort : string :=
  "Local: http://localhost:" ++ String ESC "[1m5173" ++ String ESC "[22m/".

(** * The calls of [initialize] as phases

    The event loop interleaves calls of [initialize] at their suspension
    points.  A call is followed through the phases below; [taskOf] gives
    the task that a phase stands for. *)

(** Where a call of [initialize] stands. *)
Inductive Phase : Type :=
| Unstarted
| Queued
| Connecting (id : string)
| Validating (c : Container)
| Creating
| Persisting (containerId : option string)
| Leaving (r : Result unit)
| Finished (r : Result unit).

(** The call holds the lock. *)
Definition inCritical (ph : Phase) : bool :=
  match ph with
  | Connecting _ | Validating _ | Creating | Persisting _ => true
  | _ => false
  end.

(** The call has settled. *)
Definition isFinished (ph : Phase) : bool :=
  match ph with Finished _ => true | _ => false end.

(** The sandbox service keeps its word: a creation succeeds, and a sandbox
    it created can be connected to under its id and reports running. *)
Record SandboxesStayUp (T : Z) (env : Env) : Prop := {
  creation_succeeds : forall tr template,
    exists c, respond env tr (Container_create template (sandboxOpts T)) = Ok c;
  created_connects : forall tr id,
    In id (createdIds tr) ->
    exists c, respond env tr (Container_connect id (sandboxOpts T)) = Ok c
              /\ sandboxId c = id;
  created_runs : forall tr c,
    In (sandboxId c) (createdIds tr) ->
    respond env tr (Container_isRunning c) = Ok true
}.

(** The session holds a handle of a sandbox created in the trace, and
    knows its id. *)
Definition Established (st : St) : Prop :=
  exists h, container (st_this st) = Some h
            /\ In (sandboxId h) (createdIds (st_trace st))
            /\ containerId (st_this st) = Some (sandboxId h).

(** What a phase inside the critical section knows once a sandbox has
    been created. *)
Definition phaseOk (st : St) (ph : Phase) : Prop :=
  match ph with
  | Connecting id =>
      In id (createdIds (st_trace st)) /\ containerId (st_this st) = Some id
  | Validating c => In (sandboxId c) (createdIds (st_trace st))
  | Creating => False
  | _ => True
  end.

(** The number of stretches a schedule really runs. *)
Fixpoint effective (env : Env) {A : Type} (schedule : list TaskId) (s : Sys A) : nat :=
  match schedule with
  | [] => 0
  | i :: rest =>
      match step env i s with
      | Some s' => S (effective env rest s')
      | None => effective env rest s
      end
  end.

Section Loop.
Variable T : Z.
Variable key ty : string.
Variable env : Env.

(** What [initialize] still has to do once the rest [p] of its critical
    section is done. *)
Definition afterCritical (p : Prog unit) : Prog unit :=
  await (finally p (Release key (Ret tt))) >> initializeManagers.

(** The last step of the critical section, [needed] being what line 74
    evaluated to. *)
Definition checkThenCreate (needed : bool) : Prog unit :=
  if needed then createContainer T else Ret tt.

(** The task of a call in the given phase: what is left of [initialize]. *)
Definition taskOf (ph : Phase) : Task unit :=
  match ph with
  | Unstarted => Todo (initialize T)
  | Queued => Paused (Acquire key (afterCritical (initializeCritical T)))
  | Connecting id =>
      Paused (afterCritical
        ((let* c := call (Container_connect id (sandboxOpts T)) in
          assign (with_container (Some c))) >>
         let* needed := needsNewContainer in checkThenCreate needed))
  | Validating c =>
      Paused (afterCritical
        (let* needed :=
           (let* running := call (Container_isRunning c) in Ret (negb running)) in
         checkThenCreate needed))
  | Creating => Paused (afterCritical (createFrom T (templateOf ty)))
  | Persisting cid => Paused (afterCritical (call (Db_setContainerId key cid)))
  | Leaving (Ok _) => Paused (Tick initializeManagers)
  | Leaving (Err e) => Paused (Tick (Throw e))
  | Finished r => Settled r
  end.

(** The phase in which the critical section pauses after the connect
    step: it validates the handle it has, or creates. *)
Definition check (st : St) : Phase * St :=
  match container (st_this st) with
  | Some c => (Validating c, st)
  | None => (Creating, st)
  end.

(** The phase in which the critical section first pauses: it connects to
    the last-known id when there is one, else it goes on to the check. *)
Definition enter (st : St) : Phase * St :=
  match containerId (st_this st) with
  | Some id => if truthyString (Some id) then (Connecting id, st) else check st
  | None => check st
  end.

(** The critical section ends with [r]: the lock is released. *)
Definition leave (r : Result unit) (st : St) : Phase * St :=
  (Leaving r, release key st).

(** The rest of [initialize] after the critical section ended with [r]:
    lines 100-112. *)
Definition finish (r : Result unit) (st : St) : Phase * St :=
  match r with
  | Err e => (Finished (Err e), st)
  | Ok _ =>
      match container (st_this st) with
      | None => (Finished (Err "Failed to create container"), st)
      | Some c =>
          let this1 :=
            match terminalManager (st_this st) with
            | None => with_terminalManager (Some (newTerminalManager c)) (st_this st)
            | Some _ => st_this st
            end in
          let this2 :=
            match fileManager this1 with
            | None => with_fileManager (Some (newFileManager c)) this1
            | Some _ => this1
            end in
          (Finished (Ok tt), set_this this2 st)
      end
  end.

(** One stretch of call [i], on phases. *)
Definition phaseStep (i : TaskId) (ph : Phase) (st : St) : option (Phase * St) :=
  match ph with
  | Unstarted => Some (Queued, enqueue key i st)
  | Queued => if grantable key i st then Some (enter (grant key i st)) else None
  | Connecting id =>
      let connect := Container_connect id (sandboxOpts T) in
      let r := respond env (st_trace st) connect in
      let st1 := log (Called connect r) st in
      Some match r with
           | Ok c => check (set_this (with_container (Some c) (st_this st1)) st1)
           | Err e => leave (Err e) st1
           end
  | Validating c =>
      let r := respond env (st_trace st) (Container_isRunning c) in
      let st1 := log (Called (Container_isRunning c) r) st in
      Some match r with
           | Ok true => leave (Ok tt) st1
           | Ok false => (Creating, st1)
           | Err e => leave (Err e) st1
           end
  | Creating =>
      let create := Container_create (templateOf ty) (sandboxOpts T) in
      let r := respond env (st_trace st) create in
      let st1 := log (Called create r) st in
      Some match r with
           | Ok c =>
               (Persisting (Some (sandboxId c)),
                set_this (with_containerId (Some (sandboxId c))
                            (with_container (Some c) (st_this st1))) st1)
           | Err e => leave (Err e) st1
           end
  | Persisting cid =>
      let write := Db_setContainerId key cid in
      let r := respond env (st_trace st) write in
      let st1 := log (Called write r) st in
      Some (leave (match r with Ok _ => Ok tt | Err e => Err e end) st1)
  | Leaving r => Some (finish r st)
  | Finished _ => None
  end.

(** The stretch of a task, as [step] runs it. *)
Definition taskStep (i : TaskId) (t : Task unit) (st : St) : option (Task unit * St) :=
  match t with
  | Todo p => Some (advance i p st)
  | Paused p => resume env i p st
  | Settled _ => None
  end.

(** The system whose calls stand in the given phases. *)
Definition sysOf (st : St) (phases : list Phase) : Sys unit :=
  {| sys_st := st; sys_tasks := map taskOf phases |}.

(** One stretch of call [i], on the phases of all calls. *)
Definition phasesStep (i : TaskId) (st : St) (phases : list Phase)
  : option (St * list Phase) :=
  match phases !! i with
  | Some ph =>
      match phaseStep i ph st with
      | Some (ph', st') => Some (st', <[i := ph']> phases)
      | None => None
      end
  | None => None
  end.

(** The lock of the project agrees with the phases: the waiters are the
    calls that are queued, each once, and the holder is the call inside
    its critical section. *)
Record LockInv (st : St) (phases : list Phase) : Prop := {
  inv_key : projectId (st_this st) = key;
  inv_type : type (st_this st) = ty;
  inv_waiters : forall i, i ∈ waiters (lockOf st key) <-> phases !! i = Some Queued;
  inv_nodup : NoDup (waiters (lockOf st key));
  inv_holder : forall i,
    holder (lockOf st key) = Some i
    <-> exists ph, phases !! i = Some ph /\ inCritical ph = true
}.

(** What a stretch does to the lock and to the phase of its call. *)
Inductive LockMove (i : TaskId) (l : Lock) : Phase -> Phase -> Lock -> Prop :=
| MoveEnqueue :
    LockMove i l Unstarted Queued
      {| holder := holder l; waiters := waiters l ++ [i] |}
| MoveGrant ph' rest :
    inCritical ph' = true -> holder l = None -> waiters l = i :: rest ->
    LockMove i l Queued ph' {| holder := Some i; waiters := rest |}
| MoveInside ph ph' :
    inCritical ph = true -> inCritical ph' = true -> LockMove i l ph ph' l
| MoveRelease ph r :
    inCritical ph = true ->
    LockMove i l ph (Leaving r) {| holder := None; waiters := waiters l |}
| MoveFinish r r' : LockMove i l (Leaving r) (Finished r') l.

(** No creation call was made since the start, or one was made: the
    session then holds the sandbox created, and whoever is inside the
    critical section is working on that sandbox. *)
Definition CreateInv (n0 : nat) (st : St) (phases : list Phase) : Prop :=
  createCalls (st_trace st) = n0
  \/ (createCalls (st_trace st) = S n0
      /\ Established st
      /\ Forall (phaseOk st) phases).

(** The phases in which a call can be while no sandbox has been created,
    on a session that started without one. *)
Definition beforeCreation (ph : Phase) : Prop :=
  ph = Unstarted \/ ph = Queued \/ ph = Creating.

(** On a session that started without a sandbox, as long as no creation
    call was made, there is still none and every call is yet to create. *)
Definition FreshInv (n0 : nat) (st : St) (phases : list Phase) : Prop :=
  createCalls (st_trace st) = n0 ->
  container (st_this st) = None
  /\ truthyString (containerId (st_this st)) = false
  /\ Forall beforeCreation phases.

(** The number of stretches a call in this phase may still run. *)
Definition rank (ph : Phase) : nat :=
  match ph with
  | Unstarted => 7
  | Queued => 6
  | Connecting _ => 5
  | Validating _ => 4
  | Creating => 3
  | Persisting _ => 2
  | Leaving _ => 1
  | Finished _ => 0
  end.

(** The number of stretches all calls together may still run. *)
Fixpoint work (phases : list Phase) : nat :=
  match phases with
  | [] => 0
  | ph :: rest => rank ph + work rest
  end.

(** The phases whose next stretch needs nothing from another call. *)
Definition runnable (ph : Phase) : bool :=
  match ph with
  | Queued | Finished _ => false
  | _ => true
  end.

(** What every reachable state satisfies; [fresh] tells whether the
    session started without a sandbox. *)
Definition AllInv (n0 : nat) (fresh : bool) (st : St) (phases : list Phase) : Prop :=
  LockInv st phases
  /\ CreateInv n0 st phases
  /\ (fresh = true -> FreshInv n0 st phases).

(** Until a sandbox is created none is usable: every [connect] succeeds
    and every handle reports not-running.  [n0] is the number of creation
    calls made before the calls at hand. *)
Definition NothingRunsYet (n0 : nat) : Prop :=
  forall tr, createCalls tr = n0 ->
    (forall id, exists c, respond env tr (Container_connect id (sandboxOpts T)) = Ok c)
    /\ (forall c, respond env tr (Container_isRunning c) = Ok false).

(** The phases of a call up to its creation step: not started, waiting
    for the lock, connecting, validating, or about to create. *)
Definition stillToCreate (ph : Phase) : Prop :=
  match ph with
  | Unstarted | Queued | Connecting _ | Validating _ | Creating => True
  | _ => False
  end.

(** While no sandbox is usable and none has been created, no call gets
    past its creation step. *)
Definition NeedInv (n0 : nat) (st : St) (phases : list Phase) : Prop :=
  createCalls (st_trace st) = n0 -> Forall stillToCreate phases.

(** Whatever sandbox there is is usable, as long as none is created:
    every [connect] succeeds and every handle reports running. *)
Definition EverythingRuns (n0 : nat) : Prop :=
  forall tr, createCalls tr = n0 ->
    (forall id, exists c, respond env tr (Container_connect id (sandboxOpts T)) = Ok c)
    /\ (forall c, respond env tr (Container_isRunning c) = Ok true).

(** The phases of a call that does not create. *)
Definition neverCreates (ph : Phase) : Prop :=
  match ph with
  | Creating | Persisting _ => False
  | _ => True
  end.

(** While every sandbox is usable and the session has a handle or an id
    on record, no creation call is made and no call is about to make
    one. *)
Definition UpInv (n0 : nat) (st : St) (phases : list Phase) : Prop :=
  createCalls (st_trace st) = n0
  /\ (container (st_this st) <> None
      \/ truthyString (containerId (st_this st)) = true)
  /\ Forall neverCreates phases.

(** An external call that follows the creation of the sandbox [c] without
    creating another: the write of the new id to the store, a [connect] to
    the new id that returns a handle of it, or an [isRunning] on a handle
    of it that answers [true]. *)
Definition followsCreation (c : Container) (e : Event) : Prop :=
  (exists r : Result unit, e = Called (Db_setContainerId key (Some (sandboxId c))) r)
  \/ (exists h, sandboxId h = sandboxId c
               /\ e = Called (Container_connect (sandboxId c) (sandboxOpts T)) (Ok h))
  \/ (exists h, sandboxId h = sandboxId c
               /\ e = Called (Container_isRunning h) (Ok true)).

(** The external calls of a run: none of them a creation, or a first and
    only creation, which succeeds, and after it only calls that follow
    it. *)
Definition OneCreation (new : list Event) : Prop :=
  createCalls new = 0%nat
  \/ exists pre c post,
       new = (pre ++ Called (Container_create (templateOf ty) (sandboxOpts T)) (Ok c)
                  :: post)%list
       /\ createCalls pre = 0%nat
       /\ Forall (followsCreation c) post.

(** Inside the critical section, after the creation of [c]: the handle
    under validation and the id to write are those of [c]. *)
Definition worksOn (c : Container) (ph : Phase) : Prop :=
  match ph with
  | Validating h => sandboxId h = sandboxId c
  | Persisting cid => cid = Some (sandboxId c)
  | _ => True
  end.

(** The events since the start, [tr0] being the trace at the start, have
    the shape [OneCreation], and after the creation of [c] the session and
    the calls inside the critical section know the id of [c]. *)
Definition ShapeInv (tr0 : list Event) (st : St) (phases : list Phase) : Prop :=
  exists new,
    st_trace st = (tr0 ++ new)%list
    /\ (createCalls new = 0%nat
        \/ exists pre c post,
             new = (pre ++ Called (Container_create (templateOf ty) (sandboxOpts T)) (Ok c)
                        :: post)%list
             /\ createCalls pre = 0%nat
             /\ Forall (followsCreation c) post
             /\ containerId (st_this st) = Some (sandboxId c)
             /\ Forall (worksOn c) phases).

End Loop.

(* ===================================================================== *)
(** ** The claims as the specification words them, and sample sessions *)
(* ===================================================================== *)

(** The specification's mutual-exclusion property read to the letter: any
    number of concurrent calls of [initialize()] on a session, all settled,
    have made exactly one creation call. *)
Definition exactlyOneCreation : Prop :=
  forall (T : Z) (env : Env) (n : nat) (st0 : St) (schedule : list TaskId),
    lockOf st0 (projectId (st_this st0)) = freeLock ->
    (1 <= n)%nat ->
    quiescent (run env schedule (spawn n (initialize T) st0)) = true ->
    createCalls (st_trace (sys_st (run env schedule (spawn n (initialize T) st0))))
    = S (createCalls (st_trace st0)).

(** The specification's step 1 of [initialize()] read to the letter: a
    failure of [connect(id)] is not thrown to the caller, and the run goes
    on to a creation call. *)
Definition connectFailureTolerated : Prop :=
  forall (T : Z) (env : Env) (me : TaskId) (st : St) (id : string) (e : Error),
    lockOf st (projectId (st_this st)) = freeLock ->
    containerId (st_this st) = Some id ->
    truthyString (Some id) = true ->
    respond env (st_trace st) (Container_connect id (sandboxOpts T)) = Err e ->
    fst (exec env me (initialize T) st) <> Thrown e
    /\ createCalls (st_trace (snd (exec env me (initialize T) st)))
       = S (createCalls (st_trace st)).

(** The specification's step 2 of [initialize()] read to the letter: every
    run that finds no usable handle creates a sandbox and ends with the id
    of the new sandbox as the last-known id, so that a stale id is never
    kept. *)
Definition staleIdNeverKept : Prop :=
  forall (T : Z) (env : Env) (me : TaskId) (st : St) (this1 : Project)
         (tr1 : list Event),
    lockOf st (projectId (st_this st)) = freeLock ->
    NeedsNewSandbox T env (st_this st) (st_trace st) this1 tr1 ->
    exists c,
      respond env tr1 (Container_create (templateOf (type (st_this st))) (sandboxOpts T))
      = Ok c
      /\ containerId (st_this (snd (exec env me (initialize T) st))) = Some (sandboxId c).

(** The failure path of [initialize()] read to the letter: a run on a
    session without handle, multiplexer and file adapter, in which no
    handle is validated and no sandbox is created, throws and leaves the
    session without any of the three. *)
Definition failureLeavesNoHandle : Prop :=
  forall (T : Z) (env : Env) (me : TaskId) (st : St) (new : list Event),
    lockOf st (projectId (st_this st)) = freeLock ->
    container (st_this st) = None ->
    terminalManager (st_this st) = None ->
    fileManager (st_this st) = None ->
    st_trace (snd (exec env me (initialize T) st)) = (st_trace st ++ new)%list ->
    forallb (fun e => negb (yieldsRunningHandle e)) new = true ->
    (exists e, fst (exec env me (initialize T) st) = Thrown e)
    /\ container (st_this (snd (exec env me (initialize T) st))) = None
    /\ terminalManager (st_this (snd (exec env me (initialize T) st))) = None
    /\ fileManager (st_this (snd (exec env me (initialize T) st))) = None.


(** The extractor's property read on the input as given: no port without
    [http://localhost:<digits>] in the input. *)
Definition noPortWithoutUrlInInput : Prop :=
  forall s : string, ~ hasLocalhostUrl s -> extractPortNumber s = None.

(** A sandbox service, store and shell host that answer by a fixed script:
    whether [connect] finds the sandbox, whether a handle reports running,
    whether a creation succeeds, whether the timeout can be extended.  All
    other calls succeed. *)
Definition scripted (connects runs creates extends : bool) : Env :=
  {| respond := fun _ c =>
       match c return Result (Reply c) with
       | Container_connect id _ =>
           if connects then Ok {| sandboxId := id |} else Err "sandbox not found"
       | Container_create _ _ =>
           if creates then Ok {| sandboxId := "sbx-new" |} else Err "quota exceeded"
       | Container_isRunning _ => Ok runs
       | Container_setTimeout _ _ => if extends then Ok tt else Err "sandbox gone"
       | Pty_create _ => Ok 7%nat
       | _ => Ok tt
       end |}.

(** A session on which nothing has happened yet. *)
Definition sessionOf (p : Project) : St :=
  {| st_this := p; st_trace := []; st_locks := ∅ |}.

(** A project never provisioned, and one whose sandbox [sbx-old] is on
    record. *)
Definition freshProject : Project := newProject "p1" "reactjs" EmptyString.
Definition knownProject : Project := newProject "p1" "reactjs" "sbx-old".

(** A session in use: handle, file adapter, and a multiplexer with one
    shell under the logical id [A]. *)
Definition liveProject : Project :=
  let c := {| sandboxId := "sbx-old" |} in
  {| projectId := "p1"; type := "reactjs";
     fileManager := Some (newFileManager c);
     terminalManager :=
       Some {| tm_container := c;
               tm_terminals :=
                 {[ "A" := {| term_pid := 7%nat;
                              term_onOutput := {| cb_socket := 1%nat; cb_id := "A" |} |} ]} |};
     container := Some c;
     containerId := Some "sbx-old" |}.

Definition owner : Connection := {| userId := "u1"; isOwner := true; socket := 1%nat |}.
Definition guest : Connection := {| userId := "u2"; isOwner := false; socket := 2%nat |}.

(** The host under which a sandbox is reachable. *)
Definition sampleHost (c : Container) (port : number) : string :=
  sandboxId c ++ ".sandbox.test".

(** Every call in turn, [rounds] times. *)
Definition roundRobin (n rounds : nat) : list TaskId :=
  concat (replicate rounds (seq 0 n)).
(* ===================================================================== *)
(** ** The API helper of the tests: [tests/utils/api.ts] *)
(* ===================================================================== *)

Module Api.

Definition isSlash (c : ascii) : bool := (c =? "/")%char.

(** [\/+] at the start of [s], greedy: the text after the run. *)
Fixpoint dropSlashes (s : string) : string :=
  match s with
  | String c r => if isSlash c then dropSlashes r else s
  | EmptyString => s
  end.

(** [s] is made of slashes only. *)
Fixpoint allSlashes (s : string) : bool :=
  match s with
  | String c r => isSlash c && allSlashes r
  | EmptyString => true
  end.

(** The scan of [/(^\/+|\/+$)/g] past the start of the string: [^] cannot
    match any more, and [\/+$] matches where a run of slashes reaches the
    end of the string; a slash that something else follows is kept. *)
Fixpoint dropTrailingSlashes (s : string) : string :=
  match s with
  | String c r =>
      if isSlash c && allSlashes r then EmptyString
      else String c (dropTrailingSlashes r)
  | EmptyString => EmptyString
  end.

(** [part.replace(/(^\/+|\/+$)/g, "")]: at the start [^\/+] takes the
    leading run, the scan goes on behind it. *)
Definition trimSlashes (part : string) : string :=
  dropTrailingSlashes (dropSlashes part).

(** [.replace(/\/+/g, "/")]: every run of slashes becomes one slash; of a
    run, the slashes that a slash follows are dropped. *)
Fixpoint collapseSlashes (s : string) : string :=
  match s with
  | String c r =>
      match r with
      | String c' _ =>
          if isSlash c && isSlash c' then collapseSlashes r
          else String c (collapseSlashes r)
      | EmptyString => String c EmptyString
      end
  | EmptyString => EmptyString
  end.

(** [function joinUrl(...parts: string[]): string] *)
Definition joinUrl (parts : list string) : string :=
  collapseSlashes (String.concat "/" (map trimSlashes parts)).

(** [type HTTPMethod] *)
Inductive HTTPMethod : Type := GET | POST | PUT | DELETE | PATCH.

(** [interface RequestOptions<TBody>]; [TBody] is whatever the caller
    sends, [AbortSignal] is opaque. *)
Record RequestOptions (TBody : Type) : Type := {
  body : option TBody;
  headers : option (gmap string string);
  signal : option nat
}.
Arguments body {TBody} r.
Arguments headers {TBody} r.
Arguments signal {TBody} r.

(** The arguments of [fetch(url, fetchOptions)]. *)
Record FetchCall : Type := {
  fetch_url : string;
  fetch_method : HTTPMethod;
  fetch_headers : gmap string string;
  fetch_signal : option nat;
  fetch_body : option string
}.

Section Request.

(** [env.BACKEND_URL], the token [getJwtToken()] resolved to, and
    [JSON.stringify] on the bodies the caller sends. *)
Variable BACKEND_URL : string.
Variable jwt : string.
Context {TBody : Type}.
Variable stringify : TBody -> string.

(** [{ Authorization: `Bearer ${jwt}`, "Content-Type": "application/json",
    ...options.headers }]: a key of [options.headers] replaces the default
    of the same name. *)
Definition requestHeaders (options : RequestOptions TBody) : gmap string string :=
  default ∅ (headers options)
  ∪ {[ "Authorization" := "Bearer " ++ jwt; "Content-Type" := "application/json" ]}.

(** [async function request(method, url, options = {})]: the call of
    [fetch] it ends with. *)
Definition request (method : HTTPMethod) (url : string)
    (options : RequestOptions TBody) : FetchCall :=
  {| fetch_url := joinUrl [BACKEND_URL; "/api/"; url];
     fetch_method := method;
     fetch_headers := requestHeaders options;
     fetch_signal := signal options;
     fetch_body := option_map stringify (body options) |}.

End Request.

End Api.

(* ===================================================================== *)
(** ** The earlier server: the handshake and the file handlers of
       [index.ts] *)
(* ===================================================================== *)

Module LegacySession.

(** A value of [socket.handshake.query]: a string, or an array of strings
    when the key is given more than once. *)
Inductive QueryValue : Type :=
| QString (s : string)
| QArray (l : list string).

(** What [handshakeSchema] parses out of the query. *)
Record HandshakeQuery : Type := {
  hq_userId : string;
  hq_sandboxId : string;
  hq_EIO : string;
  hq_transport : string
}.

(** [z.string()] on the value of a key. *)
Definition zString (v : option QueryValue) : option string :=
  match v with
  | Some (QString s) => Some s
  | _ => None
  end.

(** [handshakeSchema.safeParse(q)]: the four keys must hold strings;
    other keys are ignored. *)
Definition safeParse (q : gmap string QueryValue) : option HandshakeQuery :=
  match zString (q !! "userId"), zString (q !! "sandboxId"),
        zString (q !! "EIO"), zString (q !! "transport") with
  | Some userId, Some sandboxId, Some eio, Some transport =>
      Some {| hq_userId := userId; hq_sandboxId := sandboxId;
              hq_EIO := eio; hq_transport := transport |}
  | _, _, _, _ => None
  end.

(** [User] of [./types], a declaration that is not in the repository
    snapshot: the middleware reads [sandbox], and of a sandbox its [id]. *)
Record Sandbox : Type := { sb_id : string }.
Record User : Type := { sandbox : list Sandbox }.

(** [socket.data = { id: sandboxId, userId }] *)
Record SocketData : Type := { sd_id : string; sd_userId : string }.

(** How the middleware ends: [next()] with [socket.data] set,
    [next(new Error(message))], or the rejection of its own promise when
    the request to the database throws ([next] is then never called). *)
Inductive Admission : Type :=
| Accepted (data : SocketData)
| Refused (message : string)
| Rejected (e : Error).

(** [io.use(async (socket, next) => { ... })].  [fetchUser userId] is the
    answer to [fetch(`http://localhost:8787/api/user?id=${userId}`)]
    followed by [.json()]: a user, [null], or a failure. *)
Definition authenticate (fetchUser : string -> Result (option User))
    (q : gmap string QueryValue) : Admission :=
  match safeParse q with
  | None => Refused "Invalid request."
  | Some parsed =>
      match fetchUser (hq_userId parsed) with
      | Err e => Rejected e
      | Ok None => Refused "DB error."
      | Ok (Some dbUserJSON) =>
          match List.find (fun s => String.eqb (sb_id s) (hq_sandboxId parsed))
                  (sandbox dbUserJSON) with
          | None => Refused "Invalid credentials."
          | Some _ =>
              Accepted {| sd_id := hq_sandboxId parsed; sd_userId := hq_userId parsed |}
          end
      end
  end.

(** An element of [sandboxFiles.fileData]. *)
Record FileData : Type := { fd_id : string; fd_data : string }.

(** The calls of [saveFile] and [renameFile] of [./utils], which write to
    the store. *)
Inductive StoreCall : Type :=
| StoreSave (fileId body : string)
| StoreRename (fileId newName data : string).

(** What a connection holds: the array [sandboxFiles.fileData], loaded
    when the connection opened, and the calls it made to the store. *)
Record Files : Type := { fileData : list FileData; stored : list StoreCall }.

(** [sandboxFiles.fileData.find((f) => f.id === fileId)] *)
Definition findFile (fileId : string) (l : list FileData) : option FileData :=
  List.find (fun f => String.eqb (fd_id f) fileId) l.

(** A write into the object that [find] returned: the first element with
    that id changes, in place. *)
Fixpoint updateFound (fileId : string) (change : FileData -> FileData)
    (l : list FileData) : list FileData :=
  match l with
  | [] => []
  | f :: rest =>
      if String.eqb (fd_id f) fileId then change f :: rest
      else f :: updateFound fileId change rest
  end.

(** [socket.on("getFile", (fileId, callback) => { ... })]: what
    [callback] is called with; [None] when it is not called. *)
Definition onGetFile (fileId : string) (s : Files) : option string :=
  match findFile fileId (fileData s) with
  | None => None
  | Some file => Some (fd_data file)
  end.

(** [socket.on("saveFile", async (fileId, body) => { ... })] *)
Definition onSaveFile (fileId body : string) (s : Files) : Files :=
  match findFile fileId (fileData s) with
  | None => s
  | Some _ =>
      {| fileData :=
           updateFound fileId (fun f => {| fd_id := fd_id f; fd_data := body |}) (fileData s);
         stored := stored s ++ [StoreSave fileId body] |}
  end.

(** [socket.on("renameFile", async (fileId, newName) => { ... })] *)
Definition onRenameFile (fileId newName : string) (s : Files) : Files :=
  match findFile fileId (fileData s) with
  | None => s
  | Some file =>
      {| fileData :=
           updateFound fileId (fun f => {| fd_id := newName; fd_data := fd_data f |})
             (fileData s);
         stored := stored s ++ [StoreRename fileId newName (fd_data file)] |}
  end.

(** The events that reach the table of terminals. *)
Inductive TerminalEvent : Type :=
| CreateTerminal (socket : Socket) (id : string) (pid : Pid)
| TerminalData (id data : string)
| ProcessData (id data : string)
| Disconnect (socket : Socket).




End LegacySession.

(* ===================================================================== *)
(** ** [Project.ts]: the file, deployment and inventory handlers *)
(* ===================================================================== *)

Module Operations.

(** The values the collaborators return and the handlers hand on:
    [undefined], booleans, strings, numbers, and references to arrays and
    objects, which the handlers never look into. *)
Inductive Value : Type :=
| VUndefined
| VBool (b : bool)
| VString (s : string)
| VNumber (n : Z)
| VRef (n : nat).

(** What a handler returns: a value handed on as it is, or an object
    literal with its properties. *)
Inductive Response : Type :=
| Plain (v : Value)
| Object (fields : list (string * Value)).

(** The rate limiters of [utils/ratelimit]. *)
Inductive Limiter : Type :=
| createFileRL | createFolderRL | deleteFileRL | renameFileRL | saveFileRL.

(** The methods of the file adapter that the handlers call. *)
Inductive FileMethod : Type :=
| getFile | getFolder | saveFile | moveFile | createFile | createFolder
| renameFile | deleteFile | deleteFolder | getFilesForDownload.

(** The methods of the deployment client that the handlers call. *)
Inductive DokkuMethod : Type := listApps | getAppCreatedAt | appExists.

(** [DokkuClient] and [SecureGitClient]: of the first the handlers read
    [isConnected], the second is a reference they call. *)
Record DokkuClient : Type := { isConnected : bool }.
Record SecureGitClient : Type := { git_ref : nat }.

(** [type ServerContext] *)
Record ServerContext : Type := {
  dokkuClient : option DokkuClient;
  gitClient : option SecureGitClient
}.

(** The asynchronous calls of these handlers. *)
Inductive Op : Type :=
| RateLimiter_consume (limiter : Limiter) (key : string) (points : nat)
| FileManager_call (fm : FileManager) (method : FileMethod) (args : list string)
| DokkuClient_call (client : DokkuClient) (method : DokkuMethod) (args : list string)
| GitClient_pushFiles (client : SecureGitClient) (tarBase64 : Value) (projectId : string).

(** A handler: synchronous reads of the project object and awaited
    calls. *)
Inductive Handler : Type :=
| Return (v : Response)
| Raise (e : Error)
| ReadThis (k : Project -> Handler)
| Wait (op : Op) (k : Result Value -> Handler).

(** [await call]: a rejection is thrown at the [await]. *)
Definition awaitOp (op : Op) (k : Value -> Handler) : Handler :=
  Wait op (fun r => match r with Ok v => k v | Err e => Raise e end).

(** [this.fileManager?.method(args)]: the promise of the adapter, or
    [undefined] at once when there is no adapter. *)
Definition viaFileManager (method : FileMethod) (args : list string)
    (k : Value -> Handler) : Handler :=
  ReadThis (fun this =>
    match fileManager this with
    | Some fm => awaitOp (FileManager_call fm method args) k
    | None => k VUndefined
    end).

Section Handlers.

Variable connection : Connection.
Variable context : ServerContext.

Definition handleGetFile (fileId : string) : Handler :=
  viaFileManager getFile [fileId] (fun v => Return (Plain v)).

Definition handleGetFolder (folderId : string) : Handler :=
  viaFileManager getFolder [folderId] (fun v => Return (Plain v)).

Definition handleSaveFile (fileId body : string) : Handler :=
  awaitOp (RateLimiter_consume saveFileRL (userId connection) 1) (fun _ =>
  viaFileManager saveFile [fileId; body] (fun v => Return (Plain v))).

Definition handleMoveFile (fileId folderId : string) : Handler :=
  viaFileManager moveFile [fileId; folderId] (fun v => Return (Plain v)).

Definition handleListApps : Handler :=
  match dokkuClient context with
  | None => Raise "Failed to retrieve apps list: No Dokku client"
  | Some client =>
      awaitOp (DokkuClient_call client listApps []) (fun apps =>
      Return (Object [("success", VBool true); ("apps", apps)]))
  end.

Definition handleGetAppCreatedAt (appName : string) : Handler :=
  match dokkuClient context with
  | None => Raise "Failed to retrieve app creation timestamp: No Dokku client"
  | Some client =>
      awaitOp (DokkuClient_call client getAppCreatedAt [appName]) (fun createdAt =>
      Return (Object [("success", VBool true); ("createdAt", createdAt)]))
  end.

Definition handleAppExists (appName : string) : Handler :=
  match dokkuClient context with
  | None => Return (Object [("success", VBool false)])
  | Some client =>
      if negb (isConnected client) then Return (Object [("success", VBool false)])
      else
        awaitOp (DokkuClient_call client appExists [appName]) (fun exists_ =>
        Return (Object [("success", VBool true); ("exists", exists_)]))
  end.

Definition handleDeploy : Handler :=
  match gitClient context with
  | None => Raise "No git client"
  | Some git =>
      ReadThis (fun this =>
        match fileManager this with
        | None => Raise "No file manager"
        | Some fm =>
            awaitOp (FileManager_call fm getFilesForDownload []) (fun tarBase64 =>
            ReadThis (fun this =>
              awaitOp (GitClient_pushFiles git tarBase64 (projectId this)) (fun _ =>
              Return (Object [("success", VBool true)]))))
        end)
  end.

Definition handleCreateFile (name : string) : Handler :=
  awaitOp (RateLimiter_consume createFileRL (userId connection) 1) (fun _ =>
  viaFileManager createFile [name] (fun success =>
  Return (Object [("success", success)]))).

Definition handleCreateFolder (name : string) : Handler :=
  awaitOp (RateLimiter_consume createFolderRL (userId connection) 1) (fun _ =>
  viaFileManager createFolder [name] (fun success =>
  Return (Object [("success", success)]))).

Definition handleRenameFile (fileId newName : string) : Handler :=
  awaitOp (RateLimiter_consume renameFileRL (userId connection) 1) (fun _ =>
  viaFileManager renameFile [fileId; newName] (fun v => Return (Plain v))).

Definition handleDeleteFile (fileId : string) : Handler :=
  awaitOp (RateLimiter_consume deleteFileRL (userId connection) 1) (fun _ =>
  viaFileManager deleteFile [fileId] (fun v => Return (Plain v))).

Definition handleDeleteFolder (folderId : string) : Handler :=
  viaFileManager deleteFolder [folderId] (fun v => Return (Plain v)).

Definition handleDownloadFiles : Handler :=
  ReadThis (fun this =>
    match fileManager this with
    | None => Raise "No file manager"
    | Some fm =>
        awaitOp (FileManager_call fm getFilesForDownload []) (fun tarBase64 =>
        Return (Object [("tarBlob", tarBase64)]))
    end).

End Handlers.

(** A call that was made, with how it settled. *)
Record Made : Type := { made_op : Op; made_result : Result Value }.

(** A handler run on its own on the project object [this], against
    collaborators that answer by [answer], given the calls made so far:
    how it ends and the calls it made, oldest first. *)
Fixpoint perform (answer : list Made -> Op -> Result Value) (this : Project)
    (h : Handler) (made : list Made) : Outcome Response * list Made :=
  match h with
  | Return v => (Returned v, made)
  | Raise e => (Thrown e, made)
  | ReadThis k => perform answer this (k this) made
  | Wait op k =>
      let r := answer made op in
      perform answer this (k r) (made ++ [{| made_op := op; made_result := r |}])
  end.

End Operations.

(** ** Vocabulary for URLs *)

(** No two slashes in a row. *)
Fixpoint singleSlashes (s : string) : bool :=
  match s with
  | String c r =>
      match r with
      | String c' _ => negb (Api.isSlash c && Api.isSlash c') && singleSlashes r
      | EmptyString => true
      end
  | EmptyString => true
  end.

(** No slash at all. *)
Fixpoint slashFree (s : string) : bool :=
  match s with
  | String c r => negb (Api.isSlash c) && slashFree r
  | EmptyString => true
  end.

(** A path segment: not empty, no slash. *)
Definition isSegment (s : string) : bool :=
  negb (String.eqb s EmptyString) && slashFree s.

Definition startsWithSlash (s : string) : bool :=
  match s with
  | String c _ => Api.isSlash c
  | EmptyString => false
  end.

(** [q] is [p] with slashes added in front and behind. *)
Definition padded (p q : string) : Prop :=
  exists a b, Api.allSlashes a = true /\ Api.allSlashes b = true /\ q = a ++ p ++ b.

(** The ids of the files a connection holds, in the order of the array. *)
Definition fileIds (s : LegacySession.Files) : list string :=
  map LegacySession.fd_id (LegacySession.fileData s).

(** The event registers a shell under [id]. *)
Definition creates (id : string) (ev : LegacySession.TerminalEvent) : bool :=
  match ev with
  | LegacySession.CreateTerminal _ id' _ => String.eqb id' id
  | _ => false
  end.


(** ** Vocabulary for the file handlers *)

(** The file operations that pass a rate limiter, and those that do not. *)
Inductive LimitedOp : Type :=
| SaveFile (fileId body : string)
| CreateFile (name : string)
| CreateFolder (name : string)
| RenameFile (fileId newName : string)
| DeleteFile (fileId : string).

Inductive DirectOp : Type :=
| GetFile (fileId : string)
| GetFolder (folderId : string)
| MoveFile (fileId folderId : string)
| DeleteFolder (folderId : string).

Definition limitedHandler (connection : Connection) (op : LimitedOp)
  : Operations.Handler :=
  match op with
  | SaveFile fileId body => Operations.handleSaveFile connection fileId body
  | CreateFile name => Operations.handleCreateFile connection name
  | CreateFolder name => Operations.handleCreateFolder connection name
  | RenameFile fileId newName => Operations.handleRenameFile connection fileId newName
  | DeleteFile fileId => Operations.handleDeleteFile connection fileId
  end.

Definition directHandler (op : DirectOp) : Operations.Handler :=
  match op with
  | GetFile fileId => Operations.handleGetFile fileId
  | GetFolder folderId => Operations.handleGetFolder folderId
  | MoveFile fileId folderId => Operations.handleMoveFile fileId folderId
  | DeleteFolder folderId => Operations.handleDeleteFolder folderId
  end.

(** The limiter an operation is charged to. *)
Definition limiterOf (op : LimitedOp) : Operations.Limiter :=
  match op with
  | SaveFile _ _ => Operations.saveFileRL
  | CreateFile _ => Operations.createFileRL
  | CreateFolder _ => Operations.createFolderRL
  | RenameFile _ _ => Operations.renameFileRL
  | DeleteFile _ => Operations.deleteFileRL
  end.

(** The call on the file adapter that an operation comes down to. *)
Definition limitedCall (fm : FileManager) (op : LimitedOp) : Operations.Op :=
  match op with
  | SaveFile fileId body =>
      Operations.FileManager_call fm Operations.saveFile [fileId; body]
  | CreateFile name => Operations.FileManager_call fm Operations.createFile [name]
  | CreateFolder name => Operations.FileManager_call fm Operations.createFolder [name]
  | RenameFile fileId newName =>
      Operations.FileManager_call fm Operations.renameFile [fileId; newName]
  | DeleteFile fileId => Operations.FileManager_call fm Operations.deleteFile [fileId]
  end.

Definition directCall (fm : FileManager) (op : DirectOp) : Operations.Op :=
  match op with
  | GetFile fileId => Operations.FileManager_call fm Operations.getFile [fileId]
  | GetFolder folderId => Operations.FileManager_call fm Operations.getFolder [folderId]
  | MoveFile fileId folderId =>
      Operations.FileManager_call fm Operations.moveFile [fileId; folderId]
  | DeleteFolder folderId =>
      Operations.FileManager_call fm Operations.deleteFolder [folderId]
  end.

(** What the client gets for the adapter's answer [v]: the two creations
    wrap it as [{ success: v }], the others hand it on. *)
Definition limitedAnswer (op : LimitedOp) (v : Operations.Value) : Operations.Response :=
  match op with
  | CreateFile _ | CreateFolder _ => Operations.Object [("success", v)]
  | _ => Operations.Plain v
  end.

Definition isConsume (m : Operations.Made) : bool :=
  match Operations.made_op m with
  | Operations.RateLimiter_consume _ _ _ => true
  | _ => false
  end.

(** A call in the record, with its result. *)
Definition did (op : Operations.Op) (r : Result Operations.Value) : Operations.Made :=
  {| Operations.made_op := op; Operations.made_result := r |}.

(** ** More sample sessions *)

(** A file adapter whose watchers cannot be stopped; all other calls
    succeed. *)
Definition watcherStuck : Env :=
  {| respond := fun _ c =>
       match c return Result (Reply c) with
       | Container_connect id _ => Ok {| sandboxId := id |}
       | Container_create _ _ => Ok {| sandboxId := "sbx-new" |}
       | Container_isRunning _ => Ok true
       | FileManager_stopWatching _ => Err "watcher stuck"
       | Pty_create _ => Ok 7%nat
       | _ => Ok tt
       end |}.

(** A sandbox service on which the sandboxes of before have stopped:
    [connect] finds every sandbox, and a handle reports running exactly
    when its sandbox was created in the run so far.  Creations and all
    other calls succeed. *)
Definition onlyCreatedRun : Env :=
  {| respond := fun tr c =>
       match c return Result (Reply c) with
       | Container_connect id _ => Ok {| sandboxId := id |}
       | Container_create _ _ => Ok {| sandboxId := "sbx-new" |}
       | Container_isRunning h =>
           Ok (existsb (String.eqb (sandboxId h)) (createdIds tr))
       | Pty_create _ => Ok 7%nat
       | _ => Ok tt
       end |}.

(** The earlier server after [createTerminal] with the id [A] on socket 1. *)
Definition legacyWithA : Legacy.Server :=
  {| Legacy.terminals := {[ "A" := Legacy.newPty "linux" 1%nat "A" 7%nat ]};
     Legacy.effects := [Legacy.Spawned "bash" 7%nat] |}.

(* ===================================================================== *)
(** * Properties *)
(* ===================================================================== *)

(** ** The interpreter and the combinators *)

Section ExecLaws.

Variable env : Env.
Variable me : TaskId.


Lemma exec_bind {A B : Type} (p : Prog A) (f : A -> Prog B) (st : St) :
  exec env me (bind p f) st
  = andThen (exec env me p st) (fun a st' => exec env me (f a) st').
Proof.
  revert st.
  induction p as [a|e|k IH|t k IH|s ev k IH|c k IH|k IH|key k IH|key k IH];
    intros st; simpl; auto.
  destruct (grantable key me (enqueue key me st)); auto.
Qed.

Lemma exec_tryCatch {A : Type} (p : Prog A) (h : Error -> Prog A) (st : St) :
  exec env me (tryCatch p h) st
  = match exec env me p st with
    | (Thrown e, st') => exec env me (h e) st'
    | r => r
    end.
Proof.
  revert st.
  induction p as [a|e|k IH|t k IH|s ev k IH|c k IH|k IH|key k IH|key k IH];
    intros st; simpl; auto.
  destruct (grantable key me (enqueue key me st)); auto.
Qed.

Lemma exec_finally {A : Type} (p : Prog A) (cleanup : Prog unit) (st : St) :
  exec env me (finally p cleanup) st
  = match exec env me p st with
    | (Returned a, st') =>
        andThen (exec env me cleanup st') (fun _ st'' => (Returned a, st''))
    | (Thrown e, st') =>
        andThen (exec env me cleanup st') (fun _ st'' => (Thrown e, st''))
    | (Blocked, st') => (Blocked, st')
    end.
Proof.
  revert st.
  induction p as [a|e|k IH|t k IH|s ev k IH|c k IH|k IH|key k IH|key k IH];
    intros st; simpl; auto.
  - rewrite exec_bind. destruct (exec env me cleanup st) as [[u|e|] st']; reflexivity.
  - rewrite exec_bind. destruct (exec env me cleanup st) as [[u|e'|] st']; reflexivity.
  - destruct (grantable key me (enqueue key me st)); auto.
Qed.

(** [await] changes nothing in a call that runs on its own. *)
Lemma exec_await {A : Type} (p : Prog A) (st : St) :
  exec env me (await p) st = exec env me p st.
Proof.
  unfold await. rewrite exec_finally.
  destruct (exec env me p st) as [[a|e|] st']; reflexivity.
Qed.

Lemma exec_call (c : Call) (st : St) :
  exec env me (call c) st
  = (match respond env (st_trace st) c with
     | Ok a => Returned a
     | Err e => Thrown e
     end,
     log (Called c (respond env (st_trace st) c)) st).
Proof.
  unfold call. simpl. destruct (respond env (st_trace st) c); reflexivity.
Qed.

Lemma exec_assign (f : Project -> Project) (st : St) :
  exec env me (assign f) st = (Returned tt, set_this (f (st_this st)) st).
Proof. reflexivity. Qed.

Lemma exec_getThis (st : St) : exec env me getThis st = (Returned (st_this st), st).
Proof. reflexivity. Qed.

End ExecLaws.

(** One step of symbolic execution. *)
Ltac step :=
  first [ rewrite exec_bind | rewrite exec_getThis | rewrite exec_assign
        | rewrite exec_await | rewrite exec_tryCatch
        | match goal with
          | |- context [@exec ?e ?m ?A (call ?c) ?s] =>
              change (@exec e m A (call c) s) with (@exec e m (Reply c) (call c) s);
              rewrite exec_call
          end
        | progress cbn [andThen] ].

(** ** The port extractor *)

Lemma afterPrefix_Some (p s r : string) :
  afterPrefix p s = Some r <-> s = p ++ r.
Proof.
  revert s. induction p as [|a p IH]; intros s; simpl.
  - split; [intros [= ->]; reflexivity | intros ->; reflexivity].
  - destruct s as [|b s]; [split; discriminate|].
    destruct (Ascii.eqb_spec a b) as [->|Hne].
    + rewrite IH. split; [intros ->; reflexivity | intros [= ->]; reflexivity].
    + split; [discriminate | intros [= <- _]; contradiction].
Qed.

Lemma takeDigits_nonempty (s : string) :
  takeDigits s <> EmptyString <-> exists d rest, isDigit d = true /\ s = String d rest.
Proof.
  destruct s as [|c r]; simpl.
  - split; [congruence | intros (d & rest & _ & H); discriminate].
  - destruct (isDigit c) eqn:E.
    + split; [intros _; exists c, r; auto | discriminate].
    + split; [congruence | intros (d & rest & Hd & [= <- <-]); congruence].
Qed.

Lemma matchLocalhostHere_Some (s : string) :
  (exists d, matchLocalhostHere s = Some d)
  <-> exists d rest, isDigit d = true /\ s = localhostPrefix ++ String d rest.
Proof.
  unfold matchLocalhostHere.
  destruct (afterPrefix localhostPrefix s) as [r|] eqn:E.
  - apply afterPrefix_Some in E. subst s.
    pose proof (takeDigits_nonempty r) as Hd.
    destruct (takeDigits r) as [|c u].
    + split; [intros [d [=]]|].
      intros (d & rest & Hdig & Heq).
      assert (r = String d rest) as ->.
      { assert (Some r = Some (String d rest)) as [= ->]; [|reflexivity].
        rewrite <- (proj2 (afterPrefix_Some localhostPrefix _ r) eq_refl).
        rewrite Heq. apply afterPrefix_Some. reflexivity. }
      exfalso. destruct Hd as [_ Hd]. apply Hd; eauto.
    + split; [intros _|eauto].
      destruct Hd as [Hd _]. destruct Hd as (d & rest & Hdig & ->); [discriminate|].
      eauto.
  - split; [intros [d [=]]|].
    intros (d & rest & _ & ->).
    assert (afterPrefix localhostPrefix (localhostPrefix ++ String d rest)
            = Some (String d rest)) by (apply afterPrefix_Some; reflexivity).
    congruence.
Qed.

Lemma matchLocalhost_Some (s : string) :
  (exists d, matchLocalhost s = Some d) <-> hasLocalhostUrl s.
Proof.
  unfold hasLocalhostUrl. induction s as [|c s IH].
  - simpl. split; [intros [d [=]]|].
    intros (pre & d & rest & _ & H). destruct pre; discriminate.
  - cbn [matchLocalhost].
    destruct (matchLocalhostHere (String c s)) as [d|] eqn:E.
    + split; [intros _|eauto].
      destruct (proj1 (matchLocalhostHere_Some (String c s))) as (d' & rest & Hd & Heq);
        [eauto|].
      exists EmptyString, d', rest. split; [exact Hd|exact Heq].
    + rewrite IH. split.
      * intros (pre & d & rest & Hd & ->). exists (String c pre), d, rest. auto.
      * intros (pre & d & rest & Hd & Heq). destruct pre as [|c' pre].
        -- exfalso.
           destruct (proj2 (matchLocalhostHere_Some (String c s))) as [x Hx];
             [exists d, rest; auto|]. congruence.
        -- injection Heq as -> ->. eauto.
Qed.

Lemma matchLocalhost_None (s : string) :
  matchLocalhost s = None <-> ~ hasLocalhostUrl s.
Proof.
  rewrite <- matchLocalhost_Some.
  destruct (matchLocalhost s) as [d|].
  - split; [discriminate|]. intros H. exfalso. apply H. eauto.
  - split; [intros _ [d [=]] | reflexivity].
Qed.

Lemma extractPortNumber_None (s : string) :
  extractPortNumber s = None <-> ~ hasLocalhostUrl (stripAnsi s).
Proof.
  unfold extractPortNumber. rewrite <- matchLocalhost_None.
  destruct (matchLocalhost (stripAnsi s)); split; congruence.
Qed.

(** No escape character: nothing to strip. *)
Lemma stripAnsi_no_escape (s : string) : hasEscape s = false -> stripAnsi s = s.
Proof.
  induction s as [|c r IH]; intros H; simp stripAnsi; [reflexivity|].
  simpl in H. apply orb_false_iff in H as [Hc Hr].
  assert (Hm : matchSgr (String c r) = None).
  { simpl. destruct r; [reflexivity|]. rewrite Hc. reflexivity. }
  destruct (inspect (matchSgr (String c r))) as [[r'|] e]; simpl.
  - congruence.
  - f_equal. apply IH. exact Hr.
Qed.

(** The general unfolding of the replacement. *)
Lemma stripAnsi_cons (c : ascii) (r : string) :
  stripAnsi (String c r)
  = match matchSgr (String c r) with
    | Some r' => stripAnsi r'
    | None => String c (stripAnsi r)
    end.
Proof.
  simp stripAnsi.
  destruct (inspect (matchSgr (String c r))) as [[r'|] e];
    cbn -[matchSgr stripAnsi]; rewrite e; reflexivity.
Qed.


Lemma takeDigits_idem (s : string) : takeDigits (takeDigits s) = takeDigits s.
Proof.
  induction s as [|c r IH]; simpl; [reflexivity|].
  destruct (isDigit c) eqn:E; simpl; [rewrite E, IH|]; reflexivity.
Qed.

(** Group 1 of the match is a non-empty run of digits. *)
Lemma matchLocalhost_digits (s d : string) :
  matchLocalhost s = Some d -> takeDigits d = d /\ d <> EmptyString.
Proof.
  induction s as [|c s IH]; cbn [matchLocalhost].
  - unfold matchLocalhostHere. simpl. discriminate.
  - destruct (matchLocalhostHere (String c s)) as [d'|] eqn:E; [|exact IH].
    intros [= ->]. unfold matchLocalhostHere in E.
    destruct (afterPrefix localhostPrefix (String c s)) as [r|]; [|discriminate].
    pose proof (takeDigits_idem r) as Hi.
    destruct (takeDigits r) as [|x u]; [discriminate|].
    injection E as <-. split; [exact Hi|discriminate].
Qed.

(** ** The mutex in a call that runs on its own *)

Lemma lockOf_set_lock (key : string) (l : Lock) (st : St) :
  lockOf (set_lock key l st) key = l.
Proof. unfold lockOf, set_lock; simpl. by rewrite lookup_insert_eq. Qed.

Lemma lockOf_set_lock_ne (key key' : string) (l : Lock) (st : St) :
  key ≠ key' -> lockOf (set_lock key l st) key' = lockOf st key'.
Proof. intros H. unfold lockOf, set_lock; simpl. by rewrite lookup_insert_ne. Qed.

Lemma lockOf_set_this (key : string) (t : Project) (st : St) :
  lockOf (set_this t st) key = lockOf st key.
Proof. reflexivity. Qed.

Lemma lockOf_log (key : string) (e : Event) (st : St) :
  lockOf (log e st) key = lockOf st key.
Proof. reflexivity. Qed.


Lemma grantable_enqueue_free (key : string) (me : TaskId) (st : St) :
  lockOf st key = freeLock -> grantable key me (enqueue key me st) = true.
Proof.
  intros H. unfold grantable, enqueue. rewrite !lockOf_set_lock, H. simpl.
  apply Nat.eqb_refl.
Qed.

Lemma lockOf_locked (key : string) (me : TaskId) (st : St) :
  lockOf st key = freeLock ->
  lockOf (locked key me st) key = {| holder := Some me; waiters := [] |}.
Proof.
  intros H. unfold locked, grant, enqueue. rewrite !lockOf_set_lock, H. reflexivity.
Qed.

Lemma st_this_locked (key : string) (me : TaskId) (st : St) :
  st_this (locked key me st) = st_this st.
Proof. reflexivity. Qed.

Lemma st_trace_locked (key : string) (me : TaskId) (st : St) :
  st_trace (locked key me st) = st_trace st.
Proof. reflexivity. Qed.

Lemma lockOf_release (key : string) (st : St) :
  lockOf (release key st) key = {| holder := None; waiters := waiters (lockOf st key) |}.
Proof. unfold release. apply lockOf_set_lock. Qed.


Lemma lockless_bind {A B : Type} (p : Prog A) (f : A -> Prog B) :
  lockless p -> (forall a, lockless (f a)) -> lockless (bind p f).
Proof.
  intros Hp Hf.
  induction p as [a|e|k IH|t k IH|s ev k IH|c k IH|k IH|key k IH|key k IH];
    simpl in *; auto; contradiction.
Qed.

Lemma lockless_tryCatch {A : Type} (p : Prog A) (h : Error -> Prog A) :
  lockless p -> (forall e, lockless (h e)) -> lockless (tryCatch p h).
Proof.
  intros Hp Hh.
  induction p as [a|e|k IH|t k IH|s ev k IH|c k IH|k IH|key k IH|key k IH];
    simpl in *; auto; contradiction.
Qed.

Lemma lockless_finally {A : Type} (p : Prog A) (cleanup : Prog unit) :
  lockless p -> lockless cleanup -> lockless (finally p cleanup).
Proof.
  intros Hp Hc.
  induction p as [a|e|k IH|t k IH|s ev k IH|c k IH|k IH|key k IH|key k IH];
    simpl in *; auto; try contradiction;
    apply lockless_bind; simpl; auto.
Qed.

Lemma lockless_call (c : Call) : lockless (call c).
Proof. intros [a|e]; exact I. Qed.

Lemma lockless_assign (f : Project -> Project) : lockless (assign f).
Proof. intros t; exact I. Qed.

Lemma lockless_forEach {A : Type} (l : list A) (f : A -> Prog unit) :
  (forall x, lockless (f x)) -> lockless (forEach l f).
Proof.
  intros Hf. induction l as [|x l IH]; simpl; [exact I|].
  apply lockless_bind; auto.
Qed.

Create HintDb lockless.
#[export] Hint Resolve lockless_call lockless_assign : lockless.

(** A program that never touches the mutex runs to its end, leaves the
    mutex as it is, and only adds to the trace. *)
Lemma exec_lockless (env : Env) (me : TaskId) {A : Type} (p : Prog A) (st : St) :
  lockless p ->
  fst (exec env me p st) <> Blocked
  /\ st_locks (snd (exec env me p st)) = st_locks st.
Proof.
  revert st.
  induction p as [a|e|k IH|t k IH|s ev k IH|c k IH|k IH|key k IH|key k IH];
    intros st Hp; simpl in *; try contradiction; try (split; [discriminate|reflexivity]).
  - apply IH, Hp.
  - destruct (IH (set_this t st) Hp) as [H1 H2]. split; [exact H1|exact H2].
  - destruct (IH (log (Emitted s ev) st) Hp) as [H1 H2]. split; [exact H1|exact H2].
  - destruct (IH (respond env (st_trace st) c)
                (log (Called c (respond env (st_trace st) c)) st) (Hp _)) as [H1 H2].
    split; [exact H1|exact H2].
  - apply IH, Hp.
Qed.

Lemma exec_trace_grows (env : Env) (me : TaskId) {A : Type} (p : Prog A) (st : St) :
  exists new, st_trace (snd (exec env me p st)) = (st_trace st ++ new)%list.
Proof.
  revert st.
  induction p as [a|e|k IH|t k IH|s ev k IH|c k IH|k IH|key k IH|key k IH];
    intros st; simpl.
  - exists []. by rewrite app_nil_r.
  - exists []. by rewrite app_nil_r.
  - apply IH.
  - destruct (IH (set_this t st)) as [new H]. exists new. exact H.
  - destruct (IH (log (Emitted s ev) st)) as [new H]. exists (Emitted s ev :: new).
    rewrite H. simpl. by rewrite <- app_assoc.
  - destruct (IH (respond env (st_trace st) c)
                (log (Called c (respond env (st_trace st) c)) st)) as [new H].
    eexists (_ :: new). rewrite H. simpl. by rewrite <- app_assoc.
  - apply IH.
  - destruct (grantable key me (enqueue key me st)).
    + destruct (IH (grant key me (enqueue key me st))) as [new H]. exists new. exact H.
    + exists []. simpl. by rewrite app_nil_r.
  - destruct (IH (release key st)) as [new H]. exists new. exact H.
Qed.

Section SequentialRuns.

Variable T : Z.
Variable getHost : Container -> number -> string.
Variable env : Env.
Variable me : TaskId.

Lemma exec_acquireLock_free {A : Type} (key : string) (cs : Prog A) (st : St) :
  lockOf st key = freeLock ->
  exec env me (acquireLock key cs) st
  = match exec env me cs (locked key me st) with
    | (Returned a, st') => (Returned a, release key st')
    | (Thrown e, st') => (Thrown e, release key st')
    | (Blocked, st') => (Blocked, st')
    end.
Proof.
  intros H. unfold acquireLock. cbn [exec].
  rewrite grantable_enqueue_free by exact H.
  rewrite exec_finally. fold (locked key me st).
  destruct (exec env me cs (locked key me st)) as [[a|e|] st']; reflexivity.
Qed.

(** *** [initialize], piece by piece *)

Lemma exec_connectExisting (st : St) :
  exec env me (connectExisting T) st
  = match containerId (st_this st) with
    | Some id =>
        if truthyString (Some id) then
          let connect := Container_connect id (sandboxOpts T) in
          match respond env (st_trace st) connect with
          | Ok c =>
              (Returned tt,
               set_this (with_container (Some c) (st_this st))
                 (log (Called connect (Ok c)) st))
          | Err e => (Thrown e, log (Called connect (Err e)) st)
          end
        else (Returned tt, st)
    | None => (Returned tt, st)
    end.
Proof.
  unfold connectExisting. cbn [exec bind getThis].
  destruct (containerId (st_this st)) as [id|]; [|reflexivity].
  destruct (truthyString (Some id)); [|reflexivity].
  cbn. destruct (respond env (st_trace st) _); reflexivity.
Qed.

Lemma exec_needsNewContainer (st : St) :
  exec env me needsNewContainer st
  = match container (st_this st) with
    | None => (Returned true, st)
    | Some c =>
        match respond env (st_trace st) (Container_isRunning c) with
        | Ok running =>
            (Returned (negb running),
             log (Called (Container_isRunning c) (Ok running)) st)
        | Err e => (Thrown e, log (Called (Container_isRunning c) (Err e)) st)
        end
    end.
Proof.
  unfold needsNewContainer. cbn [exec bind getThis].
  destruct (container (st_this st)) as [c|]; [|reflexivity].
  cbn. destruct (respond env (st_trace st) _); reflexivity.
Qed.

Lemma exec_createContainer (st : St) :
  exec env me (createContainer T) st
  = let create := Container_create (templateOf (type (st_this st))) (sandboxOpts T) in
    match respond env (st_trace st) create with
    | Err e => (Thrown e, log (Called create (Err e)) st)
    | Ok c =>
        let this' :=
          with_containerId (Some (sandboxId c))
            (with_container (Some c) (st_this st)) in
        let write := Db_setContainerId (projectId (st_this st)) (Some (sandboxId c)) in
        let st1 := set_this this' (log (Called create (Ok c)) st) in
        let r := respond env (st_trace st1) write in
        (match r with Ok _ => Returned tt | Err e => Thrown e end,
         log (Called write r) st1)
    end.
Proof.
  unfold createContainer, createFrom. cbn [exec bind getThis].
  cbn. destruct (respond env (st_trace st) _) as [c|e]; [|reflexivity].
  cbn.
  match goal with
  | |- context [respond env ?t ?c] => destruct (respond env t c) as [[]|e']
  end; reflexivity.
Qed.

Lemma exec_initializeCritical (st : St) :
  exec env me (initializeCritical T) st
  = andThen (exec env me (connectExisting T) st) (fun _ st1 =>
    andThen (exec env me needsNewContainer st1) (fun needed st2 =>
      if needed : bool then exec env me (createContainer T) st2
      else (Returned tt, st2))).
Proof.
  unfold initializeCritical. rewrite exec_bind.
  destruct (exec env me (connectExisting T) st) as [[[]|e|] st1];
    cbn [andThen]; try reflexivity.
  rewrite exec_bind.
  destruct (exec env me needsNewContainer st1) as [[[]|e|] st2]; reflexivity.
Qed.

Lemma lockless_initializeCritical : lockless (initializeCritical T).
Proof.
  unfold initializeCritical, connectExisting, needsNewContainer, createContainer,
    createFrom.
  repeat first
    [ exact I | intros ? | apply lockless_bind
    | match goal with
      | |- lockless (match ?x with _ => _ end) => destruct x
      | |- lockless (if ?x then _ else _) => destruct x
      end
    | progress simpl ].
Qed.

Lemma exec_initializeManagers (st : St) :
  exec env me initializeManagers st
  = match container (st_this st) with
    | None => (Thrown "Failed to create container", st)
    | Some c =>
        let this1 :=
          match terminalManager (st_this st) with
          | None => with_terminalManager (Some (newTerminalManager c)) (st_this st)
          | Some _ => st_this st
          end in
        let this2 :=
          match fileManager this1 with
          | None => with_fileManager (Some (newFileManager c)) this1
          | Some _ => this1
          end in
        (Returned tt, set_this this2 st)
    end.
Proof.
  unfold initializeManagers. cbn [exec bind getThis].
  destruct st as [[pid ty fm tm c cid] tr locks]; cbn.
  destruct c as [c|]; [|reflexivity].
  destruct tm, fm; reflexivity.
Qed.

Lemma exec_initialize (st : St) :
  lockOf st (projectId (st_this st)) = freeLock ->
  exec env me (initialize T) st
  = let key := projectId (st_this st) in
    match exec env me (initializeCritical T) (locked key me st) with
    | (Returned _, st1) => exec env me initializeManagers (release key st1)
    | (Thrown e, st1) => (Thrown e, release key st1)
    | (Blocked, st1) => (Blocked, st1)
    end.
Proof.
  intros H. unfold initialize. cbn [exec bind getThis].
  rewrite exec_bind, exec_await, exec_acquireLock_free by exact H.
  cbv zeta.
  destruct (exec env me (initializeCritical T) _) as [[[]|e|] st1]; reflexivity.
Qed.

(** *** Reconciliation *)

Lemma exec_critical_needs (st : St) (this1 : Project) (tr1 : list Event) :
  NeedsNewSandbox T env (st_this st) (st_trace st) this1 tr1 ->
  exec env me (initializeCritical T) st
  = exec env me (createContainer T)
      {| st_this := this1; st_trace := tr1; st_locks := st_locks st |}.
Proof.
  intros H. rewrite exec_initializeCritical, exec_connectExisting.
  destruct st as [this tr locks]; cbn [st_this st_trace st_locks] in *.
  inversion H as [Hid Hc | c Hid Hc Hr | id c Hid Ht Hconn Hr]; subst.
  - destruct (containerId this1) as [id|]; [rewrite Hid|];
      cbn [andThen]; rewrite exec_needsNewContainer;
      cbn [st_this st_trace]; rewrite Hc; reflexivity.
  - destruct (containerId this1) as [id|]; [rewrite Hid|];
      cbn [andThen]; rewrite exec_needsNewContainer;
      cbn [st_this st_trace]; rewrite Hc, Hr; reflexivity.
  - rewrite Hid, Ht. cbv zeta. rewrite Hconn. cbn [andThen].
    rewrite exec_needsNewContainer.
    cbn [st_this st_trace set_this log container with_container Reply] in *.
    rewrite Hr. cbn [andThen negb]. unfold log, set_this.
    cbn [st_this st_trace st_locks]. rewrite <- app_assoc. reflexivity.
Qed.

Lemma templateOf_spec (ty : string) :
  (In ty templateTypes -> templateOf ty = "gitwit-" ++ ty)
  /\ (~ In ty templateTypes -> templateOf ty = "base").
Proof.
  unfold templateOf, includes.
  destruct (existsb (String.eqb ty) templateTypes) eqn:E.
  - split; [reflexivity|]. intros Hn. exfalso. apply Hn.
    apply existsb_exists in E as (x & Hx & Heq).
    apply String.eqb_eq in Heq. by subst.
  - split; [|reflexivity]. intros Hin. exfalso.
    assert (existsb (String.eqb ty) templateTypes = true) as E'.
    { apply existsb_exists. exists ty. split; [exact Hin|apply String.eqb_refl]. }
    congruence.
Qed.

(** C2, as amended.  When the session has a last-known sandbox id and
    [connect(id)] fails, [initialize()] does not go on to create a sandbox:
    the failure leaves the critical section, the lock is released, and
    [initialize()] throws that failure to its caller.  The connect call is
    the only external call of the run and the project object is left as it
    was. *)
Theorem initialize_connect_failure_propagates (st : St) (id : string) (e : Error) :
  lockOf st (projectId (st_this st)) = freeLock ->
  containerId (st_this st) = Some id ->
  truthyString (Some id) = true ->
  respond env (st_trace st) (Container_connect id (sandboxOpts T)) = Err e ->
  exists st',
    exec env me (initialize T) st = (Thrown e, st')
    /\ st_this st' = st_this st
    /\ st_trace st'
       = (st_trace st ++ [Called (Container_connect id (sandboxOpts T)) (Err e)])%list
    /\ createCalls (st_trace st') = createCalls (st_trace st)
    /\ lockOf st' (projectId (st_this st)) = freeLock.
Proof.
  intros Hfree Hid Htruthy Hfail.
  rewrite exec_initialize by exact Hfree. cbv zeta.
  rewrite exec_initializeCritical, exec_connectExisting.
  rewrite st_this_locked, st_trace_locked, Hid, Htruthy. cbv zeta.
  rewrite Hfail. cbn [andThen].
  eexists. split; [reflexivity|].
  cbn [st_this st_trace release set_lock log].
  repeat split.
  - unfold createCalls. rewrite List.filter_app, length_app. simpl. lia.
  - rewrite lockOf_release, lockOf_log, lockOf_locked by exact Hfree. reflexivity.
Qed.

(** C3, as amended.  In a run of [initialize()] that finds no handle, or
    whose kept or connected handle reports not-running, the next external
    call is the creation call, made with the template of the project type:
    [gitwit-<type>] when the type is one of [vanillajs], [reactjs],
    [nextjs], [streamlit], [php], and [base] for any other type; up to
    then nothing was written to the store.  When the creation succeeds,
    the run ends with exactly two more calls, the creation and then one
    write of the new id to the store; the handle and the last-known id of
    the session are those of the new sandbox, whatever id was known
    before, also when the write fails, which [initialize()] then throws.
    When the creation fails, [initialize()] throws that failure, the
    creation call is the last call of the run, nothing is written to the
    store and the last-known id is the one from before the run. *)
Theorem initialize_creates_and_persists (st : St) (this1 : Project)
    (tr1 : list Event) :
  let key := projectId (st_this st) in
  let ty := type (st_this st) in
  let create := Container_create (templateOf ty) (sandboxOpts T) in
  lockOf st key = freeLock ->
  NeedsNewSandbox T env (st_this st) (st_trace st) this1 tr1 ->
  (ty = "vanillajs" \/ ty = "reactjs" \/ ty = "nextjs" \/ ty = "streamlit" \/ ty = "php" ->
   templateOf ty = "gitwit-" ++ ty)
  /\ (ty <> "vanillajs" -> ty <> "reactjs" -> ty <> "nextjs" -> ty <> "streamlit" ->
      ty <> "php" -> templateOf ty = "base")
  /\ (exists pre, tr1 = (st_trace st ++ pre)%list
                  /\ List.filter isDbWrite pre = []
                  /\ List.filter isCreateCall pre = [])
  /\ (forall c : Container,
        respond env tr1 create = Ok c ->
        let write := Db_setContainerId key (Some (sandboxId c)) in
        let persisted := respond env (tr1 ++ [Called create (Ok c)]) write in
        exists st',
          exec env me (initialize T) st
          = (match persisted with Ok _ => Returned tt | Err e => Thrown e end, st')
          /\ st_trace st' = (tr1 ++ [Called create (Ok c); Called write persisted])%list
          /\ container (st_this st') = Some c
          /\ containerId (st_this st') = Some (sandboxId c))
  /\ (forall e : Error,
        respond env tr1 create = Err e ->
        exists st',
          exec env me (initialize T) st = (Thrown e, st')
          /\ st_trace st' = (tr1 ++ [Called create (Err e)])%list
          /\ container (st_this st') = container this1
          /\ containerId (st_this st') = containerId (st_this st)).
Proof.
  intros key ty create Hfree Hneeds.
  subst key ty create.
  assert (Hthis1 : projectId this1 = projectId (st_this st)
                   /\ type this1 = type (st_this st)
                   /\ containerId this1 = containerId (st_this st)).
  { inversion Hneeds; subst; repeat split; reflexivity. }
  destruct Hthis1 as (Hpid & Hty & Hcid).
  split; [|split; [|split; [|split]]].
  - unfold templateOf, includes, templateTypes.
    intros [->|[->|[->|[->| ->]]]]; reflexivity.
  - intros H1 H2 H3 H4 H5.
    destruct (templateOf_spec (type (st_this st))) as [_ Hout]. apply Hout.
    unfold templateTypes. cbn [In]. intros [H|[H|[H|[H|[H|[]]]]]]; congruence.
  - inversion Hneeds; subst.
    + exists []. by rewrite app_nil_r.
    + eexists; split; [reflexivity|split; reflexivity].
    + eexists; split; [reflexivity|split; reflexivity].
  - intros c Hcreate write persisted. subst write.
    rewrite exec_initialize by exact Hfree. cbv zeta.
    rewrite (exec_critical_needs _ this1 tr1)
      by (rewrite st_this_locked, st_trace_locked; exact Hneeds).
    rewrite exec_createContainer. cbn [st_this st_trace]. rewrite Hty.
    rewrite Hcreate. cbv zeta. cbn [st_this st_trace set_this log Reply] in *.
    rewrite Hpid. fold persisted.
    destruct persisted as [[]|e].
    + rewrite exec_initializeManagers.
      cbn [st_this release set_lock log set_this container with_containerId with_container].
      eexists. split; [reflexivity|].
      cbn [st_this st_trace set_this log release set_lock]. rewrite <- app_assoc.
      destruct this1 as [pid1 ty1 [fm1|] [tm1|] c1 cid1]; cbn; repeat split; auto.
    + eexists. split; [reflexivity|].
      cbn [st_this st_trace set_this log release set_lock]. rewrite <- app_assoc.
      repeat split; auto.
  - intros e Hcreate.
    rewrite exec_initialize by exact Hfree. cbv zeta.
    rewrite (exec_critical_needs _ this1 tr1)
      by (rewrite st_this_locked, st_trace_locked; exact Hneeds).
    rewrite exec_createContainer. cbn [st_this st_trace]. rewrite Hty.
    rewrite Hcreate.
    eexists. split; [reflexivity|].
    cbn [st_this st_trace set_this log release set_lock].
    repeat split; auto.
Qed.

(** Case analysis of a run of [initialize], along the answers of the
    outside world. *)
Ltac crunch H :=
  repeat first
    [ progress cbn [andThen negb st_this st_trace st_locks set_this log Reply
                    locked grant enqueue set_lock container with_container
                    with_containerId] in H
    | rewrite exec_needsNewContainer in H
    | rewrite exec_createContainer in H
    | rewrite exec_initializeManagers in H
    | progress cbv zeta in H
    | match type of H with
      | context [negb ?b] => is_var b; destruct b
      | context [match respond ?e ?t ?c with _ => _ end] =>
          let r := fresh "r" in
          let E := fresh "E" in
          destruct (respond e t c) as [r|r] eqn:E
      | context [match containerId ?p with _ => _ end] =>
          let E := fresh "E" in destruct (containerId p) eqn:E
      | context [if truthyString ?p then _ else _] =>
          let E := fresh "E" in destruct (truthyString p) eqn:E
      | context [match container ?p with _ => _ end] =>
          let E := fresh "E" in destruct (container p) eqn:E
      end ].

(** The failed call that ends a list of events, and the events before it. *)
Ltac lastCall l :=
  lazymatch l with
  | [Called ?c (Err ?e)] => constr:((c, e))
  | (_ ++ ?l')%list => lastCall l'
  | _ :: ?l' => lastCall l'
  end.

Ltac initOf l :=
  lazymatch l with
  | [Called _ (Err _)] => constr:(@nil Event)
  | ([?a] ++ ?l')%list => let r := initOf l' in constr:(a :: r)
  | ?a :: ?l' => let r := initOf l' in constr:(a :: r)
  end.

(** C4, as amended.  A run of [initialize()] in which no handle is validated by
    [isRunning] and no sandbox is created ends with an exception thrown to
    the caller, and the exception is the failure of the external call that
    failed: the last external call of the run failed with the error [e],
    no call before it failed, and [initialize()] throws that same [e] (so
    never the error of line 101 in its place).  The terminal multiplexer
    and the file adapter are as before the run (absent if they were
    absent), the last-known id is unchanged, no sandbox was created, the
    handle is the one from before or the one [connect] returned, and the
    lock is free again. *)
Theorem initialize_fails_without_handle (st st' : St) (o : Outcome unit)
    (new : list Event) :
  let key := projectId (st_this st) in
  lockOf st key = freeLock ->
  exec env me (initialize T) st = (o, st') ->
  st_trace st' = (st_trace st ++ new)%list ->
  forallb (fun e => negb (yieldsRunningHandle e)) new = true ->
  (exists (pre : list Event) (c : Call) (e : Error),
      new = (pre ++ [Called c (Err e)])%list
      /\ forallb (fun ev => negb (isFailure ev)) pre = true
      /\ o = Thrown e)
  /\ terminalManager (st_this st') = terminalManager (st_this st)
  /\ fileManager (st_this st') = fileManager (st_this st)
  /\ containerId (st_this st') = containerId (st_this st)
  /\ (container (st_this st') = container (st_this st)
      \/ exists id c, In (Called (Container_connect id (sandboxOpts T)) (Ok c)) new
                      /\ container (st_this st') = Some c)
  /\ createdIds new = []
  /\ lockOf st' key = freeLock.
Proof.
  intros key Hfree Hexec Htrace Hnone. subst key.
  rewrite exec_initialize in Hexec by exact Hfree. cbv zeta in Hexec.
  pose proof (lockOf_locked _ me _ Hfree) as Hlocked.
  rewrite exec_initializeCritical, exec_connectExisting in Hexec.
  rewrite st_this_locked, st_trace_locked in Hexec.
  set (key := projectId (st_this st)) in *.
  destruct st as [this tr locks].
  cbn [st_this st_trace] in *.
  crunch Hexec.
  all: injection Hexec as <- <-.
  all: cbn [st_this st_trace st_locks set_this log release set_lock locked
            grant enqueue] in Htrace.
  all: repeat rewrite <- app_assoc in Htrace.
  all: try apply app_inv_head in Htrace.
  all: try (rewrite <- (app_nil_r tr) in Htrace at 1; apply app_inv_head in Htrace).
  all: subst new.
  all: try discriminate Hnone.
  all: split;
         [match type of Hnone with
          | forallb _ ?l = true =>
              let p := initOf l in
              match lastCall l with (?c, ?e) => exists p, c, e end
          end; repeat split|].
  all: cbn [st_this release set_lock log set_this locked grant enqueue
            terminalManager fileManager containerId container
            with_container with_containerId].
  all: repeat (split; [first [reflexivity | assumption | symmetry; assumption
                             | left; reflexivity | left; assumption
                             | right; do 2 eexists; split; [|reflexivity];
                               cbn; auto ]|]).
  all: rewrite lockOf_release;
       repeat (rewrite lockOf_log || rewrite lockOf_set_this);
       rewrite Hlocked; reflexivity.
Qed.

(** *** Heartbeat and disconnect *)

(** C6.  A heartbeat of a connection that is not the owner returns [true]
    and makes no call: the state, trace included, is untouched.  A
    heartbeat of the owner on a session that has a handle makes the one
    call that extends the timeout and returns [true] when it succeeds and
    [false] when it fails; it throws in neither case. *)
Theorem handleHeartbeat_owner_gated (connection : Connection) (st : St) :
  (isOwner connection = false ->
     exec env me (handleHeartbeat T connection) st = (Returned true, st))
  /\ (forall c, isOwner connection = true -> container (st_this st) = Some c ->
      let extend := Container_setTimeout c T in
      forall r, respond env (st_trace st) extend = r ->
      exec env me (handleHeartbeat T connection) st
      = (Returned (match r with Ok _ => true | Err _ => false end),
         log (Called extend r) st)).
Proof.
  split.
  - intros H. unfold handleHeartbeat. rewrite H. reflexivity.
  - intros c Hown Hc extend r Hr. subst extend.
    unfold handleHeartbeat. rewrite Hown.
    repeat step. rewrite Hc. repeat step. cbn [Reply] in *. rewrite Hr.
    destruct r as [[]|e]; reflexivity.
Qed.

(** C10.  A heartbeat of the owner on a session whose sandbox handle is
    null returns [true] and makes no call: the state, trace included, is
    untouched. *)
Theorem handleHeartbeat_without_handle (connection : Connection) (st : St) :
  isOwner connection = true ->
  container (st_this st) = None ->
  exec env me (handleHeartbeat T connection) st = (Returned true, st).
Proof.
  intros Hown Hc. unfold handleHeartbeat. rewrite Hown.
  repeat step. rewrite Hc. reflexivity.
Qed.


Lemma exec_forEach_kill_ok (l : list (string * Terminal)) (st : St) :
  (forall tr pid, respond env tr (Pty_kill pid) = Ok tt) ->
  exec env me (forEach l (fun '(_, t) => call (Pty_kill (term_pid t)))) st
  = (Returned tt,
     {| st_this := st_this st;
        st_trace := st_trace st
                    ++ map (fun '(_, t) => Called (Pty_kill (term_pid t)) (Ok tt)) l;
        st_locks := st_locks st |}).
Proof.
  intros Hok. revert st. induction l as [|[id t] l IH]; intros st.
  - cbn. rewrite app_nil_r. destruct st; reflexivity.
  - cbn [forEach]. repeat step. rewrite Hok. cbn [andThen].
    rewrite IH. cbn. rewrite <- app_assoc. reflexivity.
Qed.



(** *** Terminals *)

Lemma exec_onTerminalOutput (cb : OutputCallback) (chunk : string) (st : St) :
  exec env me (onTerminalOutput getHost cb chunk) st
  = (Returned tt,
     {| st_this := st_this st;
        st_trace := st_trace st ++ outputEvents getHost (st_this st) cb chunk;
        st_locks := st_locks st |}).
Proof.
  unfold onTerminalOutput, outputEvents. cbn [exec bind emit].
  destruct (extractPortNumber chunk) as [port|]; [|reflexivity].
  destruct (truthyNumber (Some port)); [|reflexivity].
  cbn. unfold log. cbn. rewrite <- app_assoc. reflexivity.
Qed.

(** C5, as amended.  On the example output the extracted port is 3001 and,
    the session having a handle, the callback pushes the [previewURL] built
    from the handle's host for that port, after the [terminalResponse].
    On any input whose text, once the ANSI escapes are stripped, contains
    no [http://localhost:] followed by a digit, no port is extracted and
    the callback pushes the [terminalResponse] only.  On every input the
    callback returns without throwing. *)
Theorem extractPortNumber_preview :
  extractPortNumber serverRunning = Some (Num 3001)
  /\ (forall cb c st, container (st_this st) = Some c ->
        exec env me (onTerminalOutput getHost cb serverRunning) st
        = (Returned tt,
           log (Emitted (cb_socket cb) (previewURL ("https://" ++ getHost c (Num 3001))))
             (log (Emitted (cb_socket cb)
                     (terminalResponse (Some (cb_id cb)) (Text serverRunning))) st)))
  /\ (forall s, ~ hasLocalhostUrl (stripAnsi s) ->
        extractPortNumber s = None
        /\ forall cb st,
             exec env me (onTerminalOutput getHost cb s) st
             = (Returned tt,
                log (Emitted (cb_socket cb)
                       (terminalResponse (Some (cb_id cb)) (Text s))) st))
  /\ (forall s cb st, fst (exec env me (onTerminalOutput getHost cb s) st) = Returned tt).
Proof.
  assert (Hex : extractPortNumber serverRunning = Some (Num 3001)) by (vm_compute; reflexivity).
  split; [exact Hex|]. split; [|split].
  - intros cb c st Hc. rewrite exec_onTerminalOutput. unfold outputEvents.
    rewrite Hex, Hc. unfold log. cbn. rewrite <- app_assoc. reflexivity.
  - intros s Hs. apply extractPortNumber_None in Hs. split; [exact Hs|].
    intros cb st. rewrite exec_onTerminalOutput. unfold outputEvents. rewrite Hs.
    reflexivity.
  - intros s cb st. rewrite exec_onTerminalOutput. reflexivity.
Qed.
(** The terminal operations of [Project.ts] on an absent multiplexer or
    an unregistered id: they return and leave the whole state, trace
    included, as it was. *)
Lemma terminal_handlers_noop (st : St) (id data : string) (dimensions : Dimensions) :
  (terminalManager (st_this st) = None ->
     exec env me (handleResizeTerminal dimensions) st = (Returned tt, st)
     /\ exec env me (handleTerminalData id data) st = (Returned tt, st)
     /\ exec env me (handleCloseTerminal id) st = (Returned tt, st))
  /\ (forall m, terminalManager (st_this st) = Some m ->
        tm_terminals m !! id = None ->
        exec env me (handleTerminalData id data) st = (Returned tt, st)
        /\ exec env me (handleCloseTerminal id) st = (Returned tt, st))
  /\ (forall m, terminalManager (st_this st) = Some m ->
        tm_terminals m = ∅ ->
        exec env me (handleResizeTerminal dimensions) st = (Returned tt, st)).
Proof.
  unfold handleResizeTerminal, handleTerminalData, handleCloseTerminal.
  split; [|split].
  - intros H. repeat step. rewrite H. repeat split; reflexivity.
  - intros m H Hid. repeat step. rewrite H.
    unfold TerminalManager_sendTerminalData, TerminalManager_closeTerminal.
    rewrite Hid. split; reflexivity.
  - intros m H Hm. repeat step. rewrite H.
    unfold TerminalManager_resizeTerminal, fireAndForget. rewrite Hm.
    rewrite map_to_list_empty. reflexivity.
Qed.

(** The output of the process registered under [id] reaches the socket
    of its callback as a [terminalResponse] tagged [id], first, followed by
    at most one [previewURL]. *)
Lemma processOutput_tagged (st : St) (m : TerminalManager) (id chunk : string)
    (t : Terminal) :
  terminalManager (st_this st) = Some m ->
  wellTagged m ->
  tm_terminals m !! id = Some t ->
  exists rest,
    exec env me (processOutput getHost id chunk) st
    = (Returned tt,
       {| st_this := st_this st;
          st_trace := st_trace st
            ++ Emitted (cb_socket (term_onOutput t))
                 (terminalResponse (Some id) (Text chunk)) :: rest;
          st_locks := st_locks st |})
    /\ (rest = [] \/ exists url, rest = [Emitted (cb_socket (term_onOutput t)) (previewURL url)]).
Proof.
  intros Hm Hwell Hid. unfold processOutput. repeat step. rewrite Hm, Hid.
  rewrite exec_onTerminalOutput. unfold outputEvents.
  rewrite (Hwell id t Hid).
  eexists. split; [reflexivity|].
  destruct (extractPortNumber chunk) as [port|]; [|left; reflexivity].
  destruct (truthyNumber (Some port)); [right; eexists; reflexivity|left; reflexivity].
Qed.

(** [handleCreateTerminal] registers the session under [id] with a callback
    that tags with [id], and keeps the registry well tagged. *)
Lemma handleCreateTerminal_registers (connection : Connection) (id : string)
    (st : St) (m : TerminalManager) :
  lockOf st (projectId (st_this st)) = freeLock ->
  terminalManager (st_this st) = Some m ->
  wellTagged m ->
  (forall tr pid, respond env tr (Pty_kill pid) = Ok tt) ->
  (forall tr c, exists pid, respond env tr (Pty_create c) = Ok pid) ->
  exists st' m' pid,
    exec env me (handleCreateTerminal connection id) st = (Returned tt, st')
    /\ terminalManager (st_this st') = Some m'
    /\ tm_terminals m' !! id
       = Some {| term_pid := pid;
                 term_onOutput := {| cb_socket := socket connection; cb_id := id |} |}
    /\ (forall id', id' <> id -> tm_terminals m' !! id' = tm_terminals m !! id')
    /\ wellTagged m'.
Proof.
  intros Hfree Hm Hwell Hkill Hspawn.
  unfold handleCreateTerminal. repeat step.
  rewrite exec_acquireLock_free by exact Hfree. repeat step.
  rewrite st_this_locked, Hm.
  unfold TerminalManager_createTerminal. repeat step.
  assert (Hfinish : forall (st1 : St) m1,
    terminalManager (st_this st1) = Some m1 ->
    tm_container m1 = tm_container m ->
    tm_terminals m1 = delete id (tm_terminals m) ->
    exists st' m' pid,
      (let (o, st2) :=
         exec env me
           (let* pid := call (Pty_create (tm_container m)) in
            updateTerminals
              (insert id {| term_pid := pid;
                            term_onOutput := {| cb_socket := socket connection;
                                                cb_id := id |} |})) st1 in
       match o with
       | Returned a => (Returned a, release (projectId (st_this st)) st2)
       | Thrown e => (Thrown e, release (projectId (st_this st)) st2)
       | Blocked => (Blocked, st2)
       end) = (Returned tt, st')
      /\ terminalManager (st_this st') = Some m'
      /\ tm_terminals m' !! id
         = Some {| term_pid := pid;
                   term_onOutput := {| cb_socket := socket connection; cb_id := id |} |}
      /\ (forall id', id' <> id -> tm_terminals m' !! id' = tm_terminals m !! id')
      /\ wellTagged m').
  { intros st1 m1 Hm1 Hc1 Ht1. repeat step.
    destruct (Hspawn (st_trace st1) (tm_container m)) as [pid Hpid].
    cbn [Reply] in *. rewrite Hpid. repeat step.
    unfold updateTerminals. repeat step.
    cbn [st_this set_this log]. rewrite Hm1.
    eexists _, _, pid. split; [reflexivity|].
    cbn [st_this release set_lock set_this terminalManager with_terminalManager].
    split; [reflexivity|]. cbn [tm_terminals].
    split; [apply lookup_insert_eq|]. split.
    - intros id' Hne. rewrite lookup_insert_ne by congruence.
      rewrite Ht1. apply lookup_delete_ne. congruence.
    - intros id' t'. cbn [tm_terminals]. destruct (decide (id' = id)) as [->|Hne].
      + rewrite lookup_insert_eq. intros [= <-]. reflexivity.
      + rewrite lookup_insert_ne by congruence. rewrite Ht1.
        rewrite lookup_delete_ne by congruence. apply Hwell. }
  destruct (tm_terminals m !! id) as [old|] eqn:Hold.
  - match goal with
    | |- context [andThen (exec env me ?p ?s) _] =>
        assert (Hk : exists st1, exec env me p s = (Returned tt, st1)
                      /\ terminalManager (st_this st1)
                         = Some {| tm_container := tm_container m;
                                   tm_terminals := delete id (tm_terminals m) |})
    end.
    { repeat step. rewrite Hkill. repeat step. unfold updateTerminals.
      repeat step. eexists. split; [reflexivity|].
      cbn [st_this set_this log]. rewrite st_this_locked, Hm. reflexivity. }
    destruct Hk as (st1 & -> & Hm1). cbn [andThen].
    apply (Hfinish st1 _ Hm1); reflexivity.
  - cbn [exec andThen].
    apply (Hfinish _ m); [rewrite st_this_locked; exact Hm|reflexivity|].
    symmetry. apply delete_id. exact Hold.
Qed.
End SequentialRuns.
(** * Concurrent calls of [initialize] *)

Section LoopFacts.
Variable T : Z.
Variable key ty : string.
Variable env : Env.

Local Abbreviation afterCritical := (afterCritical key).
Local Abbreviation checkThenCreate := (checkThenCreate T).
Local Abbreviation taskOf := (taskOf T key ty).
Local Abbreviation leave := (leave key).
Local Abbreviation phaseStep := (phaseStep T key ty env).
Local Abbreviation taskStep := (taskStep env).
Local Abbreviation sysOf := (sysOf T key ty).
Local Abbreviation phasesStep := (phasesStep T key ty env).
Local Abbreviation LockInv := (LockInv key ty).
Local Abbreviation AllInv := (AllInv key ty).
Local Abbreviation NothingRunsYet := (NothingRunsYet T env).
Local Abbreviation EverythingRuns := (EverythingRuns T env).
Local Abbreviation followsCreation := (followsCreation T key).
Local Abbreviation OneCreation := (OneCreation T key ty).
Local Abbreviation ShapeInv := (ShapeInv T key ty).

(** ** The phases simulate the event loop *)

Lemma enter_sim (i : TaskId) (st : St) :
  projectId (st_this st) = key -> type (st_this st) = ty ->
  advance i (afterCritical (initializeCritical T)) st
  = (taskOf (fst (enter st)), snd (enter st)).
Proof.
  intros Hk Hty. unfold enter, check.
  unfold afterCritical, initializeCritical, connectExisting.
  cbn [advance bind finally await getThis].
  destruct (containerId (st_this st)) as [id|].
  - destruct (truthyString (Some id)).
    + reflexivity.
    + cbn [advance bind finally await getThis]. unfold needsNewContainer.
      cbn [advance bind finally await getThis].
      destruct (container (st_this st)) as [c|].
      * reflexivity.
      * cbn [advance bind finally await getThis checkThenCreate createContainer].
        cbn [advance bind finally await getThis]. rewrite Hty. reflexivity.
  - cbn [advance bind finally await getThis]. unfold needsNewContainer.
    cbn [advance bind finally await getThis].
    destruct (container (st_this st)) as [c|].
    * reflexivity.
    * cbn [advance bind finally await getThis checkThenCreate createContainer].
      cbn [advance bind finally await getThis]. rewrite Hty. reflexivity.
Qed.

(** A stretch of the task of a phase is the task of the next phase. *)
Lemma phaseStep_sim (i : TaskId) (ph : Phase) (st : St) :
  projectId (st_this st) = key -> type (st_this st) = ty ->
  taskStep i (taskOf ph) st
  = option_map (fun '(ph', st') => (taskOf ph', st')) (phaseStep i ph st).
Proof.
  intros Hk Hty. destruct ph as [| |id|c| |cid|[[]|e]|r]; cbn [taskOf taskStep phaseStep].
  - (* Unstarted *)
    unfold initialize. cbn [advance bind finally await getThis acquireLock option_map].
    rewrite Hk. reflexivity.
  - (* Queued *)
    cbn [resume]. destruct (grantable key i st); [|reflexivity].
    cbn [option_map]. rewrite enter_sim by assumption.
    destruct (enter (grant key i st)); reflexivity.
  - (* Connecting *)
    cbn [resume afterCritical bind finally await call option_map]. cbv zeta.
    destruct (respond env (st_trace st) (Container_connect id (sandboxOpts T))) as [c|e].
    + reflexivity.
    + reflexivity.
  - (* Validating *)
    cbn [resume afterCritical bind finally await call option_map]. cbv zeta.
    destruct (respond env (st_trace st) (Container_isRunning c)) as [[|]|e].
    + reflexivity.
    + cbn [bind finally advance negb checkThenCreate createContainer getThis].
      cbn [st_this log]. rewrite Hty. reflexivity.
    + reflexivity.
  - (* Creating *)
    cbn [resume afterCritical createFrom bind finally await call option_map]. cbv zeta.
    destruct (respond env (st_trace st) (Container_create (templateOf ty) (sandboxOpts T)))
      as [c|e].
    + cbn. rewrite Hk. reflexivity.
    + reflexivity.
  - (* Persisting *)
    cbn [resume afterCritical bind finally await call option_map]. cbv zeta.
    destruct (respond env (st_trace st) (Db_setContainerId key cid)) as [[]|e];
      reflexivity.
  - (* Leaving, fulfilled *)
    cbn [resume option_map finish]. unfold initializeManagers.
    cbn [advance bind getThis].
    destruct st as [[pid ty' fm tm c cid] tr locks]; cbn.
    destruct c as [c|]; [|reflexivity].
    destruct tm, fm; reflexivity.
  - (* Leaving, rejected *)
    reflexivity.
  - reflexivity.
Qed.

Lemma step_taskStep (i : TaskId) (s : Sys unit) :
  step env i s
  = match sys_tasks s !! i with
    | Some t =>
        match taskStep i t (sys_st s) with
        | Some (t', st') =>
            Some {| sys_st := st'; sys_tasks := <[i := t']> (sys_tasks s) |}
        | None => None
        end
    | None => None
    end.
Proof.
  unfold step. destruct (sys_tasks s !! i) as [[p|p|r]|]; try reflexivity.
Qed.

(** The event loop on the tasks of the phases moves as [phasesStep] does. *)
Lemma step_sim (i : TaskId) (st : St) (phases : list Phase) :
  projectId (st_this st) = key -> type (st_this st) = ty ->
  step env i (sysOf st phases)
  = option_map (fun '(st', phases') => sysOf st' phases') (phasesStep i st phases).
Proof.
  intros Hk Hty. rewrite step_taskStep. unfold sysOf, phasesStep.
  cbn [sys_tasks sys_st].
  assert (Hl : map taskOf phases !! i = option_map taskOf (phases !! i))
    by apply list_lookup_fmap.
  rewrite Hl. clear Hl.
  destruct (phases !! i) as [ph|]; cbn [option_map]; [|reflexivity].
  rewrite phaseStep_sim by assumption.
  destruct (phaseStep i ph st) as [[ph' st']|]; cbn [option_map]; [|reflexivity].
  rewrite list_fmap_insert. reflexivity.
Qed.

(** ** The lock discipline *)

Lemma lockOf_enqueue (i : TaskId) (st : St) :
  lockOf (enqueue key i st) key
  = {| holder := holder (lockOf st key); waiters := waiters (lockOf st key) ++ [i] |}.
Proof. apply lockOf_set_lock. Qed.

Lemma lockOf_grant (i : TaskId) (st : St) :
  lockOf (grant key i st) key
  = {| holder := Some i; waiters := tail (waiters (lockOf st key)) |}.
Proof. apply lockOf_set_lock. Qed.

Lemma grantable_inv (i : TaskId) (st : St) :
  grantable key i st = true ->
  holder (lockOf st key) = None
  /\ exists rest, waiters (lockOf st key) = i :: rest.
Proof.
  unfold grantable. destruct (holder (lockOf st key)); [discriminate|].
  destruct (waiters (lockOf st key)) as [|w rest]; [discriminate|].
  intros H. apply Nat.eqb_eq in H. subst. eauto.
Qed.

(** What a stretch does to the lock of the project. *)
Lemma phaseStep_lockMove (i : TaskId) (ph ph' : Phase) (st st' : St) :
  phaseStep i ph st = Some (ph', st') ->
  LockMove i (lockOf st key) ph ph' (lockOf st' key).
Proof.
  destruct ph as [| |id|c| |cid|r|r]; cbn [phaseStep]; cbv zeta.
  - intros [= <- <-]. rewrite lockOf_enqueue. constructor.
  - destruct (grantable key i st) eqn:G; [|discriminate].
    apply grantable_inv in G as (Hh & rest & Hw).
    unfold enter, check.
    destruct (containerId (st_this (grant key i st))) as [id|];
      [destruct (truthyString (Some id))|];
      try destruct (container (st_this (grant key i st)));
      intros [= <- <-]; rewrite lockOf_grant, Hw; cbn [tail];
      apply MoveGrant; auto.
  - destruct (respond env (st_trace st) (Container_connect id (sandboxOpts T))) as [c|e];
      intros [= <- <-].
    + apply MoveInside; reflexivity.
    + unfold leave. cbn [fst snd]. rewrite lockOf_release.
      apply MoveRelease. reflexivity.
  - destruct (respond env (st_trace st) (Container_isRunning c)) as [[|]|e];
      intros [= <- <-].
    + rewrite lockOf_release. apply MoveRelease. reflexivity.
    + apply MoveInside; reflexivity.
    + rewrite lockOf_release. apply MoveRelease. reflexivity.
  - destruct (respond env (st_trace st) (Container_create (templateOf ty) (sandboxOpts T)))
      as [c|e]; intros [= <- <-].
    + apply MoveInside; reflexivity.
    + rewrite lockOf_release. apply MoveRelease. reflexivity.
  - intros [= <- <-]. rewrite lockOf_release. apply MoveRelease. reflexivity.
  - unfold finish. destruct r as [[]|e].
    + destruct (container (st_this st)); intros [= <- <-]; apply MoveFinish.
    + intros [= <- <-]. apply MoveFinish.
  - discriminate.
Qed.

Lemma phaseStep_consts (i : TaskId) (ph ph' : Phase) (st st' : St) :
  phaseStep i ph st = Some (ph', st') ->
  projectId (st_this st') = projectId (st_this st)
  /\ type (st_this st') = type (st_this st).
Proof.
  destruct ph as [| |id|c| |cid|r|r]; cbn [phaseStep]; cbv zeta.
  - intros [= <- <-]. split; reflexivity.
  - destruct (grantable key i st) eqn:G; [|discriminate].
    unfold enter, check.
    destruct (containerId (st_this (grant key i st))) as [id|];
      [destruct (truthyString (Some id))|];
      try destruct (container (st_this (grant key i st)));
      intros [= <- <-]; split; reflexivity.
  - destruct (respond env (st_trace st) (Container_connect id (sandboxOpts T))) as [c|e];
      intros [= <- <-]; split; reflexivity.
  - destruct (respond env (st_trace st) (Container_isRunning c)) as [[|]|e];
      intros [= <- <-]; split; reflexivity.
  - destruct (respond env (st_trace st) (Container_create (templateOf ty) (sandboxOpts T)))
      as [c|e]; intros [= <- <-]; split; reflexivity.
  - intros [= <- <-]. split; reflexivity.
  - unfold finish. destruct r as [[]|e].
    + destruct st as [[pid ty' fm tm c cid] tr locks]; cbn.
      destruct c as [c|], tm, fm; intros [= <- <-]; split; reflexivity.
    + intros [= <- <-]. split; reflexivity.
  - discriminate.
Qed.

Lemma lookup_insert_phase (phases : list Phase) (i j : nat) (ph ph' : Phase) :
  phases !! i = Some ph ->
  <[i := ph']> phases !! j = if decide (j = i) then Some ph' else phases !! j.
Proof.
  intros Hi. destruct (decide (j = i)) as [->|Hne].
  - apply list_lookup_insert_eq. eapply lookup_lt_Some. exact Hi.
  - apply list_lookup_insert_ne. congruence.
Qed.

Lemma phasesStep_inv (i : TaskId) (st st' : St) (phases phases' : list Phase) :
  phasesStep i st phases = Some (st', phases') ->
  exists ph ph',
    phases !! i = Some ph
    /\ phaseStep i ph st = Some (ph', st')
    /\ phases' = <[i := ph']> phases.
Proof.
  unfold phasesStep. destruct (phases !! i) as [ph|]; [|discriminate].
  destruct (phaseStep i ph st) as [[ph' st1]|] eqn:E; [|discriminate].
  intros [= <- <-]. exists ph, ph'. auto.
Qed.

Lemma phasesStep_inv' (i : TaskId) (st : St) (phases : list Phase) r :
  phasesStep i st phases = Some r -> (i < length phases)%nat.
Proof.
  unfold phasesStep. destruct (phases !! i) as [ph|] eqn:E; [|discriminate].
  intros _. eapply lookup_lt_Some. exact E.
Qed.

(** Every stretch keeps the lock discipline. *)
Lemma LockInv_step (i : TaskId) (st st' : St) (phases phases' : list Phase) :
  LockInv st phases ->
  phasesStep i st phases = Some (st', phases') ->
  LockInv st' phases'.
Proof.
  intros [Hk Hty Hw Hnd Hh] Hstep.
  apply phasesStep_inv in Hstep as (ph & ph' & Hi & Hstep & ->).
  pose proof (phaseStep_consts _ _ _ _ _ Hstep) as [Hk' Hty'].
  pose proof (phaseStep_lockMove _ _ _ _ _ Hstep) as Hmove.
  assert (Hlk : forall j, <[i := ph']> phases !! j
                = if decide (j = i) then Some ph' else phases !! j)
    by (intros j; eapply lookup_insert_phase; exact Hi).
  assert (Hnq : inCritical ph = true -> i ∉ waiters (lockOf st key)).
  { intros Hc Hin. apply Hw in Hin. rewrite Hi in Hin. injection Hin as ->. discriminate. }
  assert (Hhold : inCritical ph = true -> holder (lockOf st key) = Some i).
  { intros Hc. apply Hh. eauto. }
  split; [congruence|congruence| | |].
  - (* waiters *)
    intros j. rewrite Hlk.
    inversion Hmove as [|ph1 rest Hc Hn Hws|ph0 ph1 Hc Hc'|ph0 r Hc|r r']; subst;
      cbn [waiters]; destruct (decide (j = i)) as [->|Hne].
    + rewrite elem_of_app, list_elem_of_singleton. split; auto.
    + rewrite elem_of_app, list_elem_of_singleton, Hw. split; [intros [?|?]; [assumption|contradiction]|auto].
    + rewrite Hws in Hnd. apply NoDup_cons in Hnd as [Hni _].
      split; [contradiction|]. intros [= ->]. discriminate.
    + rewrite <- Hw, Hws, elem_of_cons. split; [auto|intros [?|?]; [contradiction|assumption]].
    + split; [intros Hin; exfalso; exact (Hnq Hc Hin)|]. intros [= ->]. discriminate.
    + apply Hw.
    + split; [intros Hin; exfalso; exact (Hnq Hc Hin)|]. discriminate.
    + apply Hw.
    + rewrite Hw, Hi. split; discriminate.
    + apply Hw.
  - (* no duplicate *)
    inversion Hmove as [|ph1 rest Hc Hn Hws|ph0 ph1 Hc Hc'|ph0 r Hc|r r']; subst;
      cbn [waiters]; try assumption.
    + apply NoDup_app. split; [assumption|]. split; [|apply NoDup_singleton].
      intros x Hx Hxi. apply list_elem_of_singleton in Hxi. subst x.
      apply Hw in Hx. rewrite Hi in Hx. discriminate.
    + rewrite Hws in Hnd. apply NoDup_cons in Hnd as [_ Hnd]. exact Hnd.
  - (* holder *)
    intros j. rewrite Hlk.
    inversion Hmove as [|ph1 rest Hc Hn Hws|ph0 ph1 Hc Hc'|ph0 r Hc|r r']; subst;
      cbn [holder]; destruct (decide (j = i)) as [->|Hne].
    + rewrite Hh, Hi. split; intros (ph0 & [= <-] & Hc); discriminate.
    + apply Hh.
    + split; [eauto|reflexivity].
    + split; [intros [= ->]; contradiction|].
      intros Hc'. apply Hh in Hc'. congruence.
    + split; [eauto|]. intros _. apply Hhold. exact Hc.
    + apply Hh.
    + split; [discriminate|]. intros (ph1 & [= <-] & Hc'). discriminate.
    + split; [discriminate|]. intros Hc'. apply Hh in Hc'.
      rewrite (Hhold Hc) in Hc'. congruence.
    + rewrite Hh, Hi. split; intros (ph0 & [= <-] & Hc); discriminate.
    + apply Hh.
Qed.

(** ** One creation *)

Lemma createCalls_snoc (tr : list Event) (e : Event) :
  createCalls (tr ++ [e]) = (createCalls tr + if isCreateCall e then 1 else 0)%nat.
Proof.
  unfold createCalls. rewrite List.filter_app, length_app. simpl.
  destruct (isCreateCall e); reflexivity.
Qed.

Lemma createdIds_snoc (tr : list Event) (e : Event) :
  createdIds (tr ++ [e])
  = (createdIds tr ++ match createdId e with Some x => [x] | None => [] end)%list.
Proof.
  unfold createdIds. rewrite omap_app. simpl. destruct (createdId e); reflexivity.
Qed.

Lemma createdIds_grow (tr : list Event) (e : Event) (x : string) :
  In x (createdIds tr) -> In x (createdIds (tr ++ [e])).
Proof. intros H. rewrite createdIds_snoc. apply in_or_app. left. exact H. Qed.

Lemma phaseOk_mono (st st' : St) (ph : Phase) :
  (forall x, In x (createdIds (st_trace st)) -> In x (createdIds (st_trace st'))) ->
  containerId (st_this st') = containerId (st_this st) ->
  phaseOk st ph -> phaseOk st' ph.
Proof.
  intros Hsub Hid. destruct ph; cbn [phaseOk]; auto.
  intros [H1 H2]. split; [auto|congruence].
Qed.

Lemma Established_mono (st st' : St) :
  (forall x, In x (createdIds (st_trace st)) -> In x (createdIds (st_trace st'))) ->
  containerId (st_this st') = containerId (st_this st) ->
  container (st_this st') = container (st_this st) ->
  Established st -> Established st'.
Proof.
  intros Hsub Hid Hc (h & H1 & H2 & H3). exists h.
  split; [congruence|]. split; [auto|congruence].
Qed.

Lemma phaseOk_outside (st : St) (ph : Phase) :
  inCritical ph = false -> phaseOk st ph.
Proof. destruct ph; cbn; congruence || auto. Qed.

(** The call inside the critical section is the only one there. *)
Lemma LockInv_alone (st : St) (phases : list Phase) (i j : nat) (ph phj : Phase) :
  LockInv st phases ->
  phases !! i = Some ph -> inCritical ph = true ->
  phases !! j = Some phj -> j <> i ->
  inCritical phj = false.
Proof.
  intros [_ _ _ _ Hh] Hi Hc Hj Hne.
  destruct (inCritical phj) eqn:E; [|reflexivity].
  assert (holder (lockOf st key) = Some i) as H1 by (apply Hh; eauto).
  assert (holder (lockOf st key) = Some j) as H2 by (apply Hh; eauto).
  congruence.
Qed.

Lemma Forall_insert_alone (st st' : St) (phases : list Phase) (i : nat) (ph ph' : Phase) :
  LockInv st phases ->
  phases !! i = Some ph -> inCritical ph = true ->
  phaseOk st' ph' ->
  Forall (phaseOk st') (<[i := ph']> phases).
Proof.
  intros Hinv Hi Hc Hok. apply Forall_lookup. intros j phj Hj.
  rewrite (lookup_insert_phase _ _ _ _ _ Hi) in Hj.
  destruct (decide (j = i)) as [->|Hne].
  - injection Hj as <-. exact Hok.
  - apply phaseOk_outside.
    exact (LockInv_alone st phases i j ph phj Hinv Hi Hc Hj Hne).
Qed.

Lemma Forall_insert_mono (st st' : St) (phases : list Phase) (i : nat) (ph' : Phase) :
  (forall x, In x (createdIds (st_trace st)) -> In x (createdIds (st_trace st'))) ->
  containerId (st_this st') = containerId (st_this st) ->
  Forall (phaseOk st) phases ->
  phaseOk st' ph' ->
  Forall (phaseOk st') (<[i := ph']> phases).
Proof.
  intros Hsub Hid Hall Hok. apply Forall_insert; [|exact Hok].
  eapply Forall_impl; [exact Hall|]. intros ph. apply phaseOk_mono; assumption.
Qed.

Lemma Forall_lookup_phase (st : St) (phases : list Phase) (i : nat) (ph : Phase) :
  Forall (phaseOk st) phases -> phases !! i = Some ph -> phaseOk st ph.
Proof. intros Hall Hi. eapply Forall_lookup_1; eauto. Qed.

Ltac same_count H0 :=
  left; cbn [st_trace st_this log set_this release enqueue grant set_lock fst snd];
  rewrite ?createCalls_snoc; cbn [isCreateCall]; rewrite ?Nat.add_0_r; exact H0.

(** Every stretch keeps the count of creation calls at one more than at
    the start, at most, when the sandbox service keeps its word. *)
Lemma CreateInv_step (n0 : nat) (i : TaskId) (st st' : St)
    (phases phases' : list Phase) :
  SandboxesStayUp T env ->
  LockInv st phases ->
  CreateInv n0 st phases ->
  phasesStep i st phases = Some (st', phases') ->
  CreateInv n0 st' phases'.
Proof.
  intros [Hcreate Hconnect Hruns] Hlock Hinv Hstep.
  apply phasesStep_inv in Hstep as (ph & ph' & Hi & Hstep & ->).
  destruct ph as [| |id|c| |cid|r|r]; cbn [phaseStep] in Hstep; cbv zeta in Hstep.
  - (* Unstarted *)
    injection Hstep as <- <-.
    destruct Hinv as [H0|(H1 & He & Hall)]; [left; exact H0|].
    right. split; [exact H1|]. split; [exact He|].
    apply Forall_insert; [exact Hall|exact I].
  - (* Queued *)
    destruct (grantable key i st); [|discriminate].
    destruct Hinv as [H0|(H1 & He & Hall)].
    + left. unfold enter, check in Hstep.
      destruct (containerId (st_this (grant key i st))) as [id|];
        [destruct (truthyString (Some id))|];
        try destruct (container (st_this (grant key i st)));
        injection Hstep as <- <-; exact H0.
    + right. destruct He as (h & Hc & Hin & Hid).
      assert (He' : Established (grant key i st)) by (exists h; auto).
      unfold enter, check in Hstep. cbn [st_this grant set_lock] in Hstep.
      rewrite Hid, Hc in Hstep.
      destruct (truthyString (Some (sandboxId h))); injection Hstep as <- <-;
        (split; [exact H1|]); (split; [exact He'|]);
        (apply Forall_insert; [exact Hall|]); cbn [phaseOk]; auto.
  - (* Connecting *)
    destruct Hinv as [H0|(H1 & He & Hall)].
    + destruct (respond env (st_trace st) (Container_connect id (sandboxOpts T)));
        injection Hstep as <- <-; same_count H0.
    + pose proof (Forall_lookup_phase _ _ _ _ Hall Hi) as [Hin Hid].
      destruct (Hconnect (st_trace st) id Hin) as (c & Hr & Hsid).
      rewrite Hr in Hstep. injection Hstep as <- <-.
      assert (Hsub : forall x, In x (createdIds (st_trace st)) ->
                In x (createdIds (st_trace st ++ [Called (Container_connect id (sandboxOpts T)) (Ok c)])))
        by (intros x; apply createdIds_grow).
      right. cbn [check st_this set_this container with_container fst snd].
      split; [cbn [st_trace log set_this]; rewrite createCalls_snoc; cbn [isCreateCall]; lia|].
      split.
      * exists c. cbn. rewrite Hid, Hsid. repeat split; auto.
      * eapply Forall_insert_mono; [exact Hsub|reflexivity|exact Hall|].
        cbn [phaseOk st_trace log set_this]. apply Hsub. rewrite Hsid. exact Hin.
  - (* Validating *)
    destruct Hinv as [H0|(H1 & He & Hall)].
    + destruct (respond env (st_trace st) (Container_isRunning c)) as [[|]|e];
        injection Hstep as <- <-; same_count H0.
    + pose proof (Forall_lookup_phase _ _ _ _ Hall Hi) as Hin. cbn [phaseOk] in Hin.
      rewrite (Hruns (st_trace st) c Hin) in Hstep. injection Hstep as <- <-.
      assert (Hsub : forall x, In x (createdIds (st_trace st)) ->
                In x (createdIds (st_trace st ++ [Called (Container_isRunning c) (Ok true)])))
        by (intros x; apply createdIds_grow).
      right.
      split; [cbn [st_trace log release set_lock]; rewrite createCalls_snoc;
              cbn [isCreateCall]; lia|].
      split.
      * eapply Established_mono; [exact Hsub|reflexivity|reflexivity|exact He].
      * eapply Forall_insert_mono; [exact Hsub|reflexivity|exact Hall|exact I].
  - (* Creating *)
    destruct Hinv as [H0|(H1 & He & Hall)].
    + destruct (Hcreate (st_trace st) (templateOf ty)) as [c Hr].
      rewrite Hr in Hstep. injection Hstep as <- <-.
      right.
      split; [cbn [st_trace log set_this]; rewrite createCalls_snoc;
              cbn [isCreateCall]; lia|].
      assert (Hin : In (sandboxId c)
                (createdIds (st_trace st ++ [Called (Container_create (templateOf ty) (sandboxOpts T)) (Ok c)]))).
      { rewrite createdIds_snoc. apply in_or_app. right. left. reflexivity. }
      split.
      * exists c. cbn. repeat split; auto.
      * eapply Forall_insert_alone; [exact Hlock|exact Hi|reflexivity|exact I].
    + pose proof (Forall_lookup_phase _ _ _ _ Hall Hi) as []. 
  - (* Persisting *)
    injection Hstep as <- <-.
    destruct Hinv as [H0|(H1 & He & Hall)]; [same_count H0|].
    assert (Hsub : forall x, In x (createdIds (st_trace st)) ->
              In x (createdIds (st_trace st ++
                 [Called (Db_setContainerId key cid)
                    (respond env (st_trace st) (Db_setContainerId key cid))])))
      by (intros x; apply createdIds_grow).
    right.
    split; [cbn [st_trace log release set_lock snd leave]; rewrite createCalls_snoc;
            cbn [isCreateCall]; lia|].
    split.
    + eapply Established_mono; [exact Hsub|reflexivity|reflexivity|exact He].
    + eapply Forall_insert_mono; [exact Hsub|reflexivity|exact Hall|exact I].
  - (* Leaving *)
    assert (Hfin : st_trace st' = st_trace st
                   /\ containerId (st_this st') = containerId (st_this st)
                   /\ container (st_this st') = container (st_this st)
                   /\ exists r', ph' = Finished r').
    { unfold finish in Hstep. destruct r as [[]|e].
      - destruct st as [[pid ty' fm tm c cid] tr locks]; cbn in *.
        destruct c as [c|], tm, fm; injection Hstep as <- <-; cbn; eauto 6.
      - injection Hstep as <- <-. eauto 6. }
    destruct Hfin as (Htr & Hid & Hc & r' & ->).
    destruct Hinv as [H0|(H1 & He & Hall)]; [left; congruence|].
    assert (Hsub : forall x, In x (createdIds (st_trace st)) ->
              In x (createdIds (st_trace st'))) by (rewrite Htr; auto).
    right. split; [congruence|]. split.
    + eapply Established_mono; [exact Hsub|exact Hid|exact Hc|exact He].
    + eapply Forall_insert_mono; [exact Hsub|exact Hid|exact Hall|exact I].
  - discriminate.
Qed.

Ltac settle :=
  unfold leave, check;
  cbn [st_this st_trace log set_this release set_lock container with_container
       with_containerId enqueue grant];
  intros [= <- <-];
  cbn [st_this st_trace log set_this release set_lock].

Lemma phaseStep_createCalls (i : TaskId) (ph ph' : Phase) (st st' : St) :
  phaseStep i ph st = Some (ph', st') ->
  (createCalls (st_trace st) <= createCalls (st_trace st'))%nat.
Proof.
  destruct ph as [| |id|c| |cid|r|r]; cbn [phaseStep]; cbv zeta.
  - settle. reflexivity.
  - destruct (grantable key i st); [|discriminate]. unfold enter, check.
    destruct (containerId (st_this (grant key i st))) as [id|];
      [destruct (truthyString (Some id))|];
      try destruct (container (st_this (grant key i st)));
      intros [= <- <-]; reflexivity.
  - destruct (respond env (st_trace st) (Container_connect id (sandboxOpts T)));
      settle; rewrite createCalls_snoc; lia.
  - destruct (respond env (st_trace st) (Container_isRunning c)) as [[|]|e];
      settle; rewrite createCalls_snoc; lia.
  - destruct (respond env (st_trace st) (Container_create (templateOf ty) (sandboxOpts T)));
      settle; rewrite createCalls_snoc; lia.
  - settle. rewrite createCalls_snoc. lia.
  - unfold finish. destruct r as [[]|e].
    + destruct st as [[pid ty' fm tm c cid] tr locks]; cbn.
      destruct c as [c|], tm, fm; intros [= <- <-]; reflexivity.
    + intros [= <- <-]. reflexivity.
  - discriminate.
Qed.

(** ** A session that starts without a sandbox *)

(** On a session that started without a sandbox, a stretch that makes no
    creation call leaves every call yet to create. *)
Lemma FreshInv_step (n0 : nat) (i : TaskId) (st st' : St)
    (phases phases' : list Phase) :
  SandboxesStayUp T env ->
  (n0 <= createCalls (st_trace st))%nat ->
  FreshInv n0 st phases ->
  phasesStep i st phases = Some (st', phases') ->
  FreshInv n0 st' phases'.
Proof.
  intros [Hcreate _ _] Hge Hinv Hstep H0.
  apply phasesStep_inv in Hstep as (ph & ph' & Hi & Hstep & ->).
  pose proof (phaseStep_createCalls _ _ _ _ _ Hstep) as Hmono.
  destruct Hinv as (Hc & Hid & Hall); [lia|].
  pose proof (Forall_lookup_1 _ _ _ _ Hall Hi) as [->|[->| ->]];
    cbn [phaseStep] in Hstep; cbv zeta in Hstep.
  - injection Hstep as <- <-. repeat split; auto.
    apply Forall_insert; [exact Hall|right; left; reflexivity].
  - destruct (grantable key i st); [|discriminate].
    unfold enter, check in Hstep. cbn [st_this grant set_lock] in Hstep.
    rewrite Hc in Hstep.
    assert (Hph : ph' = Creating /\ st' = grant key i st).
    { destruct (containerId (st_this st)) as [id|];
        [rewrite Hid in Hstep|]; injection Hstep as <- <-; auto. }
    destruct Hph as [-> ->].
    split; [exact Hc|]. split; [exact Hid|].
    apply Forall_insert; [exact Hall|right; right; reflexivity].
  - destruct (Hcreate (st_trace st) (templateOf ty)) as [c Hr].
    rewrite Hr in Hstep. injection Hstep as <- <-.
    cbn [st_trace log set_this] in H0. rewrite createCalls_snoc in H0.
    cbn [isCreateCall] in H0. lia.
Qed.

(** ** Progress and termination *)

Lemma phaseStep_rank (i : TaskId) (ph ph' : Phase) (st st' : St) :
  phaseStep i ph st = Some (ph', st') -> (rank ph' < rank ph)%nat.
Proof.
  destruct ph as [| |id|c| |cid|r|r]; cbn [phaseStep]; cbv zeta.
  - intros [= <- <-]. cbn. lia.
  - destruct (grantable key i st); [|discriminate]. unfold enter, check.
    destruct (containerId (st_this (grant key i st))) as [id|];
      [destruct (truthyString (Some id))|];
      try destruct (container (st_this (grant key i st)));
      intros [= <- <-]; cbn; lia.
  - destruct (respond env (st_trace st) (Container_connect id (sandboxOpts T)));
      intros [= <- <-]; cbn; lia.
  - destruct (respond env (st_trace st) (Container_isRunning c)) as [[|]|e];
      intros [= <- <-]; cbn; lia.
  - destruct (respond env (st_trace st) (Container_create (templateOf ty) (sandboxOpts T)));
      intros [= <- <-]; cbn; lia.
  - intros [= <- <-]. cbn. lia.
  - unfold finish. destruct r as [[]|e].
    + destruct (container (st_this st)); intros [= <- <-]; cbn; lia.
    + intros [= <- <-]. cbn. lia.
  - discriminate.
Qed.

Lemma work_insert (phases : list Phase) (i : nat) (ph ph' : Phase) :
  phases !! i = Some ph ->
  (work (<[i := ph']> phases) + rank ph = work phases + rank ph')%nat.
Proof.
  revert i. induction phases as [|x l IH]; intros i Hi; [discriminate|].
  destruct i as [|i]; simpl in *.
  - injection Hi as ->. lia.
  - specialize (IH i Hi). lia.
Qed.

(** Every stretch uses up work. *)
Lemma phasesStep_work (i : TaskId) (st st' : St) (phases phases' : list Phase) :
  phasesStep i st phases = Some (st', phases') ->
  (work phases' < work phases)%nat /\ length phases' = length phases.
Proof.
  intros Hstep. apply phasesStep_inv in Hstep as (ph & ph' & Hi & Hstep & ->).
  pose proof (phaseStep_rank _ _ _ _ _ Hstep).
  pose proof (work_insert phases i ph ph' Hi).
  split; [lia|apply length_insert].
Qed.

Lemma runnable_steps (i : TaskId) (ph : Phase) (st : St) :
  runnable ph = true -> exists r, phaseStep i ph st = Some r.
Proof. destruct ph; cbn; try discriminate; eauto. Qed.

(** While a call has not finished, some call can run. *)
Lemma LockInv_progress (st : St) (phases : list Phase) :
  LockInv st phases ->
  forallb isFinished phases = false ->
  exists i r, phasesStep i st phases = Some r.
Proof.
  intros [_ _ Hw _ Hh] Hnf.
  destruct (existsb runnable phases) eqn:Hrun.
  - apply existsb_exists in Hrun as (ph & Hin & Hr).
    apply list_elem_of_In, list_elem_of_lookup in Hin as [i Hi].
    destruct (runnable_steps i ph st Hr) as [[ph' st'] Hs].
    exists i. unfold phasesStep. rewrite Hi, Hs. eauto.
  - assert (Hnone : forall j ph, phases !! j = Some ph -> runnable ph = false).
    { intros j ph Hj. destruct (runnable ph) eqn:E; [|reflexivity].
      assert (existsb runnable phases = true); [|congruence].
      apply existsb_exists. exists ph. split; [|exact E].
      apply list_elem_of_In, list_elem_of_lookup. eauto. }
    assert (Hq : exists j, phases !! j = Some Queued).
    { destruct (forallb isFinished phases) eqn:E; [discriminate|].
      assert (exists ph, In ph phases /\ isFinished ph = false) as (ph & Hin & Hf).
      { clear -E. induction phases as [|x l IH]; [discriminate|].
        cbn in E. destruct (isFinished x) eqn:Ex.
        - destruct (IH E) as (ph & ? & ?). exists ph. split; [right|]; auto.
        - exists x. split; [left|]; auto. }
      apply list_elem_of_In, list_elem_of_lookup in Hin as [j Hj].
      exists j. pose proof (Hnone j ph Hj) as Hr.
      destruct ph; cbn in *; try discriminate. exact Hj. }
    destruct Hq as [j Hj].
    assert (Hfree : holder (lockOf st key) = None).
    { destruct (holder (lockOf st key)) as [h|] eqn:E; [|reflexivity].
      destruct (proj1 (Hh h) eq_refl) as (ph & Hph & Hc).
      pose proof (Hnone h ph Hph).
      destruct ph; cbn in *; discriminate. }
    apply Hw in Hj.
    destruct (waiters (lockOf st key)) as [|w rest] eqn:Ews; [inversion Hj|].
    assert (Hwq : phases !! w = Some Queued) by (apply Hw; left).
    exists w. unfold phasesStep. rewrite Hwq. cbn [phaseStep].
    unfold grantable. rewrite Hfree, Ews, Nat.eqb_refl.
    destruct (enter (grant key w st)) as [ph' st']. eauto.
Qed.

(** ** Runs *)

Lemma CreateInv_ge (n0 : nat) (st : St) (phases : list Phase) :
  CreateInv n0 st phases -> (n0 <= createCalls (st_trace st))%nat.
Proof. intros [H|[H _]]; lia. Qed.

Lemma AllInv_step (n0 : nat) (fresh : bool) (i : TaskId) (st st' : St)
    (phases phases' : list Phase) :
  SandboxesStayUp T env ->
  AllInv n0 fresh st phases ->
  phasesStep i st phases = Some (st', phases') ->
  AllInv n0 fresh st' phases'.
Proof.
  intros Hup (Hl & Hc & Hf) Hstep. split; [|split].
  - eapply LockInv_step; eauto.
  - eapply CreateInv_step; eauto.
  - intros Hfresh. eapply FreshInv_step; eauto. apply (CreateInv_ge _ _ _ Hc).
Qed.

(** A run under any schedule stays within the phases and keeps the
    invariants; the stretches it really runs are paid for by the work. *)
Lemma run_sysOf (n0 : nat) (fresh : bool) (schedule : list TaskId) (st : St)
    (phases : list Phase) :
  SandboxesStayUp T env ->
  AllInv n0 fresh st phases ->
  exists st' phases',
    run env schedule (sysOf st phases) = sysOf st' phases'
    /\ AllInv n0 fresh st' phases'
    /\ length phases' = length phases
    /\ (effective env schedule (sysOf st phases) + work phases' <= work phases)%nat.
Proof.
  intros Hup. revert st phases.
  induction schedule as [|i rest IH]; intros st phases Hinv.
  - exists st, phases. cbn. auto.
  - cbn [run effective]. destruct Hinv as (Hl & Hc & Hf).
    rewrite step_sim by (destruct Hl; assumption).
    destruct (phasesStep i st phases) as [[st1 phases1]|] eqn:Hstep; cbn [option_map default].
    + destruct (phasesStep_work _ _ _ _ _ Hstep) as [Hw Hlen].
      destruct (IH st1 phases1) as (st' & phases' & Hrun & Hinv' & Hlen' & Heff).
      { eapply AllInv_step; eauto. split; auto. }
      exists st', phases'. split; [exact Hrun|]. split; [exact Hinv'|].
      split; [congruence|]. lia.
    + destruct (IH st phases) as (st' & phases' & Hrun & Hinv' & Hlen' & Heff);
        [split; auto|].
      exists st', phases'. auto.
Qed.

Lemma isSettled_taskOf (ph : Phase) : isSettled (taskOf ph) = isFinished ph.
Proof. destruct ph as [| | | | | |[[]|]|]; reflexivity. Qed.

Lemma quiescent_sysOf (st : St) (phases : list Phase) :
  quiescent (sysOf st phases) = forallb isFinished phases.
Proof.
  unfold quiescent, sysOf. cbn [sys_tasks].
  induction phases as [|ph l IH]; [reflexivity|].
  cbn. rewrite isSettled_taskOf, IH. reflexivity.
Qed.

Lemma canStep_sysOf (st : St) (phases : list Phase) :
  projectId (st_this st) = key -> type (st_this st) = ty ->
  (exists i r, phasesStep i st phases = Some r) ->
  canStep env (sysOf st phases) = true.
Proof.
  intros Hk Hty (i & r & Hstep). unfold canStep. apply existsb_exists.
  exists i. split.
  - apply in_seq. cbn [sys_tasks sysOf]. rewrite length_map.
    apply phasesStep_inv' in Hstep. lia.
  - rewrite step_sim, Hstep by assumption. destruct r. reflexivity.
Qed.

(** From every reachable state some schedule settles all calls. *)
Lemma reach_quiescent (n0 : nat) (fresh : bool) (m : nat) (st : St)
    (phases : list Phase) :
  SandboxesStayUp T env ->
  (work phases <= m)%nat ->
  AllInv n0 fresh st phases ->
  exists more, quiescent (run env more (sysOf st phases)) = true.
Proof.
  intros Hup. revert st phases.
  induction m as [|m IH]; intros st phases Hm Hinv.
  - exists []. cbn [run]. rewrite quiescent_sysOf.
    destruct (forallb isFinished phases) eqn:E; [reflexivity|].
    destruct Hinv as (Hl & _).
    destruct (LockInv_progress _ _ Hl E) as (i & [st' phases'] & Hstep).
    apply phasesStep_work in Hstep. lia.
  - destruct (forallb isFinished phases) eqn:E.
    + exists []. cbn [run]. rewrite quiescent_sysOf. exact E.
    + pose proof Hinv as (Hl & _).
      destruct (LockInv_progress _ _ Hl E) as (i & [st' phases'] & Hstep).
      destruct (phasesStep_work _ _ _ _ _ Hstep) as [Hw _].
      destruct (IH st' phases') as [more Hmore]; [lia|eapply AllInv_step; eauto|].
      exists (i :: more). cbn [run].
      rewrite step_sim, Hstep by (destruct Hl; assumption). exact Hmore.
Qed.

(** ** What follows the creation *)

Lemma createCalls_app (a b : list Event) :
  createCalls (a ++ b) = (createCalls a + createCalls b)%nat.
Proof. unfold createCalls. rewrite List.filter_app, length_app. reflexivity. Qed.

Lemma worksOn_outside (c : Container) (ph : Phase) :
  inCritical ph = false -> worksOn c ph.
Proof. destruct ph; cbn; congruence || auto. Qed.

Lemma Forall_worksOn_alone (c : Container) (st : St) (phases : list Phase) (i : nat)
    (ph ph' : Phase) :
  LockInv st phases ->
  phases !! i = Some ph -> inCritical ph = true ->
  worksOn c ph' ->
  Forall (worksOn c) (<[i := ph']> phases).
Proof.
  intros Hinv Hi Hc Hok. apply Forall_lookup. intros j phj Hj.
  rewrite (lookup_insert_phase _ _ _ _ _ Hi) in Hj.
  destruct (decide (j = i)) as [->|Hne].
  - injection Hj as <-. exact Hok.
  - apply worksOn_outside.
    exact (LockInv_alone st phases i j ph phj Hinv Hi Hc Hj Hne).
Qed.

(** A stretch that makes no external call. *)
Lemma ShapeInv_quiet (tr0 : list Event) (st st' : St) (phases phases' : list Phase) :
  st_trace st' = st_trace st ->
  containerId (st_this st') = containerId (st_this st) ->
  (forall c, (S (createCalls tr0) <= createCalls (st_trace st))%nat ->
             containerId (st_this st) = Some (sandboxId c) ->
             Forall (worksOn c) phases -> Forall (worksOn c) phases') ->
  ShapeInv tr0 st phases -> ShapeInv tr0 st' phases'.
Proof.
  intros Htr Hid Hph (new & Hnew & Hshape). exists new.
  split; [congruence|].
  destruct Hshape as [H0|(pre & c & post & -> & Hpre & Hpost & Hc & Hall)]; [left; exact H0|].
  right. exists pre, c, post. repeat split; auto; [congruence|].
  apply Hph; [|exact Hc|exact Hall].
  rewrite Hnew, !createCalls_app. cbn. lia.
Qed.

(** A stretch that makes one external call, not a creation. *)
Lemma ShapeInv_call (tr0 : list Event) (st st' : St) (phases phases' : list Phase)
    (e : Event) :
  st_trace st' = (st_trace st ++ [e])%list ->
  isCreateCall e = false ->
  containerId (st_this st') = containerId (st_this st) ->
  (forall c, (S (createCalls tr0) <= createCalls (st_trace st))%nat ->
             containerId (st_this st) = Some (sandboxId c) ->
             Forall (worksOn c) phases ->
             followsCreation c e /\ Forall (worksOn c) phases') ->
  ShapeInv tr0 st phases -> ShapeInv tr0 st' phases'.
Proof.
  intros Htr He Hid Hph (new & Hnew & Hshape). exists (new ++ [e])%list.
  split; [rewrite Htr, Hnew, <- app_assoc; reflexivity|].
  destruct Hshape as [H0|(pre & c & post & -> & Hpre & Hpost & Hc & Hall)].
  - left. rewrite createCalls_snoc, He. lia.
  - right. exists pre, c, (post ++ [e])%list.
    destruct (Hph c) as [Hfol Hall']; [|exact Hc|exact Hall|].
    { rewrite Hnew, !createCalls_app. cbn. lia. }
    split; [rewrite <- app_assoc; reflexivity|].
    split; [exact Hpre|]. split; [|split; [congruence|exact Hall']].
    apply Forall_app. split; [exact Hpost|]. constructor; [exact Hfol|constructor].
Qed.

(** The stretch that creates. *)
Lemma ShapeInv_create (tr0 : list Event) (st st' : St) (phases phases' : list Phase)
    (c : Container) :
  createCalls (st_trace st) = createCalls tr0 ->
  st_trace st'
  = (st_trace st ++ [Called (Container_create (templateOf ty) (sandboxOpts T)) (Ok c)])%list ->
  containerId (st_this st') = Some (sandboxId c) ->
  Forall (worksOn c) phases' ->
  ShapeInv tr0 st phases -> ShapeInv tr0 st' phases'.
Proof.
  intros H0 Htr Hid Hall (new & Hnew & Hshape).
  exists (new ++ [Called (Container_create (templateOf ty) (sandboxOpts T)) (Ok c)])%list.
  split; [rewrite Htr, Hnew, <- app_assoc; reflexivity|].
  right. exists new, c, []. split; [reflexivity|].
  split; [|split; [constructor|split; [exact Hid|exact Hall]]].
  rewrite Hnew, createCalls_app in H0. lia.
Qed.

(** Every stretch keeps the shape of the trace: after the creation, the
    calls connect to the new id, validate its handle and write it to the
    store. *)
Lemma ShapeInv_step (tr0 : list Event) (i : TaskId) (st st' : St)
    (phases phases' : list Phase) :
  SandboxesStayUp T env ->
  LockInv st phases ->
  CreateInv (createCalls tr0) st phases ->
  ShapeInv tr0 st phases ->
  phasesStep i st phases = Some (st', phases') ->
  ShapeInv tr0 st' phases'.
Proof.
  intros [Hcreate Hconnect Hruns] Hlock Hci Hshape Hstep.
  apply phasesStep_inv in Hstep as (ph & ph' & Hi & Hstep & ->).
  assert (Hafter : (S (createCalls tr0) <= createCalls (st_trace st))%nat ->
                   Established st /\ Forall (phaseOk st) phases).
  { intros Hge. destruct Hci as [H0|(_ & He & Hall)]; [lia|auto]. }
  destruct ph as [| |id|h| |cid|r|r]; cbn [phaseStep] in Hstep; cbv zeta in Hstep.
  - (* Unstarted *)
    injection Hstep as <- <-.
    eapply ShapeInv_quiet; [reflexivity|reflexivity| |exact Hshape].
    intros c _ _ Hall. apply Forall_insert; [exact Hall|exact I].
  - (* Queued *)
    destruct (grantable key i st); [|discriminate].
    assert (Hent : st' = grant key i st
                   /\ (ph' = Creating
                       \/ (exists id, ph' = Connecting id)
                       \/ (exists h, ph' = Validating h /\ container (st_this st) = Some h))).
    { unfold enter, check in Hstep. cbn [st_this grant set_lock] in Hstep.
      destruct (containerId (st_this st)) as [id|];
        [destruct (truthyString (Some id))|];
        try destruct (container (st_this st)) as [h|];
        injection Hstep as <- <-; split; eauto. }
    destruct Hent as [-> Hph].
    eapply ShapeInv_quiet; [reflexivity|reflexivity| |exact Hshape].
    intros c Hge Hid Hall. apply Forall_insert; [exact Hall|].
    destruct (Hafter Hge) as [(h0 & Hc0 & _ & Hid0) _].
    cbn [st_this grant set_lock] in Hid.
    destruct Hph as [->|[(id & ->)|(h & -> & Hh)]]; cbn [worksOn]; auto.
    congruence.
  - (* Connecting *)
    set (e := Called (Container_connect id (sandboxOpts T))
                (respond env (st_trace st) (Container_connect id (sandboxOpts T)))).
    assert (Hst : st_trace st' = (st_trace st ++ [e])%list
                  /\ containerId (st_this st') = containerId (st_this st)).
    { destruct (respond env (st_trace st) (Container_connect id (sandboxOpts T)));
        injection Hstep as <- <-; split; reflexivity. }
    destruct Hst as [Htr Hid'].
    eapply ShapeInv_call; [exact Htr|reflexivity|exact Hid'| |exact Hshape].
    intros c Hge Hid Hall.
    destruct (Hafter Hge) as [_ Hok].
    pose proof (Forall_lookup_phase _ _ _ _ Hok Hi) as [Hin Hid0].
    destruct (Hconnect (st_trace st) id Hin) as (h & Hr & Hsid).
    assert (Hidc : id = sandboxId c) by congruence.
    subst e. rewrite Hr in Hstep |- *. injection Hstep as <- <-. split.
    + right. left. exists h. split; [congruence|]. rewrite Hidc. reflexivity.
    + cbn [check st_this set_this container with_container fst snd].
      apply Forall_insert; [exact Hall|]. cbn [worksOn]. congruence.
  - (* Validating *)
    set (e := Called (Container_isRunning h)
                (respond env (st_trace st) (Container_isRunning h))).
    assert (Hst : st_trace st' = (st_trace st ++ [e])%list
                  /\ containerId (st_this st') = containerId (st_this st)).
    { destruct (respond env (st_trace st) (Container_isRunning h)) as [[|]|e0];
        injection Hstep as <- <-; split; reflexivity. }
    destruct Hst as [Htr Hid'].
    eapply ShapeInv_call; [exact Htr|reflexivity|exact Hid'| |exact Hshape].
    intros c Hge Hid Hall.
    destruct (Hafter Hge) as [_ Hok].
    pose proof (Forall_lookup_phase _ _ _ _ Hok Hi) as Hin. cbn [phaseOk] in Hin.
    pose proof (Forall_lookup_1 _ _ _ _ Hall Hi) as Hh. cbn [worksOn] in Hh.
    subst e. rewrite (Hruns (st_trace st) h Hin) in Hstep |- *.
    injection Hstep as <- <-. split.
    + right. right. exists h. split; [exact Hh|reflexivity].
    + apply Forall_insert; [exact Hall|exact I].
  - (* Creating *)
    destruct (Hcreate (st_trace st) (templateOf ty)) as [c Hr].
    rewrite Hr in Hstep. injection Hstep as <- <-.
    destruct Hci as [H0|(_ & _ & Hok)].
    + eapply ShapeInv_create; [exact H0|reflexivity|reflexivity| |exact Hshape].
      eapply Forall_worksOn_alone; [exact Hlock|exact Hi|reflexivity|reflexivity].
    + pose proof (Forall_lookup_phase _ _ _ _ Hok Hi) as [].
  - (* Persisting *)
    injection Hstep as <- <-.
    eapply ShapeInv_call; [reflexivity|reflexivity|reflexivity| |exact Hshape].
    intros c Hge Hid Hall.
    pose proof (Forall_lookup_1 _ _ _ _ Hall Hi) as Hcid. cbn [worksOn] in Hcid.
    split.
    + left. rewrite Hcid. eexists. reflexivity.
    + apply Forall_insert; [exact Hall|exact I].
  - (* Leaving *)
    assert (Hfin : st_trace st' = st_trace st
                   /\ containerId (st_this st') = containerId (st_this st)
                   /\ exists r', ph' = Finished r').
    { unfold finish in Hstep. destruct r as [[]|e].
      - destruct st as [[pid ty' fm tm c cid] tr locks]; cbn in *.
        destruct c as [c|], tm, fm; injection Hstep as <- <-; cbn; eauto 6.
      - injection Hstep as <- <-. eauto 6. }
    destruct Hfin as (Htr & Hid' & r' & ->).
    eapply ShapeInv_quiet; [exact Htr|exact Hid'| |exact Hshape].
    intros c _ _ Hall. apply Forall_insert; [exact Hall|exact I].
  - discriminate.
Qed.

(** ** A session whose sandbox is gone, and one whose sandbox runs *)

(** While nothing usable is found and nothing is created, every call is
    still to create. *)
Lemma NeedInv_step (n0 : nat) (i : TaskId) (st st' : St)
    (phases phases' : list Phase) :
  NothingRunsYet n0 ->
  (n0 <= createCalls (st_trace st))%nat ->
  NeedInv n0 st phases ->
  phasesStep i st phases = Some (st', phases') ->
  NeedInv n0 st' phases'.
Proof.
  intros Hnone Hge Hinv Hstep H0.
  apply phasesStep_inv in Hstep as (ph & ph' & Hi & Hstep & ->).
  pose proof (phaseStep_createCalls _ _ _ _ _ Hstep) as Hmono.
  assert (Hst : createCalls (st_trace st) = n0) by lia.
  specialize (Hinv Hst). destruct (Hnone (st_trace st) Hst) as [Hconn Hrun].
  apply Forall_insert; [exact Hinv|].
  pose proof (Forall_lookup_1 _ _ _ _ Hinv Hi) as Hph.
  destruct ph as [| |id|h| |cid|r|r]; cbn [stillToCreate] in Hph; try contradiction;
    cbn [phaseStep] in Hstep; cbv zeta in Hstep.
  - injection Hstep as <- <-. exact I.
  - destruct (grantable key i st); [|discriminate].
    unfold enter, check in Hstep.
    destruct (containerId (st_this (grant key i st))) as [id|];
      [destruct (truthyString (Some id))|];
      try destruct (container (st_this (grant key i st)));
      injection Hstep as <- <-; exact I.
  - destruct (Hconn id) as [c Hr]. rewrite Hr in Hstep.
    injection Hstep as <- <-. exact I.
  - rewrite Hrun in Hstep. injection Hstep as <- <-. exact I.
  - exfalso.
    destruct (respond env (st_trace st) (Container_create (templateOf ty) (sandboxOpts T)));
      injection Hstep as <- <-;
      cbn [st_trace log set_this release set_lock leave snd] in H0;
      rewrite createCalls_snoc in H0; cbn [isCreateCall] in H0; lia.
Qed.

(** While every sandbox is usable, no call creates. *)
Lemma UpInv_step (n0 : nat) (i : TaskId) (st st' : St)
    (phases phases' : list Phase) :
  EverythingRuns n0 ->
  UpInv n0 st phases ->
  phasesStep i st phases = Some (st', phases') ->
  UpInv n0 st' phases'.
Proof.
  intros Hall (H0 & Hhas & Hph) Hstep.
  apply phasesStep_inv in Hstep as (ph & ph' & Hi & Hstep & ->).
  destruct (Hall (st_trace st) H0) as [Hconn Hrun].
  pose proof (Forall_lookup_1 _ _ _ _ Hph Hi) as Hnc.
  destruct ph as [| |id|h| |cid|r|r]; cbn [neverCreates] in Hnc; try contradiction;
    cbn [phaseStep] in Hstep; cbv zeta in Hstep.
  - injection Hstep as <- <-.
    split; [exact H0|]. split; [exact Hhas|]. apply Forall_insert; [exact Hph|exact I].
  - destruct (grantable key i st); [|discriminate].
    unfold enter, check in Hstep. cbn [st_this grant set_lock] in Hstep.
    assert (Hent : st' = grant key i st /\ neverCreates ph').
    { destruct (containerId (st_this st)) as [id|] eqn:Eid;
        [destruct (truthyString (Some id)) eqn:Et|];
        try destruct (container (st_this st)) as [h|] eqn:Ec;
        injection Hstep as <- <-; (split; [reflexivity|]);
        first [ exact I
              | exfalso; destruct Hhas as [Hc|Ht]; [congruence|cbn in Ht; congruence] ]. }
    destruct Hent as [-> Hnc'].
    split; [exact H0|]. split; [exact Hhas|]. apply Forall_insert; [exact Hph|exact Hnc'].
  - destruct (Hconn id) as [c Hr]. rewrite Hr in Hstep.
    injection Hstep as <- <-.
    unfold UpInv.
    cbn [check st_this st_trace set_this log container with_container containerId fst snd].
    split; [rewrite createCalls_snoc; cbn [isCreateCall]; lia|].
    split; [left; discriminate|]. apply Forall_insert; [exact Hph|exact I].
  - rewrite Hrun in Hstep. injection Hstep as <- <-.
    unfold UpInv. cbn [st_this st_trace log release set_lock].
    split; [rewrite createCalls_snoc; cbn [isCreateCall]; lia|].
    split; [exact Hhas|]. apply Forall_insert; [exact Hph|exact I].
  - assert (Hfin : st_trace st' = st_trace st
                   /\ containerId (st_this st') = containerId (st_this st)
                   /\ container (st_this st') = container (st_this st)
                   /\ exists r', ph' = Finished r').
    { unfold finish in Hstep. destruct r as [[]|e].
      - destruct st as [[pid ty' fm tm c cid] tr locks]; cbn in *.
        destruct c as [c|], tm, fm; injection Hstep as <- <-; cbn; eauto 6.
      - injection Hstep as <- <-. eauto 6. }
    destruct Hfin as (Htr & Hid & Hc & r' & ->).
    split; [congruence|]. split; [rewrite Hid, Hc; exact Hhas|].
    apply Forall_insert; [exact Hph|exact I].
  - discriminate.
Qed.

(** A run keeps whatever its stretches keep. *)
Lemma run_sysOf_keeps (P : St -> list Phase -> Prop) (n0 : nat) (fresh : bool)
    (schedule : list TaskId) (st : St) (phases : list Phase) :
  SandboxesStayUp T env ->
  (forall i st st' phases phases',
     AllInv n0 fresh st phases -> P st phases ->
     phasesStep i st phases = Some (st', phases') -> P st' phases') ->
  AllInv n0 fresh st phases ->
  P st phases ->
  exists st' phases',
    run env schedule (sysOf st phases) = sysOf st' phases'
    /\ AllInv n0 fresh st' phases'
    /\ P st' phases'
    /\ length phases' = length phases.
Proof.
  intros Hup Hkeep. revert st phases.
  induction schedule as [|i rest IH]; intros st phases Hinv HP.
  - exists st, phases. cbn. auto.
  - cbn [run]. pose proof Hinv as (Hl & _).
    rewrite step_sim by (destruct Hl; assumption).
    destruct (phasesStep i st phases) as [[st1 phases1]|] eqn:Hstep; cbn [option_map default].
    + destruct (phasesStep_work _ _ _ _ _ Hstep) as [_ Hlen].
      destruct (IH st1 phases1) as (st' & phases' & Hrun & Hinv' & HP' & Hlen').
      { eapply AllInv_step; eauto. }
      { eapply Hkeep; eauto. }
      exists st', phases'. split; [exact Hrun|]. split; [exact Hinv'|].
      split; [exact HP'|congruence].
    + apply IH; assumption.
Qed.

End LoopFacts.

Lemma run_app (env : Env) {A : Type} (a b : list TaskId) (s : Sys A) :
  run env (a ++ b) s = run env b (run env a s).
Proof. revert s. induction a as [|i a IH]; intros s; [reflexivity|]. cbn. apply IH. Qed.

(** [n] calls of [initialize] not yet made are [n] calls in the phase
    [Unstarted]. *)
Lemma spawn_sysOf (T : Z) (n : nat) (st0 : St) :
  spawn n (initialize T) st0
  = sysOf T (projectId (st_this st0)) (type (st_this st0)) st0 (replicate n Unstarted).
Proof.
  unfold spawn, sysOf. f_equal.
  induction n as [|n IH]; [reflexivity|]. cbn. f_equal. exact IH.
Qed.

Lemma work_replicate (n : nat) : work (replicate n Unstarted) = (7 * n)%nat.
Proof. induction n as [|n IH]; cbn [replicate work rank]; lia. Qed.

(** The invariants hold at the start, the lock being free. *)
Lemma AllInv_init (n : nat) (fresh : bool) (st0 : St) :
  lockOf st0 (projectId (st_this st0)) = freeLock ->
  (fresh = true ->
   container (st_this st0) = None
   /\ truthyString (containerId (st_this st0)) = false) ->
  AllInv (projectId (st_this st0)) (type (st_this st0))
    (createCalls (st_trace st0)) fresh st0 (replicate n Unstarted).
Proof.
  intros Hfree Hfresh.
  assert (Hrep : forall i ph, replicate n Unstarted !! i = Some ph -> ph = Unstarted).
  { intros i ph H. apply lookup_replicate in H as [-> _]. reflexivity. }
  split; [|split].
  - split; try reflexivity; rewrite Hfree; cbn [waiters holder freeLock].
    + intros i. split; [intros H; inversion H|].
      intros H. apply Hrep in H. discriminate.
    + constructor.
    + intros i. split; [discriminate|].
      intros (ph & H & Hc). apply Hrep in H. subst. discriminate.
  - left. reflexivity.
  - intros Hf _. destruct (Hfresh Hf) as [Hc Hid]. split; [exact Hc|].
    split; [exact Hid|].
    apply Forall_forall. intros ph Hin.
    apply list_elem_of_lookup in Hin as [i Hi]. left. eapply Hrep. exact Hi.
Qed.

Lemma Forall_replicate_Unstarted (P : Phase -> Prop) (n : nat) :
  P Unstarted -> Forall P (replicate n Unstarted).
Proof. intros H. induction n as [|n IH]; cbn; constructor; assumption. Qed.

(** C1, as amended.  Any number of calls of [initialize()] run concurrently
    on one session whose key is free, against a sandbox service that keeps
    its word (a creation succeeds; a sandbox it created can be connected to
    under its id and reports running).  Under every schedule the keyed
    mutex lets the calls through their critical sections one at a time,
    and at any moment:

    - at most one creation call has been made;
    - the external calls made so far are calls none of which is a
      creation, then possibly the one creation, which succeeded, and after
      it nothing but what follows that creation: writes of the new id to
      the store, calls of [connect] with the new id that return a handle
      of the new sandbox, and calls of [isRunning] on such a handle that
      answer [true].  So the calls that enter after the creation connect
      to the new id and validate it, and none creates another sandbox;
    - exactly one creation call has been made once all calls have
      settled, there being at least one call, provided the session started
      without a handle and without a last-known id, or no sandbox is
      usable before the creation (every [connect] succeeds and every
      handle reports not-running);
    - no creation call has been made, provided the session started with a
      handle or a last-known id and every sandbox is usable (every
      [connect] succeeds and every handle reports running);
    - as long as a call has not settled some call can run, no schedule
      runs more than [7 * n] stretches, and every schedule can be
      continued until all calls have settled. *)
Theorem concurrent_initialize_creates_once (T : Z) (env : Env) (n : nat) (st0 : St)
    (schedule : list TaskId) :
  SandboxesStayUp T env ->
  lockOf st0 (projectId (st_this st0)) = freeLock ->
  let key := projectId (st_this st0) in
  let ty := type (st_this st0) in
  let start := spawn n (initialize T) st0 in
  let s := run env schedule start in
  let before := createCalls (st_trace st0) in
  let now := createCalls (st_trace (sys_st s)) in
  (now = before \/ now = S before)
  /\ (exists new, st_trace (sys_st s) = (st_trace st0 ++ new)%list
                  /\ OneCreation T key ty new)
  /\ ((container (st_this st0) = None
       /\ truthyString (containerId (st_this st0)) = false)
      \/ NothingRunsYet T env before ->
      (1 <= n)%nat -> quiescent s = true -> now = S before)
  /\ (EverythingRuns T env before ->
      container (st_this st0) <> None
      \/ truthyString (containerId (st_this st0)) = true ->
      now = before)
  /\ (quiescent s = false -> canStep env s = true)
  /\ (effective env schedule start <= 7 * n)%nat
  /\ (exists more, quiescent (run env (schedule ++ more) start) = true).
Proof.
  intros Hup Hfree key ty start s before now. subst start s before now.
  rewrite spawn_sysOf. fold key ty.
  assert (Hinit : forall fresh,
            (fresh = true ->
             container (st_this st0) = None
             /\ truthyString (containerId (st_this st0)) = false) ->
            AllInv key ty (createCalls (st_trace st0)) fresh st0 (replicate n Unstarted))
    by (intros fresh Hf; apply AllInv_init; assumption).
  assert (Hlast : forall phases' : list Phase,
            length phases' = length (replicate n Unstarted) -> (1 <= n)%nat ->
            forallb isFinished phases' = true ->
            exists r l, phases' = Finished r :: l).
  { intros phases' Hlen Hn Hq. rewrite length_replicate in Hlen.
    destruct phases' as [|ph l]; [cbn in Hlen; lia|].
    cbn in Hq. apply andb_true_iff in Hq as [Hq _].
    destruct ph; try discriminate. eauto. }
  split; [|split; [|split; [|split; [|split; [|split]]]]].
  - destruct (run_sysOf T key ty env (createCalls (st_trace st0)) false schedule st0 (replicate n Unstarted) Hup)
      as (st' & phases' & -> & (Hl & Hc & _) & Hlen & Heff).
    { apply Hinit. discriminate. }
    cbn [sys_st sysOf]. destruct Hc as [H|[H _]]; auto.
  - destruct (run_sysOf_keeps T key ty env (ShapeInv T key ty (st_trace st0))
                (createCalls (st_trace st0)) false schedule st0 (replicate n Unstarted) Hup)
      as (st' & phases' & -> & _ & (new & Hnew & Hshape) & _).
    { intros i st st' phases phases' (Hl & Hc & _) HP Hstep.
      eapply ShapeInv_step; eauto. }
    { apply Hinit. discriminate. }
    { exists []. split; [rewrite app_nil_r; reflexivity|left; reflexivity]. }
    cbn [sys_st sysOf]. exists new. split; [exact Hnew|].
    destruct Hshape as [H0|(pre & c & post & Hn & Hpre & Hpost & _)]; [left; exact H0|].
    right. exists pre, c, post. auto.
  - intros [[Hc0 Hid0]|Hnone] Hn.
    + destruct (run_sysOf T key ty env (createCalls (st_trace st0)) true schedule st0 (replicate n Unstarted) Hup)
        as (st' & phases' & -> & (Hl & Hc & Hf) & Hlen & Heff).
      { apply Hinit. auto. }
      rewrite quiescent_sysOf. cbn [sys_st sysOf]. intros Hq.
      destruct Hc as [H|[H _]]; [|exact H]. exfalso.
      destruct (Hf eq_refl H) as (_ & _ & Hall).
      destruct (Hlast phases' Hlen Hn Hq) as (r & l & ->).
      apply Forall_cons in Hall as [[H1|[H1|H1]] _]; discriminate.
    + destruct (run_sysOf_keeps T key ty env (NeedInv (createCalls (st_trace st0)))
                  (createCalls (st_trace st0)) false schedule st0 (replicate n Unstarted) Hup)
        as (st' & phases' & -> & (_ & Hc & _) & Hneed & Hlen).
      { intros i st st' phases phases' (_ & Hc & _) HP Hstep.
        exact (NeedInv_step T key ty env _ i st st' phases phases' Hnone
                 (CreateInv_ge _ _ _ Hc) HP Hstep). }
      { apply Hinit. discriminate. }
      { intros _. apply Forall_replicate_Unstarted. exact I. }
      rewrite quiescent_sysOf. cbn [sys_st sysOf]. intros Hq.
      destruct Hc as [H|[H _]]; [|exact H]. exfalso.
      destruct (Hlast phases' Hlen Hn Hq) as (r & l & ->).
      specialize (Hneed H). apply Forall_cons in Hneed as [[] _].
  - intros Hall Hhas.
    destruct (run_sysOf_keeps T key ty env (UpInv (createCalls (st_trace st0)))
                (createCalls (st_trace st0)) false schedule st0 (replicate n Unstarted) Hup)
      as (st' & phases' & -> & _ & (H0 & _) & _).
    { intros i st st' phases phases' _ HP Hstep. eapply UpInv_step; eauto. }
    { apply Hinit. discriminate. }
    { split; [reflexivity|]. split; [exact Hhas|].
      apply Forall_replicate_Unstarted. exact I. }
    cbn [sys_st sysOf]. exact H0.
  - destruct (run_sysOf T key ty env (createCalls (st_trace st0)) false schedule st0 (replicate n Unstarted) Hup)
      as (st' & phases' & -> & (Hl & Hc & _) & Hlen & Heff).
    { apply Hinit. discriminate. }
    rewrite quiescent_sysOf. intros Hq.
    destruct Hl as [Hk Hty ? ? ?] eqn:El.
    apply canStep_sysOf; [exact Hk|exact Hty|].
    eapply LockInv_progress; [|exact Hq]. split; eassumption.
  - destruct (run_sysOf T key ty env (createCalls (st_trace st0)) false schedule st0 (replicate n Unstarted) Hup)
      as (st' & phases' & _ & _ & _ & Heff).
    { apply Hinit. discriminate. }
    rewrite work_replicate in Heff. lia.
  - destruct (run_sysOf T key ty env (createCalls (st_trace st0)) false schedule st0 (replicate n Unstarted) Hup)
      as (st' & phases' & Hrun & Hinv & _ & _).
    { apply Hinit. discriminate. }
    destruct (reach_quiescent T key ty env (createCalls (st_trace st0)) false (work phases') st' phases' Hup
                (le_n _) Hinv) as [more Hmore].
    exists more. rewrite run_app, Hrun. exact Hmore.
Qed.

(* ===================================================================== *)
(** * The properties on sample sessions *)
(* ===================================================================== *)

Lemma scripted_stays_up (T : Z) (extends : bool) :
  SandboxesStayUp T (scripted true true true extends).
Proof.
  split.
  - intros tr template. eexists. reflexivity.
  - intros tr id _. eexists. split; reflexivity.
  - intros tr c _. reflexivity.
Qed.

Lemma createdIds_nil (tr : list Event) :
  createCalls tr = 0%nat -> createdIds tr = [].
Proof.
  unfold createCalls, createdIds.
  induction tr as [|e tr IH]; [reflexivity|].
  destruct e as [c r|sock ev]; [destruct c|]; cbn; try discriminate; exact IH.
Qed.

Lemma onlyCreatedRun_stays_up (T : Z) : SandboxesStayUp T onlyCreatedRun.
Proof.
  split.
  - intros tr template. eexists. reflexivity.
  - intros tr id _. eexists. split; reflexivity.
  - intros tr c Hin. cbn. f_equal. apply existsb_exists.
    exists (sandboxId c). split; [exact Hin|apply String.eqb_refl].
Qed.

Lemma onlyCreatedRun_nothing_runs (T : Z) : NothingRunsYet T onlyCreatedRun 0.
Proof.
  intros tr H0. split.
  - intros id. eexists. reflexivity.
  - intros c. cbn. rewrite (createdIds_nil tr H0). reflexivity.
Qed.

(** Three calls of [initialize()], taken in turn.  On a project never
    provisioned: one creation call once all have settled, within 21
    stretches.  On a project whose sandbox [sbx-old] is on record but has
    stopped: one creation call once all have settled, and the calls made
    are of the shape the theorem gives. *)
Lemma concurrent_initialize_creates_once_witness :
  (let start := spawn 3 (initialize 1000) (sessionOf freshProject) in
   let s := run (scripted true true true true) (roundRobin 3 12) start in
   quiescent s = true
   /\ createCalls (st_trace (sys_st s)) = 1%nat
   /\ (effective (scripted true true true true) (roundRobin 3 12) start <= 21)%nat)
  /\ (let start := spawn 3 (initialize 1000) (sessionOf knownProject) in
      let s := run onlyCreatedRun (roundRobin 3 12) start in
      quiescent s = true
      /\ createCalls (st_trace (sys_st s)) = 1%nat
      /\ exists new, st_trace (sys_st s) = new /\ OneCreation 1000 "p1" "reactjs" new).
Proof.
  cbv zeta. split.
  - pose proof (concurrent_initialize_creates_once 1000 (scripted true true true true)
                  3 (sessionOf freshProject) (roundRobin 3 12)
                  (scripted_stays_up 1000 true) eq_refl) as H.
    cbv zeta in H. destruct H as (_ & _ & Hone & _ & _ & Hbound & _).
    assert (Hq : quiescent (run (scripted true true true true) (roundRobin 3 12)
                              (spawn 3 (initialize 1000) (sessionOf freshProject))) = true)
      by (vm_compute; reflexivity).
    split; [exact Hq|]. split; [|exact Hbound].
    apply Hone; [left; split; reflexivity | lia | exact Hq].
  - pose proof (concurrent_initialize_creates_once 1000 onlyCreatedRun
                  3 (sessionOf knownProject) (roundRobin 3 12)
                  (onlyCreatedRun_stays_up 1000) eq_refl) as H.
    cbv zeta in H. destruct H as (_ & Hshape & Hone & _).
    assert (Hq : quiescent (run onlyCreatedRun (roundRobin 3 12)
                              (spawn 3 (initialize 1000) (sessionOf knownProject))) = true)
      by (vm_compute; reflexivity).
    split; [exact Hq|]. split; [|exact Hshape].
    apply Hone; [right; exact (onlyCreatedRun_nothing_runs 1000) | lia | exact Hq].
Defined.

(** Two calls on a project whose sandbox is on record and running settle
    without any creation call; two calls against a service that refuses to
    create make a creation call each. *)
Lemma exactlyOneCreation_counterexample :
  (let s := run (scripted true true true true) (roundRobin 2 8)
              (spawn 2 (initialize 1000) (sessionOf knownProject)) in
   quiescent s = true /\ createCalls (st_trace (sys_st s)) = 0%nat)
  /\ (let s := run (scripted true true false true) (roundRobin 2 8)
                 (spawn 2 (initialize 1000) (sessionOf freshProject)) in
      quiescent s = true /\ createCalls (st_trace (sys_st s)) = 2%nat)
  /\ ~ exactlyOneCreation.
Proof.
  split; [|split].
  - vm_compute. split; reflexivity.
  - vm_compute. split; reflexivity.
  - intros H.
    specialize (H 1000%Z (scripted true true true true) 2%nat (sessionOf knownProject)
                  (roundRobin 2 8) eq_refl).
    assert (Hq : quiescent (run (scripted true true true true) (roundRobin 2 8)
                   (spawn 2 (initialize 1000) (sessionOf knownProject))) = true)
      by (vm_compute; reflexivity).
    specialize (H ltac:(lia) Hq). vm_compute in H. discriminate H.
Qed.

(** [connect("sbx-old")] fails: [initialize()] throws that failure, having
    made the connect call only. *)
Lemma initialize_connect_failure_propagates_witness :
  exists st',
    exec (scripted false true true true) 0 (initialize 1000) (sessionOf knownProject)
    = (Thrown "sandbox not found", st')
    /\ st_trace st'
       = [Called (Container_connect "sbx-old" (sandboxOpts 1000)) (Err "sandbox not found")]
    /\ createCalls (st_trace st') = 0%nat.
Proof.
  destruct (initialize_connect_failure_propagates 1000 (scripted false true true true) 0%nat
              (sessionOf knownProject) "sbx-old" "sandbox not found"
              eq_refl eq_refl eq_refl eq_refl)
    as (st' & Hrun & _ & Htrace & Hcount & _).
  exists st'. split; [exact Hrun|]. split; [exact Htrace|exact Hcount].
Defined.

Lemma connectFailureTolerated_counterexample :
  fst (exec (scripted false true true true) 0 (initialize 1000) (sessionOf knownProject))
  = Thrown "sandbox not found"
  /\ createCalls (st_trace (snd (exec (scripted false true true true) 0 (initialize 1000)
                                   (sessionOf knownProject)))) = 0%nat
  /\ ~ connectFailureTolerated.
Proof.
  split; [vm_compute; reflexivity|]. split; [vm_compute; reflexivity|].
  intros H.
  destruct (H 1000%Z (scripted false true true true) 0%nat (sessionOf knownProject)
              "sbx-old" "sandbox not found" eq_refl eq_refl eq_refl eq_refl)
    as [Hthrown _].
  apply Hthrown. vm_compute. reflexivity.
Qed.

(** The sandbox on record connects but reports not-running: [initialize()]
    creates [sbx-new] from the template of the project type and writes its
    id to the store once. *)
Lemma initialize_creates_and_persists_witness :
  templateOf "reactjs" = "gitwit-reactjs"
  /\ exists st',
    exec (scripted true false true true) 0 (initialize 1000) (sessionOf knownProject)
    = (Returned tt, st')
    /\ st_trace st'
       = [Called (Container_connect "sbx-old" (sandboxOpts 1000)) (Ok {| sandboxId := "sbx-old" |});
          Called (Container_isRunning {| sandboxId := "sbx-old" |}) (Ok false);
          Called (Container_create "gitwit-reactjs" (sandboxOpts 1000)) (Ok {| sandboxId := "sbx-new" |});
          Called (Db_setContainerId "p1" (Some "sbx-new")) (Ok tt)]
    /\ container (st_this st') = Some {| sandboxId := "sbx-new" |}
    /\ containerId (st_this st') = Some "sbx-new".
Proof.
  destruct (initialize_creates_and_persists 1000 (scripted true false true true) 0%nat
              (sessionOf knownProject)
              (with_container (Some {| sandboxId := "sbx-old" |}) knownProject)
              [Called (Container_connect "sbx-old" (sandboxOpts 1000))
                 (Ok {| sandboxId := "sbx-old" |});
               Called (Container_isRunning {| sandboxId := "sbx-old" |}) (Ok false)]
              eq_refl
              (ConnectedNotRunning 1000 (scripted true false true true) knownProject []
                 "sbx-old" {| sandboxId := "sbx-old" |} eq_refl eq_refl eq_refl eq_refl))
    as (Hknown & _ & _ & Hcreated & _).
  split; [exact (Hknown (or_intror (or_introl eq_refl)))|].
  destruct (Hcreated {| sandboxId := "sbx-new" |} eq_refl)
    as (st' & Hrun & Htrace & Hc & Hid).
  exists st'. split; [exact Hrun|]. split; [exact Htrace|]. split; [exact Hc|exact Hid].
Defined.

(** The sandbox on record connects and reports not-running, and the
    service refuses to create: [initialize()] throws, nothing is written to
    the store, and the stale id [sbx-old] is still the last-known id. *)
Lemma staleIdNeverKept_counterexample :
  (let r := exec (scripted true false false true) 0 (initialize 1000)
              (sessionOf knownProject) in
   fst r = Thrown "quota exceeded"
   /\ containerId (st_this (snd r)) = Some "sbx-old"
   /\ List.filter isDbWrite (st_trace (snd r)) = [])
  /\ ~ staleIdNeverKept.
Proof.
  split.
  - vm_compute. repeat split; reflexivity.
  - intros H.
    destruct (H 1000%Z (scripted true false false true) 0%nat (sessionOf knownProject)
                (with_container (Some {| sandboxId := "sbx-old" |}) knownProject)
                [Called (Container_connect "sbx-old" (sandboxOpts 1000))
                   (Ok {| sandboxId := "sbx-old" |});
                 Called (Container_isRunning {| sandboxId := "sbx-old" |}) (Ok false)]
                eq_refl
                (ConnectedNotRunning 1000 (scripted true false false true) knownProject []
                   "sbx-old" {| sandboxId := "sbx-old" |} eq_refl eq_refl eq_refl eq_refl))
      as (c & Hcreate & _).
    vm_compute in Hcreate. discriminate Hcreate.
Qed.

(** No sandbox on record and the service refuses to create: [initialize()]
    throws the failure of the creation call, the session has no
    multiplexer and no file adapter. *)
Lemma initialize_fails_without_handle_witness :
  let r := exec (scripted true true false true) 0 (initialize 1000) (sessionOf freshProject) in
  (exists (pre : list Event) (c : Call) (e : Error),
      [Called (Container_create "gitwit-reactjs" (sandboxOpts 1000)) (Err "quota exceeded")]
      = (pre ++ [Called c (Err e)])%list
      /\ forallb (fun ev => negb (isFailure ev)) pre = true
      /\ fst r = Thrown e)
  /\ terminalManager (st_this (snd r)) = None
  /\ fileManager (st_this (snd r)) = None
  /\ lockOf (snd r) "p1" = freeLock.
Proof.
  cbv zeta.
  destruct (initialize_fails_without_handle 1000 (scripted true true false true) 0%nat
              (sessionOf freshProject)
              (snd (exec (scripted true true false true) 0 (initialize 1000)
                      (sessionOf freshProject)))
              (fst (exec (scripted true true false true) 0 (initialize 1000)
                      (sessionOf freshProject)))
              [Called (Container_create "gitwit-reactjs" (sandboxOpts 1000))
                 (Err "quota exceeded")]
              eq_refl (surjective_pairing _) eq_refl eq_refl)
    as (Hthrown & Htm & Hfm & _ & _ & _ & Hlock).
  split; [exact Hthrown|]. split; [exact Htm|]. split; [exact Hfm|exact Hlock].
Defined.

(** The sandbox on record connects, reports not-running, and the service
    refuses to create: [initialize()] throws and the session keeps the
    handle that [connect] returned. *)
Lemma failureLeavesNoHandle_counterexample :
  (let r := exec (scripted true false false true) 0 (initialize 1000)
              (sessionOf knownProject) in
   fst r = Thrown "quota exceeded"
   /\ st_trace (snd r)
      = [Called (Container_connect "sbx-old" (sandboxOpts 1000))
           (Ok {| sandboxId := "sbx-old" |});
         Called (Container_isRunning {| sandboxId := "sbx-old" |}) (Ok false);
         Called (Container_create "gitwit-reactjs" (sandboxOpts 1000))
           (Err "quota exceeded")]
   /\ container (st_this (snd r)) = Some {| sandboxId := "sbx-old" |})
  /\ ~ failureLeavesNoHandle.
Proof.
  split.
  - vm_compute. repeat split; reflexivity.
  - intros H.
    destruct (H 1000%Z (scripted true false false true) 0%nat (sessionOf knownProject)
                [Called (Container_connect "sbx-old" (sandboxOpts 1000))
                   (Ok {| sandboxId := "sbx-old" |});
                 Called (Container_isRunning {| sandboxId := "sbx-old" |}) (Ok false);
                 Called (Container_create "gitwit-reactjs" (sandboxOpts 1000))
                   (Err "quota exceeded")]
                eq_refl eq_refl eq_refl eq_refl eq_refl eq_refl)
      as (_ & Hc & _).
    vm_compute in Hc. discriminate Hc.
Qed.

(** A guest's heartbeat makes no call; the owner's returns [false] when
    the extension fails and [true] when it succeeds. *)
Lemma handleHeartbeat_owner_gated_witness :
  exec (scripted true true true false) 0 (handleHeartbeat 1000 guest) (sessionOf liveProject)
  = (Returned true, sessionOf liveProject)
  /\ fst (exec (scripted true true true false) 0 (handleHeartbeat 1000 owner)
            (sessionOf liveProject)) = Returned false
  /\ fst (exec (scripted true true true true) 0 (handleHeartbeat 1000 owner)
            (sessionOf liveProject)) = Returned true.
Proof.
  split; [|split].
  - exact (proj1 (handleHeartbeat_owner_gated 1000 (scripted true true true false) 0%nat
                    guest (sessionOf liveProject)) eq_refl).
  - rewrite (proj2 (handleHeartbeat_owner_gated 1000 (scripted true true true false) 0%nat
                      owner (sessionOf liveProject))
               {| sandboxId := "sbx-old" |} eq_refl eq_refl (Err "sandbox gone") eq_refl).
    reflexivity.
  - rewrite (proj2 (handleHeartbeat_owner_gated 1000 (scripted true true true true) 0%nat
                      owner (sessionOf liveProject))
               {| sandboxId := "sbx-old" |} eq_refl eq_refl (Ok tt) eq_refl).
    reflexivity.
Defined.

(** The owner's heartbeat on a session not yet initialized. *)
Lemma handleHeartbeat_without_handle_witness :
  exec (scripted true true true false) 0 (handleHeartbeat 1000 owner) (sessionOf freshProject)
  = (Returned true, sessionOf freshProject).
Proof.
  exact (handleHeartbeat_without_handle 1000 (scripted true true true false) 0%nat owner
           (sessionOf freshProject) eq_refl eq_refl).
Defined.



(** The example output yields port 3001 and the preview URL of the handle;
    a chunk without a URL yields the [terminalResponse] alone. *)
Lemma extractPortNumber_preview_witness :
  extractPortNumber serverRunning = Some (Num 3001)
  /\ st_trace (snd (exec (scripted true true true true) 0
                      (onTerminalOutput sampleHost {| cb_socket := 1%nat; cb_id := "A" |}
                         serverRunning)
                      (sessionOf liveProject)))
     = [Emitted 1%nat (terminalResponse (Some "A") (Text serverRunning));
        Emitted 1%nat (previewURL "https://sbx-old.sandbox.test")]
  /\ extractPortNumber "added 120 packages in 3s" = None.
Proof.
  pose proof (extractPortNumber_preview sampleHost (scripted true true true true) 0%nat)
    as (Hport & Hpreview & Hnone & _).
  split; [exact Hport|]. split.
  - rewrite (Hpreview {| cb_socket := 1%nat; cb_id := "A" |} {| sandboxId := "sbx-old" |}
               (sessionOf liveProject) eq_refl).
    reflexivity.
  - apply Hnone. apply extractPortNumber_None. vm_compute. reflexivity.
Defined.

(** A development server prints the port in bold: the input holds no
    [http://localhost:] followed by a digit, yet the port is extracted. *)
Lemma noPortWithoutUrlInInput_counterexample :
  ~ hasLocalhostUrl coloredPort
  /\ extractPortNumber coloredPort = Some (Num 5173)
  /\ ~ noPortWithoutUrlInInput.
Proof.
  assert (Hn : ~ hasLocalhostUrl coloredPort).
  { apply matchLocalhost_None. vm_compute. reflexivity. }
  assert (Hp : extractPortNumber coloredPort = Some (Num 5173))
    by (vm_compute; reflexivity).
  split; [exact Hn|]. split; [exact Hp|].
  intros H. specialize (H coloredPort Hn). rewrite Hp in H. discriminate H.
Qed.

(* ===================================================================== *)
(** * The earlier server *)
(* ===================================================================== *)

(** C7.  The [terminalData] handler of [index.ts] on the empty table: for
    the id [ghost] it returns having done nothing, for the id
    [constructor], which is not registered either, the guard
    [!terminals[id]] lets the call through and [terminals[id].write(data)]
    throws a [TypeError]. *)
Theorem legacy_terminalData_unregistered_id :
  Legacy.onTerminalData "ghost" "ls" Legacy.start = Ok Legacy.start
  /\ Legacy.terminals Legacy.start !! "constructor" = None
  /\ Legacy.onTerminalData "constructor" "ls" Legacy.start
     = Err "TypeError: terminals[id].write is not a function".
Proof. split; [|split]; vm_compute; reflexivity. Qed.

(** C8.  On the server of [index.ts], the output of the shell created
    under the logical id [A] reaches the socket as a [terminalResponse]
    that carries no id: [Pty.send] emits [{ data }] only. *)
Theorem legacy_terminalResponse_untagged :
  option_map (fun sv => Legacy.effects (Legacy.onProcessData "A" "hello" sv))
    (Legacy.onCreateTerminal "linux" 1%nat "A" 7%nat Legacy.start)
  = Some [Legacy.Spawned "bash" 7%nat;
          Legacy.Sent 1%nat (terminalResponse None (BufferFrom "hello"))].
Proof. vm_compute. reflexivity. Qed.
(* ===================================================================== *)
(** * Further properties of the code *)
(* ===================================================================== *)

(** ** [joinUrl] *)

Lemma append_String (c : ascii) (a b : string) : String c a ++ b = String c (a ++ b).
Proof. reflexivity. Qed.

Lemma append_Empty (b : string) : EmptyString ++ b = b.
Proof. reflexivity. Qed.

Lemma singleSlashes_substring (s : string) :
  singleSlashes s = true -> forall pre post, s <> pre ++ "//" ++ post.
Proof.
  induction s as [|c s IH]; intros Hs pre post Heq.
  - destruct pre; discriminate.
  - destruct pre as [|p pre].
    + rewrite append_Empty, !append_String in Heq. injection Heq as -> ->.
      cbn in Hs. discriminate.
    + rewrite append_String in Heq. injection Heq as -> ->.
      apply (IH ltac:(cbn [singleSlashes] in Hs; destruct (pre ++ "//" ++ post);
                      [reflexivity | apply andb_true_iff in Hs; apply Hs])
                pre post eq_refl).
Qed.

Lemma collapseSlashes_head (c : ascii) (s : string) :
  exists r, Api.collapseSlashes (String c s) = String c r.
Proof.
  revert c. induction s as [|c' s IH]; intros c.
  - eexists; reflexivity.
  - cbn [Api.collapseSlashes]. destruct (Api.isSlash c && Api.isSlash c') eqn:E.
    + apply andb_true_iff in E as [Hc Hc'].
      destruct (IH c') as [r Hr]. cbn [Api.collapseSlashes] in Hr. rewrite Hr.
      unfold Api.isSlash in Hc, Hc'. apply Ascii.eqb_eq in Hc, Hc'. subst.
      eexists; reflexivity.
    + eexists; reflexivity.
Qed.

Lemma collapseSlashes_single (s : string) : singleSlashes (Api.collapseSlashes s) = true.
Proof.
  induction s as [|c s IH]; [reflexivity|].
  destruct s as [|c' s]; [reflexivity|].
  cbn [Api.collapseSlashes]. destruct (Api.isSlash c && Api.isSlash c') eqn:E.
  - exact IH.
  - destruct (collapseSlashes_head c' s) as [r Hr].
    cbn [Api.collapseSlashes] in Hr, IH. rewrite Hr in *.
    cbn [singleSlashes]. rewrite E. exact IH.
Qed.

Lemma collapseSlashes_id (s : string) :
  singleSlashes s = true -> Api.collapseSlashes s = s.
Proof.
  induction s as [|c s IH]; [reflexivity|].
  destruct s as [|c' s]; [reflexivity|].
  intros H. cbn [singleSlashes] in H. apply andb_true_iff in H as [H1 H2].
  cbn [Api.collapseSlashes]. apply negb_true_iff in H1. rewrite H1.
  f_equal. apply IH. exact H2.
Qed.

Lemma allSlashes_app (a b : string) :
  Api.allSlashes (a ++ b) = Api.allSlashes a && Api.allSlashes b.
Proof.
  induction a as [|c a IH]; [reflexivity|].
  rewrite append_String. cbn [Api.allSlashes]. rewrite IH. apply andb_assoc.
Qed.

Lemma dropSlashes_allSlashes (a : string) :
  Api.allSlashes a = true -> Api.dropSlashes a = EmptyString.
Proof.
  induction a as [|c a IH]; [reflexivity|].
  cbn. destruct (Api.isSlash c); [exact IH|discriminate].
Qed.

Lemma dropSlashes_app (a s : string) :
  Api.allSlashes a = true -> Api.dropSlashes (a ++ s) = Api.dropSlashes s.
Proof.
  induction a as [|c a IH]; [reflexivity|].
  rewrite append_String. cbn. destruct (Api.isSlash c); [exact IH|discriminate].
Qed.

Lemma dropTrailingSlashes_app (s b : string) :
  Api.allSlashes b = true ->
  Api.dropTrailingSlashes (s ++ b) = Api.dropTrailingSlashes s.
Proof.
  intros Hb. induction s as [|c s IH].
  - rewrite append_Empty. destruct b as [|c b]; [reflexivity|].
    cbn in *. rewrite Hb. reflexivity.
  - rewrite append_String. cbn [Api.dropTrailingSlashes].
    rewrite allSlashes_app, Hb, andb_true_r, IH. reflexivity.
Qed.

Lemma trimSlashes_padded (p q : string) :
  padded p q -> Api.trimSlashes q = Api.trimSlashes p.
Proof.
  intros (a & b & Ha & Hb & ->). unfold Api.trimSlashes.
  rewrite dropSlashes_app by exact Ha.
  induction p as [|c p IH].
  - rewrite append_Empty, dropSlashes_allSlashes by exact Hb. reflexivity.
  - rewrite append_String. cbn [Api.dropSlashes].
    destruct (Api.isSlash c); [exact IH|].
    rewrite <- append_String.
    apply dropTrailingSlashes_app. exact Hb.
Qed.

Lemma dropTrailingSlashes_slashFree (p : string) :
  slashFree p = true -> Api.dropTrailingSlashes p = p.
Proof.
  induction p as [|c p IH]; [reflexivity|].
  cbn. intros H. apply andb_true_iff in H as [Hc Hp].
  apply negb_true_iff in Hc. rewrite Hc. cbn. f_equal. apply IH. exact Hp.
Qed.

Lemma trimSlashes_slashFree (p : string) :
  slashFree p = true -> Api.trimSlashes p = p.
Proof.
  unfold Api.trimSlashes. intros H.
  assert (Hd : Api.dropSlashes p = p).
  { destruct p as [|c p]; [reflexivity|]. cbn in *.
    destruct (Api.isSlash c); [discriminate|reflexivity]. }
  rewrite Hd. apply dropTrailingSlashes_slashFree. exact H.
Qed.

Lemma singleSlashes_slashFree (p : string) :
  slashFree p = true -> singleSlashes p = true.
Proof.
  induction p as [|c p IH]; [reflexivity|].
  cbn [slashFree singleSlashes]. intros H. apply andb_true_iff in H as [Hc Hp].
  destruct p; [reflexivity|]. apply negb_true_iff in Hc. rewrite Hc. cbn. auto.
Qed.

Lemma singleSlashes_segment_app (p q : string) :
  slashFree p = true -> singleSlashes q = true -> startsWithSlash q = false ->
  singleSlashes (p ++ String "/" q) = true.
Proof.
  intros Hp Hq Hs. induction p as [|c p IH].
  - rewrite append_Empty. cbn [singleSlashes]. destruct q as [|c' q]; [reflexivity|].
    cbn in Hs. rewrite Hs, andb_false_r. cbn. exact Hq.
  - cbn in Hp. apply andb_true_iff in Hp as [Hc Hp]. apply negb_true_iff in Hc.
    rewrite append_String. cbn [singleSlashes]. specialize (IH Hp).
    destruct (p ++ String "/" q) as [|c' r] eqn:E; [reflexivity|].
    rewrite Hc. cbn. exact IH.
Qed.

Lemma concat_segments (parts : list string) :
  Forall (fun p => isSegment p = true) parts ->
  singleSlashes (String.concat "/" parts) = true
  /\ startsWithSlash (String.concat "/" parts) = false.
Proof.
  induction 1 as [|p parts Hp Hparts [IH1 IH2]]; [split; reflexivity|].
  unfold isSegment in Hp. apply andb_true_iff in Hp as [Hne Hfree].
  assert (Hstart : forall r, startsWithSlash (p ++ r) = false).
  { intros r. destruct p as [|c p]; [discriminate|]. rewrite append_String. cbn in *.
    apply andb_true_iff in Hfree as [Hc _]. apply negb_true_iff in Hc. exact Hc. }
  cbn [String.concat]. destruct parts as [|p' parts].
  - split; [apply singleSlashes_slashFree; exact Hfree|].
    destruct p as [|c p]; [discriminate|]. cbn in *.
    apply andb_true_iff in Hfree as [Hc _]. apply negb_true_iff in Hc. exact Hc.
  - split; [|apply Hstart].
    change ("/" ++ String.concat "/" (p' :: parts))
      with (String "/" (String.concat "/" (p' :: parts))).
    apply singleSlashes_segment_app; assumption.
Qed.

Lemma startsWithSlash_collapseSlashes (s : string) :
  startsWithSlash (Api.collapseSlashes s) = startsWithSlash s.
Proof.
  destruct s as [|c s]; [reflexivity|].
  destruct (collapseSlashes_head c s) as [r ->]. reflexivity.
Qed.

Lemma startsWithSlash_trimSlashes (p r : string) :
  Api.trimSlashes p <> EmptyString -> startsWithSlash (Api.trimSlashes p ++ r) = false.
Proof.
  unfold Api.trimSlashes. induction p as [|c p IH]; [intros H; contradiction|].
  cbn [Api.dropSlashes]. destruct (Api.isSlash c) eqn:E; [exact IH|].
  cbn [Api.dropTrailingSlashes]. rewrite E. cbn [andb]. intros _.
  rewrite append_String. cbn. exact E.
Qed.

(** X1.  Whatever the parts, the result has no two slashes in a row: [//] is
    collapsed wherever it comes from, the separator of a scheme
    ([http://]) included. *)
Theorem joinUrl_single_slashes (parts : list string) :
  singleSlashes (Api.joinUrl parts) = true
  /\ forall pre post, Api.joinUrl parts <> pre ++ "//" ++ post.
Proof.
  split; [apply collapseSlashes_single|].
  apply singleSlashes_substring, collapseSlashes_single.
Qed.

(** X2.  Slashes in front of a part and behind it do not count. *)
Theorem joinUrl_padded (parts parts' : list string) :
  Forall2 padded parts parts' -> Api.joinUrl parts' = Api.joinUrl parts.
Proof.
  intros H. unfold Api.joinUrl. f_equal. f_equal.
  induction H as [|p q parts parts' Hpq _ IH]; [reflexivity|].
  cbn [map]. rewrite IH, (trimSlashes_padded p q Hpq). reflexivity.
Qed.

(** X3.  Path segments are joined by single slashes and nothing else happens
    to them. *)
Theorem joinUrl_segments (parts : list string) :
  Forall (fun p => isSegment p = true) parts ->
  Api.joinUrl parts = String.concat "/" parts.
Proof.
  intros H. unfold Api.joinUrl.
  assert (Hmap : map Api.trimSlashes parts = parts).
  { induction H as [|p parts Hp _ IH]; [reflexivity|].
    cbn [map]. rewrite IH. f_equal. apply trimSlashes_slashFree.
    unfold isSegment in Hp. apply andb_true_iff in Hp. apply Hp. }
  rewrite Hmap. apply collapseSlashes_id. apply concat_segments. exact H.
Qed.

(** X4.  The result starts with a slash exactly when the first part is empty
    or made of slashes only, and something follows it. *)
Theorem joinUrl_leading_slash (p : string) (rest : list string) :
  startsWithSlash (Api.joinUrl (p :: rest))
  = String.eqb (Api.trimSlashes p) EmptyString
    && match rest with [] => false | _ => true end.
Proof.
  unfold Api.joinUrl. rewrite startsWithSlash_collapseSlashes.
  cbn [map String.concat].
  destruct (String.eqb_spec (Api.trimSlashes p) EmptyString) as [He|Hne].
  - rewrite He. destruct rest; reflexivity.
  - cbn [andb]. destruct rest as [|q rest].
    + cbn [map]. rewrite <- (startsWithSlash_trimSlashes p EmptyString Hne).
      f_equal. clear. induction (Api.trimSlashes p) as [|c s IH]; [reflexivity|].
      rewrite append_String, <- IH. reflexivity.
    + cbn [map]. apply startsWithSlash_trimSlashes. exact Hne.
Qed.

(** X5.  The URL that [request] fetches has no two slashes in a row, and a
    header of the caller replaces the default of the same name, the
    bearer token included. *)
Theorem request_url_and_headers {TBody : Type} (BACKEND_URL jwt : string)
    (stringify : TBody -> string) (method : Api.HTTPMethod) (url : string)
    (options : Api.RequestOptions TBody) :
  let call := Api.request BACKEND_URL jwt stringify method url options in
  (forall pre post, Api.fetch_url call <> pre ++ "//" ++ post)
  /\ (forall (given : gmap string string) (name value : string),
        Api.headers options = Some given -> given !! name = Some value ->
        Api.fetch_headers call !! name = Some value)
  /\ (forall name,
        (forall given, Api.headers options = Some given -> given !! name = None) ->
        Api.fetch_headers call !! name
        = ({[ "Authorization" := "Bearer " ++ jwt;
              "Content-Type" := "application/json" ]} : gmap string string) !! name).
Proof.
  cbv zeta. split; [|split].
  - apply joinUrl_single_slashes.
  - intros given name value Hg Hn. cbn [Api.request Api.fetch_headers].
    unfold Api.requestHeaders. rewrite Hg. cbn [default].
    apply lookup_union_Some_l. exact Hn.
  - intros name Hnone. cbn [Api.request Api.fetch_headers].
    unfold Api.requestHeaders. apply lookup_union_r.
    destruct (Api.headers options) as [given|]; cbn [default].
    + apply Hnone. reflexivity.
    + apply lookup_empty.
Qed.

(** ** The handshake and the file handlers of the earlier server *)

Lemma find_In_ids (id : string) (l : list LegacySession.Sandbox) :
  (exists s, List.find (fun s => String.eqb (LegacySession.sb_id s) id) l = Some s)
  <-> In id (map LegacySession.sb_id l).
Proof.
  induction l as [|s l IH]; cbn.
  - split; [intros [s [=]] | intros []].
  - destruct (String.eqb_spec (LegacySession.sb_id s) id) as [He|Hne].
    + split; [intros _; left; exact He | intros _; eexists; reflexivity].
    + rewrite IH. split; [intros H; right; exact H | intros [H|H]; [contradiction|exact H]].
Qed.

(** X6.  A connection is accepted exactly when the query holds the four
    strings, the database knows the user, and the sandbox asked for is one
    of that user's; [socket.data] then names that sandbox and that user.  A
    query that does not parse is refused before the database is asked. *)
Theorem authenticate_accepts_own_sandboxes
    (fetchUser : string -> Result (option LegacySession.User))
    (q : gmap string LegacySession.QueryValue) :
  (forall data,
     LegacySession.authenticate fetchUser q = LegacySession.Accepted data
     <-> exists userId sandboxId eio transport user,
           q !! "userId" = Some (LegacySession.QString userId)
           /\ q !! "sandboxId" = Some (LegacySession.QString sandboxId)
           /\ q !! "EIO" = Some (LegacySession.QString eio)
           /\ q !! "transport" = Some (LegacySession.QString transport)
           /\ fetchUser userId = Ok (Some user)
           /\ In sandboxId (map LegacySession.sb_id (LegacySession.sandbox user))
           /\ data = {| LegacySession.sd_id := sandboxId;
                        LegacySession.sd_userId := userId |})
  /\ (LegacySession.safeParse q = None ->
      forall fetchUser',
        LegacySession.authenticate fetchUser' q = LegacySession.Refused "Invalid request.").
Proof.
  split.
  - intros data. unfold LegacySession.authenticate, LegacySession.safeParse.
    split.
    + destruct (q !! "userId") as [[u|]|]; cbn; try discriminate.
      destruct (q !! "sandboxId") as [[s|]|]; cbn; try discriminate.
      destruct (q !! "EIO") as [[e|]|]; cbn; try discriminate.
      destruct (q !! "transport") as [[t|]|]; cbn; try discriminate.
      destruct (fetchUser u) as [[user|]|err] eqn:Hf; try discriminate.
      destruct (List.find _ _) as [sb|] eqn:Hfind; try discriminate.
      intros [= <-]. exists u, s, e, t, user.
      repeat split; try reflexivity; [exact Hf|].
      apply find_In_ids. eauto.
    + intros (u & s & e & t & user & -> & -> & -> & -> & Hf & Hin & ->). cbn.
      rewrite Hf. apply find_In_ids in Hin as [sb Hsb]. rewrite Hsb. reflexivity.
  - intros Hnone fetchUser'. unfold LegacySession.authenticate. rewrite Hnone.
    reflexivity.
Qed.

Lemma findFile_In (a : string) (l : list LegacySession.FileData) :
  LegacySession.findFile a l = None <-> ~ In a (map LegacySession.fd_id l).
Proof.
  unfold LegacySession.findFile. induction l as [|f l IH]; cbn.
  - split; [intros _ [] | reflexivity].
  - destruct (String.eqb_spec (LegacySession.fd_id f) a) as [He|Hne].
    + split; [discriminate | intros H; exfalso; apply H; left; exact He].
    + rewrite IH. split; [intros H [H1|H1]; [contradiction | exact (H H1)]
                         | intros H H1; apply H; right; exact H1].
Qed.

Lemma findFile_id (a : string) (l : list LegacySession.FileData)
    (f : LegacySession.FileData) :
  LegacySession.findFile a l = Some f -> LegacySession.fd_id f = a.
Proof.
  unfold LegacySession.findFile. intros H. apply find_some in H as [_ H].
  apply String.eqb_eq. exact H.
Qed.

Lemma findFile_updateFound_same (a : string)
    (change : LegacySession.FileData -> LegacySession.FileData)
    (l : list LegacySession.FileData) (f : LegacySession.FileData) :
  LegacySession.findFile a l = Some f ->
  LegacySession.fd_id (change f) = a ->
  LegacySession.findFile a (LegacySession.updateFound a change l) = Some (change f).
Proof.
  unfold LegacySession.findFile. intros Hfind Hid.
  induction l as [|g l IH]; [discriminate|].
  cbn in *. destruct (String.eqb_spec (LegacySession.fd_id g) a) as [He|Hne].
  - injection Hfind as ->. cbn. rewrite Hid, String.eqb_refl. reflexivity.
  - cbn. destruct (String.eqb_spec (LegacySession.fd_id g) a); [contradiction|].
    apply IH. exact Hfind.
Qed.

Lemma findFile_updateFound_other (a x : string)
    (change : LegacySession.FileData -> LegacySession.FileData)
    (l : list LegacySession.FileData) :
  x <> a ->
  (forall f, LegacySession.fd_id f = a -> LegacySession.fd_id (change f) <> x) ->
  LegacySession.findFile x (LegacySession.updateFound a change l)
  = LegacySession.findFile x l.
Proof.
  unfold LegacySession.findFile. intros Hx Hch.
  induction l as [|g l IH]; [reflexivity|].
  cbn. destruct (String.eqb_spec (LegacySession.fd_id g) a) as [He|Hne].
  - cbn. destruct (String.eqb_spec (LegacySession.fd_id (change g)) x) as [H1|H1].
    + exfalso. exact (Hch g He H1).
    + destruct (String.eqb_spec (LegacySession.fd_id g) x); [congruence|reflexivity].
  - cbn. destruct (String.eqb (LegacySession.fd_id g) x); [reflexivity|exact IH].
Qed.

Lemma ids_updateFound_data (a body : string) (l : list LegacySession.FileData) :
  map LegacySession.fd_id
    (LegacySession.updateFound a
       (fun f => {| LegacySession.fd_id := LegacySession.fd_id f;
                    LegacySession.fd_data := body |}) l)
  = map LegacySession.fd_id l.
Proof.
  induction l as [|g l IH]; [reflexivity|].
  cbn. destruct (String.eqb (LegacySession.fd_id g) a); cbn; [reflexivity|].
  f_equal. exact IH.
Qed.

(** X7.  Saving a file the connection holds makes [getFile] answer the new
    body, sends one write to the store and changes no other file; saving
    an id the connection does not hold does nothing at all. *)
Theorem saveFile_then_getFile (a body : string) (s : LegacySession.Files) :
  (In a (fileIds s) ->
     LegacySession.onGetFile a (LegacySession.onSaveFile a body s) = Some body
     /\ LegacySession.stored (LegacySession.onSaveFile a body s)
        = (LegacySession.stored s ++ [LegacySession.StoreSave a body])%list)
  /\ (~ In a (fileIds s) -> LegacySession.onSaveFile a body s = s)
  /\ (forall x, x <> a ->
        LegacySession.onGetFile x (LegacySession.onSaveFile a body s)
        = LegacySession.onGetFile x s)
  /\ fileIds (LegacySession.onSaveFile a body s) = fileIds s.
Proof.
  unfold fileIds, LegacySession.onSaveFile, LegacySession.onGetFile.
  split; [|split; [|split]].
  - intros Hin. destruct (LegacySession.findFile a (LegacySession.fileData s)) as [f|] eqn:Hf.
    + cbn [LegacySession.fileData LegacySession.stored].
      erewrite findFile_updateFound_same;
        [|exact Hf|cbn; eapply findFile_id; exact Hf].
      split; reflexivity.
    + apply findFile_In in Hf. contradiction.
  - intros Hnin. apply findFile_In in Hnin. rewrite Hnin. reflexivity.
  - intros x Hx. destruct (LegacySession.findFile a (LegacySession.fileData s)) as [f|] eqn:Hf;
      [|reflexivity].
    cbn [LegacySession.fileData].
    rewrite findFile_updateFound_other; [reflexivity | exact Hx |].
    intros g Hg. cbn. congruence.
  - destruct (LegacySession.findFile a (LegacySession.fileData s)); [|reflexivity].
    cbn [LegacySession.fileData]. apply ids_updateFound_data.
Qed.

Lemma ids_updateFound_rename (a b : string) (l : list LegacySession.FileData) :
  In a (map LegacySession.fd_id l) ->
  exists l1 l2,
    map LegacySession.fd_id l = (l1 ++ a :: l2)%list
    /\ ~ In a l1
    /\ map LegacySession.fd_id
         (LegacySession.updateFound a
            (fun f => {| LegacySession.fd_id := b;
                         LegacySession.fd_data := LegacySession.fd_data f |}) l)
       = (l1 ++ b :: l2)%list.
Proof.
  induction l as [|g l IH]; [intros []|].
  cbn. destruct (String.eqb_spec (LegacySession.fd_id g) a) as [He|Hne].
  - intros _. exists [], (map LegacySession.fd_id l). cbn. rewrite He. auto.
  - intros [H|H]; [contradiction|].
    destruct (IH H) as (l1 & l2 & E1 & Hn & E2).
    exists (LegacySession.fd_id g :: l1), l2. cbn. rewrite E1, E2.
    split; [reflexivity|]. split; [|reflexivity].
    intros [H1|H1]; [contradiction|exact (Hn H1)].
Qed.

(** X8.  Renaming a file to a name no file has moves its content under the new
    name, tells the store, leaves every other file alone, and keeps the
    ids distinct when they were.  The handler does not look whether the
    new name is taken: renaming onto the id of another file leaves two
    files with one id. *)
Theorem renameFile_moves_or_collides (a b : string) (s : LegacySession.Files) :
  (forall d, LegacySession.onGetFile a s = Some d -> ~ In b (fileIds s) ->
     LegacySession.onGetFile b (LegacySession.onRenameFile a b s) = Some d
     /\ LegacySession.stored (LegacySession.onRenameFile a b s)
        = (LegacySession.stored s ++ [LegacySession.StoreRename a b d])%list
     /\ (NoDup (fileIds s) ->
         NoDup (fileIds (LegacySession.onRenameFile a b s))
         /\ LegacySession.onGetFile a (LegacySession.onRenameFile a b s) = None))
  /\ (~ In a (fileIds s) -> LegacySession.onRenameFile a b s = s)
  /\ (forall x, x <> a -> x <> b ->
        LegacySession.onGetFile x (LegacySession.onRenameFile a b s)
        = LegacySession.onGetFile x s)
  /\ (In a (fileIds s) -> In b (fileIds s) -> a <> b ->
      ~ NoDup (fileIds (LegacySession.onRenameFile a b s))).
Proof.
  unfold fileIds, LegacySession.onRenameFile, LegacySession.onGetFile.
  split; [|split; [|split]].
  - intros d Hd Hb.
    destruct (LegacySession.findFile a (LegacySession.fileData s)) as [f|] eqn:Hf;
      [|discriminate].
    injection Hd as <-. cbn [LegacySession.fileData LegacySession.stored].
    assert (Hina : In a (map LegacySession.fd_id (LegacySession.fileData s))).
    { destruct (in_dec String.string_dec a
                  (map LegacySession.fd_id (LegacySession.fileData s))) as [H|H];
        [exact H|]. apply findFile_In in H. congruence. }
    assert (Hab : a <> b) by (intros ->; contradiction).
    destruct (ids_updateFound_rename a b _ Hina) as (l1 & l2 & E1 & Hn1 & E2).
    split; [|split; [reflexivity|]].
    + clear E1 E2 Hn1 Hina. revert Hf Hb.
      generalize (LegacySession.fileData s). unfold LegacySession.findFile.
      induction l as [|g l IH]; [discriminate|].
      cbn. destruct (String.eqb_spec (LegacySession.fd_id g) a) as [He|Hne].
      * intros [= ->] _. cbn. rewrite String.eqb_refl. reflexivity.
      * intros Hfind Hnb. cbn.
        destruct (String.eqb_spec (LegacySession.fd_id g) b) as [He'|_].
        { exfalso. apply Hnb. left. exact He'. }
        apply IH; [exact Hfind|]. intros H. apply Hnb. right. exact H.
    + intros Hnd. rewrite E1 in Hnd, Hb. 
      assert (Hnd' : NoDup (l1 ++ b :: l2)).
      { apply NoDup_app in Hnd as (Hd1 & Hd12 & Hd2).
        apply NoDup_cons in Hd2 as [Ha2 Hd2].
        apply NoDup_app. split; [exact Hd1|]. split.
        - intros x Hx1 Hx2. apply list_elem_of_In in Hx2.
          destruct Hx2 as [<-|Hx2].
          + apply Hb. apply in_or_app. left. apply list_elem_of_In. exact Hx1.
          + apply (Hd12 x Hx1). right. apply list_elem_of_In. exact Hx2.
        - apply NoDup_cons. split; [|exact Hd2].
          intros H. apply Hb. apply in_or_app. right. right.
          apply list_elem_of_In. exact H. }
      split; [rewrite E2; exact Hnd'|].
      match goal with
      | |- match ?x with _ => _ end = None => destruct x as [g|] eqn:Hg
      end; [|reflexivity].
      exfalso.
      assert (Hin : In a (l1 ++ b :: l2)).
      { rewrite <- E2.
        destruct (in_dec String.string_dec a
                    (map LegacySession.fd_id
                       (LegacySession.updateFound a
                          (fun f0 => {| LegacySession.fd_id := b;
                                        LegacySession.fd_data := LegacySession.fd_data f0 |})
                          (LegacySession.fileData s)))) as [H|H]; [exact H|].
        apply findFile_In in H. congruence. }
      apply in_app_or in Hin as [H|[H|H]]; [exact (Hn1 H) | congruence |].
      apply NoDup_app in Hnd as (_ & _ & Hd2).
      apply NoDup_cons in Hd2 as [Ha2 _]. apply Ha2. apply list_elem_of_In. exact H.
  - intros Hnin. apply findFile_In in Hnin. rewrite Hnin. reflexivity.
  - intros x Hxa Hxb.
    destruct (LegacySession.findFile a (LegacySession.fileData s)) as [f|] eqn:Hf;
      [|reflexivity].
    cbn [LegacySession.fileData].
    rewrite findFile_updateFound_other; [reflexivity | exact Hxa |].
    intros g _. cbn. congruence.
  - intros Hina Hinb Hab.
    destruct (LegacySession.findFile a (LegacySession.fileData s)) as [f|] eqn:Hf.
    + cbn [LegacySession.fileData].
      destruct (ids_updateFound_rename a b _ Hina) as (l1 & l2 & E1 & Hn1 & E2).
      rewrite E2. rewrite E1 in Hinb. intros Hnd.
      apply NoDup_app in Hnd as (_ & Hd12 & Hd2).
      apply NoDup_cons in Hd2 as [Hb2 _].
      apply in_app_or in Hinb as [H|[H|H]].
      * apply (Hd12 b); [apply list_elem_of_In; exact H | left].
      * congruence.
      * apply Hb2. apply list_elem_of_In. exact H.
    + apply findFile_In in Hf. contradiction.
Qed.

(** ** The table of terminals of the earlier server *)

(** X9.  Once [createTerminal] has registered a shell under an id, input for
    that id is written to that shell and its output is sent on the socket
    that created it, whatever was registered under the id before, by this
    connection or another; the other ids answer as before. *)
Theorem legacy_createTerminal_routes (platform : string) (socket : Socket)
    (id : string) (pid : Pid) (sv sv' : Legacy.Server) :
  Legacy.onCreateTerminal platform socket id pid sv = Some sv' ->
  (forall data,
     Legacy.onTerminalData id data sv'
     = Ok {| Legacy.terminals := Legacy.terminals sv';
             Legacy.effects := (Legacy.effects sv' ++ [Legacy.Wrote pid data])%list |})
  /\ (forall data,
        Legacy.effects (Legacy.onProcessData id data sv')
        = (Legacy.effects sv'
           ++ [Legacy.Sent socket (terminalResponse None (BufferFrom data))])%list)
  /\ (forall id', id' <> id -> Legacy.getTerminal sv' id' = Legacy.getTerminal sv id').
Proof.
  unfold Legacy.onCreateTerminal. destruct (String.eqb id "__proto__"); [discriminate|].
  intros [= <-]. split; [|split].
  - intros data. unfold Legacy.onTerminalData, Legacy.getTerminal.
    cbn [Legacy.terminals]. rewrite lookup_insert_eq. reflexivity.
  - intros data. unfold Legacy.onProcessData. cbn [Legacy.terminals].
    rewrite lookup_insert_eq. reflexivity.
  - intros id' Hne. unfold Legacy.getTerminal. cbn [Legacy.terminals].
    rewrite lookup_insert_ne by congruence. reflexivity.
Qed.





(** ** The file, deployment and inventory handlers *)

(** X11.  The five rate-limited file operations first charge one point to their
    limiter under the user's id.  When the limiter refuses, the refusal is
    thrown and the file adapter is not called.  The point is charged also
    when the session has no file adapter: the handler then answers
    [undefined] (the creations [{ success: undefined }]).  Otherwise the one
    call on the adapter follows and its answer or failure is the
    handler's. *)
Theorem limited_file_operations (connection : Connection) (op : LimitedOp)
    (answer : list Operations.Made -> Operations.Op -> Result Operations.Value)
    (this : Project) (made : list Operations.Made) :
  let consume := Operations.RateLimiter_consume (limiterOf op) (userId connection) 1 in
  let run := Operations.perform answer this (limitedHandler connection op) made in
  match answer made consume with
  | Err e => run = (Thrown e, made ++ [did consume (Err e)])
  | Ok q =>
      let made1 := made ++ [did consume (Ok q)] in
      match fileManager this with
      | None => run = (Returned (limitedAnswer op Operations.VUndefined), made1)
      | Some fm =>
          match answer made1 (limitedCall fm op) with
          | Ok v =>
              run = (Returned (limitedAnswer op v),
                     made1 ++ [did (limitedCall fm op) (Ok v)])
          | Err e => run = (Thrown e, made1 ++ [did (limitedCall fm op) (Err e)])
          end
      end
  end%list.
Proof.
  cbv zeta. unfold did.
  destruct op; cbn [limitedHandler limiterOf limitedCall limitedAnswer];
    unfold Operations.handleSaveFile, Operations.handleCreateFile,
           Operations.handleCreateFolder, Operations.handleRenameFile,
           Operations.handleDeleteFile, Operations.viaFileManager, Operations.awaitOp;
    cbn [Operations.perform];
    (destruct (answer made _) as [q|e]; [|reflexivity]);
    cbn [Operations.perform];
    (destruct (fileManager this) as [fm|]; [|reflexivity]);
    cbn [Operations.perform];
    destruct (answer _ _) as [v|e]; reflexivity.
Qed.

(** X12.  Reading a file or a folder, moving a file and deleting a folder pass
    no rate limiter: the handler makes the one call on the file adapter
    and nothing else, and without a file adapter it makes no call and
    answers [undefined]. *)
Theorem direct_file_operations (op : DirectOp)
    (answer : list Operations.Made -> Operations.Op -> Result Operations.Value)
    (this : Project) (made : list Operations.Made) :
  let run := Operations.perform answer this (directHandler op) made in
  match fileManager this with
  | None => run = (Returned (Operations.Plain Operations.VUndefined), made)
  | Some fm =>
      match answer made (directCall fm op) with
      | Ok v => run = (Returned (Operations.Plain v),
                       made ++ [did (directCall fm op) (Ok v)])
      | Err e => run = (Thrown e, made ++ [did (directCall fm op) (Err e)])
      end
  end%list.
Proof.
  cbv zeta. unfold did.
  destruct op; cbn [directHandler directCall];
    unfold Operations.handleGetFile, Operations.handleGetFolder,
           Operations.handleMoveFile, Operations.handleDeleteFolder,
           Operations.viaFileManager, Operations.awaitOp;
    cbn [Operations.perform];
    (destruct (fileManager this) as [fm|]; [|reflexivity]);
    cbn [Operations.perform];
    destruct (answer _ _) as [v|e]; reflexivity.
Qed.

(** X13.  [deploy] and [downloadFiles] refuse to run without their
    collaborators, before any call: [deploy] asks for the git client first
    and for the file adapter second, [downloadFiles] for the file adapter.
    [deploy] then exports the files and pushes that export under the
    project id; a failed export is thrown and nothing is pushed. *)
Theorem deploy_and_download (context : Operations.ServerContext)
    (answer : list Operations.Made -> Operations.Op -> Result Operations.Value)
    (this : Project) (made : list Operations.Made) :
  let deploy := Operations.perform answer this (Operations.handleDeploy context) made in
  let download := Operations.perform answer this Operations.handleDownloadFiles made in
  match fileManager this with
  | None =>
      download = (Thrown "No file manager", made)
      /\ deploy = (Thrown (match Operations.gitClient context with
                           | None => "No git client"
                           | Some _ => "No file manager"
                           end), made)
  | Some fm =>
      let export := Operations.FileManager_call fm Operations.getFilesForDownload [] in
      match answer made export with
      | Err e =>
          download = (Thrown e, made ++ [did export (Err e)])
          /\ deploy = match Operations.gitClient context with
                      | None => (Thrown "No git client", made)
                      | Some _ => (Thrown e, made ++ [did export (Err e)])
                      end
      | Ok tarBase64 =>
          let made1 := made ++ [did export (Ok tarBase64)] in
          download = (Returned (Operations.Object [("tarBlob", tarBase64)]), made1)
          /\ deploy = match Operations.gitClient context with
                      | None => (Thrown "No git client", made)
                      | Some git =>
                          let push :=
                            Operations.GitClient_pushFiles git tarBase64 (projectId this) in
                          match answer made1 push with
                          | Ok v =>
                              (Returned (Operations.Object
                                           [("success", Operations.VBool true)]),
                               made1 ++ [did push (Ok v)])
                          | Err e => (Thrown e, made1 ++ [did push (Err e)])
                          end
                      end
      end
  end%list.
Proof.
  cbv zeta. unfold did, Operations.handleDeploy, Operations.handleDownloadFiles,
    Operations.awaitOp.
  destruct (Operations.gitClient context) as [git|];
    cbn [Operations.perform];
    (destruct (fileManager this) as [fm|]; [|split; reflexivity]);
    cbn [Operations.perform];
    (destruct (answer made _) as [tarBase64|e]; [|split; reflexivity]);
    cbn [Operations.perform];
    try (split; reflexivity).
  destruct (answer _ _) as [v|e]; split; reflexivity.
Qed.

(** X14.  [appExists] never throws for want of a client: without a deployment
    client, or with one that is not connected, it answers
    [{ success: false }] and makes no call.  [listApps] and
    [getAppCreatedAt] throw when there is no client, and call a client
    that is there whether it is connected or not. *)
Theorem app_inventory (context : Operations.ServerContext) (appName : string)
    (answer : list Operations.Made -> Operations.Op -> Result Operations.Value)
    (this : Project) (made : list Operations.Made) :
  let run h := Operations.perform answer this h made in
  let notAvailable :=
    (Returned (Operations.Object [("success", Operations.VBool false)]), made) in
  match Operations.dokkuClient context with
  | None =>
      run (Operations.handleAppExists context appName) = notAvailable
      /\ run (Operations.handleListApps context)
         = (Thrown "Failed to retrieve apps list: No Dokku client", made)
      /\ run (Operations.handleGetAppCreatedAt context appName)
         = (Thrown "Failed to retrieve app creation timestamp: No Dokku client", made)
  | Some client =>
      let ask method args := Operations.DokkuClient_call client method args in
      let outcome op field :=
        match answer made op with
        | Ok v =>
            (Returned (Operations.Object [("success", Operations.VBool true); (field, v)]),
             made ++ [did op (Ok v)])
        | Err e => (Thrown e, made ++ [did op (Err e)])
        end in
      run (Operations.handleAppExists context appName)
      = (if Operations.isConnected client
         then outcome (ask Operations.appExists [appName]) "exists"
         else notAvailable)
      /\ run (Operations.handleListApps context)
         = outcome (ask Operations.listApps []) "apps"
      /\ run (Operations.handleGetAppCreatedAt context appName)
         = outcome (ask Operations.getAppCreatedAt [appName]) "createdAt"
  end%list.
Proof.
  cbv zeta. unfold did, Operations.handleAppExists, Operations.handleListApps,
    Operations.handleGetAppCreatedAt, Operations.awaitOp.
  destruct (Operations.dokkuClient context) as [client|]; [|repeat split].
  split; [|split].
  - destruct (Operations.isConnected client); cbn [negb Operations.perform];
      [|reflexivity].
    destruct (answer made _); reflexivity.
  - cbn [Operations.perform]. destruct (answer made _); reflexivity.
  - cbn [Operations.perform]. destruct (answer made _); reflexivity.
Qed.

(** ** More on [initialize], [disconnect] and the terminal handlers *)

Section SessionLifeCycle.

Variable T : Z.
Variable getHost : Container -> number -> string.
Variable env : Env.
Variable me : TaskId.

(** Case analysis of a run of [initialize] that is known to have
    returned. *)
Ltac analyse H :=
  repeat first
    [ progress cbn [andThen negb st_this st_trace st_locks set_this log Reply
                    locked grant enqueue set_lock container with_container
                    with_containerId] in H
    | rewrite exec_needsNewContainer in H
    | rewrite exec_createContainer in H
    | rewrite exec_initializeManagers in H
    | progress cbv zeta in H
    | discriminate H
    | match type of H with
      | context [negb ?b] => is_var b; destruct b
      | context [match respond ?e ?t ?c with _ => _ end] =>
          let r := fresh "r" in
          let E := fresh "E" in
          destruct (respond e t c) as [r|r] eqn:E
      | context [match containerId ?p with _ => _ end] =>
          let E := fresh "E" in destruct (containerId p) eqn:E
      | context [if truthyString ?p then _ else _] =>
          let E := fresh "E" in destruct (truthyString p) eqn:E
      | context [match container ?p with _ => _ end] =>
          let E := fresh "E" in destruct (container p) eqn:E
      end ].

(** X15.  A call of [initialize()] that returns leaves the session ready: it
    has a handle, the very one that [isRunning] confirmed or that
    [create] returned in this run, a terminal multiplexer and a file
    adapter.  A multiplexer or an
    adapter that was there is kept as it is; one that was missing is built
    on the handle.  The lock is free again. *)
Theorem initialize_returns_ready (st st' : St) :
  lockOf st (projectId (st_this st)) = freeLock ->
  exec env me (initialize T) st = (Returned tt, st') ->
  exists (c : Container) (new : list Event),
    container (st_this st') = Some c
    /\ terminalManager (st_this st')
       = Some (default (newTerminalManager c) (terminalManager (st_this st)))
    /\ fileManager (st_this st')
       = Some (default (newFileManager c) (fileManager (st_this st)))
    /\ st_trace st' = (st_trace st ++ new)%list
    /\ (In (Called (Container_isRunning c) (Ok true)) new
        \/ exists template,
             In (Called (Container_create template (sandboxOpts T)) (Ok c)) new)
    /\ lockOf st' (projectId (st_this st)) = freeLock.
Proof.
  intros Hfree Hexec.
  rewrite exec_initialize in Hexec by exact Hfree. cbv zeta in Hexec.
  pose proof (lockOf_locked _ me _ Hfree) as Hlocked.
  rewrite exec_initializeCritical, exec_connectExisting in Hexec.
  rewrite st_this_locked, st_trace_locked in Hexec.
  set (key := projectId (st_this st)) in *.
  destruct st as [this tr locks].
  cbn [st_this st_trace] in *.
  analyse Hexec.
  all: cbn [release set_lock st_this st_trace st_locks log set_this locked grant enqueue
            container with_container with_containerId] in Hexec.
  all: analyse Hexec.
  all: injection Hexec as <-.
  all: cbn [st_this release set_lock log set_this locked grant enqueue container
            with_container with_containerId] in *.
  all: try match goal with H : Some _ = Some _ |- _ => injection H as <- end.
  all: try match goal with
           | H1 : container ?p = Some ?a, H2 : container ?p = Some ?b |- _ =>
               rewrite H1 in H2; injection H2 as <-
           end.
  all: eexists; eexists.
  all: (split; [destruct this as [? ? [?|] [?|] ? ?]; cbn in *;
                first [reflexivity | eassumption]|]).
  all: (split; [destruct this as [? ? [?|] [?|] ? ?]; reflexivity|]).
  all: (split; [destruct this as [? ? [?|] [?|] ? ?]; reflexivity|]).
  all: (split; [cbn [st_trace set_this release set_lock log locked grant enqueue];
                repeat rewrite <- app_assoc; reflexivity|]).
  all: (split; [first [solve [left; cbn; auto 6] | solve [right; eexists; cbn; auto 6]]|]).
  all: rewrite lockOf_set_this, lockOf_release;
       repeat (rewrite lockOf_log || rewrite lockOf_set_this);
       rewrite Hlocked; reflexivity.
Qed.

(** X16.  A session that knows its sandbox and finds it running reconnects:
    [initialize()] makes the two calls [connect] and [isRunning] and no
    other, so no sandbox is created and nothing is written to the store.
    [connect] is called whether or not the session already holds a handle,
    and the handle it returns replaces the one held; the last-known id, the
    multiplexer and the file adapter stay, and are built if missing. *)
Theorem initialize_reconnects (st : St) (id : string) (c : Container) :
  let connect := Container_connect id (sandboxOpts T) in
  lockOf st (projectId (st_this st)) = freeLock ->
  containerId (st_this st) = Some id ->
  truthyString (Some id) = true ->
  respond env (st_trace st) connect = Ok c ->
  respond env (st_trace st ++ [Called connect (Ok c)]) (Container_isRunning c) = Ok true ->
  exists st',
    exec env me (initialize T) st = (Returned tt, st')
    /\ st_trace st'
       = (st_trace st ++ [Called connect (Ok c); Called (Container_isRunning c) (Ok true)])%list
    /\ container (st_this st') = Some c
    /\ containerId (st_this st') = Some id
    /\ terminalManager (st_this st')
       = Some (default (newTerminalManager c) (terminalManager (st_this st)))
    /\ fileManager (st_this st')
       = Some (default (newFileManager c) (fileManager (st_this st))).
Proof.
  intros connect Hfree Hid Htruthy Hconnect Hrunning. subst connect.
  rewrite exec_initialize by exact Hfree. cbv zeta.
  rewrite exec_initializeCritical, exec_connectExisting.
  rewrite st_this_locked, st_trace_locked, Hid, Htruthy. cbv zeta.
  rewrite Hconnect. cbn [andThen].
  rewrite exec_needsNewContainer.
  cbn [st_this st_trace set_this log container with_container locked grant enqueue
       set_lock Reply] in *.
  rewrite Hrunning. cbn [andThen negb].
  rewrite exec_initializeManagers.
  eexists. split; [reflexivity|].
  destruct st as [[pid ty [fm|] [tm|] c0 cid] tr locks]; cbn in *;
    rewrite <- app_assoc; repeat split; try reflexivity; exact Hid.
Qed.

(** X17.  On a session that has neither multiplexer nor file adapter,
    [disconnect()] makes no call and changes nothing; so a second
    [disconnect()] after one that returned is harmless. *)
Theorem disconnect_twice (st st1 : St) :
  (terminalManager (st_this st) = None -> fileManager (st_this st) = None ->
   exec env me disconnect st = (Returned tt, st))
  /\ (exec env me disconnect st = (Returned tt, st1) ->
      exec env me disconnect st1 = (Returned tt, st1)).
Proof.
  assert (Hidle : forall s, terminalManager (st_this s) = None ->
                            fileManager (st_this s) = None ->
                            exec env me disconnect s = (Returned tt, s)).
  { intros [[pid ty fm tm c cid] tr locks] Htm Hfm. cbn in Htm, Hfm. subst.
    reflexivity. }
  split; [apply Hidle|].
  intros Hrun. assert (Hnull : terminalManager (st_this st1) = None
                              /\ fileManager (st_this st1) = None).
  { unfold disconnect in Hrun. revert Hrun. repeat step.
    destruct (exec env me _ st) as [[[]|e|] st2]; cbn [andThen]; try discriminate.
    repeat step. cbn [st_this set_this fileManager with_terminalManager].
    destruct (fileManager (st_this st2)) as [fm|].
    - repeat step. destruct (respond env _ _) as [[]|e]; cbn [andThen]; try discriminate.
      repeat step. intros [= <-]. split; reflexivity.
    - cbn [exec andThen]. repeat step. intros [= <-]. split; reflexivity. }
  apply Hidle; apply Hnull.
Qed.

(** X18.  When stopping the file watchers fails, [disconnect()] throws that
    failure after it has dropped the multiplexer: the session is left
    without multiplexer and with its file adapter, and a further
    [disconnect()] goes straight to [stopWatching] again. *)
Theorem disconnect_stopWatching_fails (st : St) (fm : FileManager) (e : Error) :
  let stop := FileManager_stopWatching fm in
  (forall tr pid, respond env tr (Pty_kill pid) = Ok tt) ->
  fileManager (st_this st) = Some fm ->
  (forall tr, respond env tr stop = Err e) ->
  exists st',
    exec env me disconnect st = (Thrown e, st')
    /\ terminalManager (st_this st') = None
    /\ fileManager (st_this st') = Some fm
    /\ exec env me disconnect st' = (Thrown e, log (Called stop (Err e)) st').
Proof.
  intros stop Hkill Hfm Hstop. subst stop.
  assert (Hretry : forall s, terminalManager (st_this s) = None ->
                             fileManager (st_this s) = Some fm ->
                             exec env me disconnect s
                             = (Thrown e, log (Called (FileManager_stopWatching fm) (Err e)) s)).
  { intros [[pid ty f tm c cid] tr locks] Htm Hf. cbn in Htm, Hf. subst.
    unfold disconnect. repeat step. cbn [st_this terminalManager]. cbn [exec].
    repeat step.
    cbn [st_this set_this fileManager with_terminalManager terminalManager].
    repeat step. rewrite Hstop. reflexivity. }
  unfold disconnect. repeat step.
  destruct st as [[pid ty f tm c cid] tr locks]. cbn in Hfm. subst f.
  cbn [st_this terminalManager].
  destruct tm as [m|].
  - unfold TerminalManager_closeAllTerminals. repeat step.
    rewrite exec_forEach_kill_ok by exact Hkill. repeat step.
    unfold updateTerminals. repeat step.
    cbn [st_this set_this fileManager with_terminalManager terminalManager].
    repeat step. rewrite Hstop. cbn [andThen].
    eexists. split; [reflexivity|]. split; [reflexivity|]. split; [reflexivity|].
    apply Hretry; reflexivity.
  - cbn [exec]. repeat step.
    cbn [st_this set_this fileManager with_terminalManager terminalManager].
    repeat step. rewrite Hstop. cbn [andThen].
    eexists. split; [reflexivity|]. split; [reflexivity|]. split; [reflexivity|].
    apply Hretry; reflexivity.
Qed.


End SessionLifeCycle.

(** ** The port printed is the port extracted *)

Lemma isDigit_pretty_N_char (x : N) : isDigit (pretty_N_char x) = true.
Proof. unfold pretty_N_char. repeat case_match; reflexivity. Qed.

Lemma digitValue_pretty_N_char (x : N) :
  (x < 10)%N -> digitValue (pretty_N_char x) = x.
Proof.
  intros H.
  assert (x = 0 \/ x = 1 \/ x = 2 \/ x = 3 \/ x = 4 \/ x = 5 \/ x = 6 \/ x = 7
          \/ x = 8 \/ x = 9)%N as Hx by lia.
  repeat (destruct Hx as [->|Hx]; [reflexivity|]). subst. reflexivity.
Qed.

Lemma pretty_N_go_app (x : N) (s rest : string) :
  pretty_N_go x s ++ rest = pretty_N_go x (s ++ rest).
Proof.
  revert s. induction (N.lt_wf_0 x) as [x _ IH]; intros s.
  destruct (N.eq_dec x 0%N) as [->|Hx]; [reflexivity|].
  rewrite (pretty_N_go_step x s), (pretty_N_go_step x (s ++ rest)) by lia.
  rewrite IH by (apply N.div_lt; lia). reflexivity.
Qed.

Lemma takeDigits_pretty_N_go (x : N) (s : string) :
  takeDigits (pretty_N_go x s) = pretty_N_go x (takeDigits s).
Proof.
  revert s. induction (N.lt_wf_0 x) as [x _ IH]; intros s.
  destruct (N.eq_dec x 0%N) as [->|Hx]; [reflexivity|].
  rewrite (pretty_N_go_step x s), (pretty_N_go_step x (takeDigits s)) by lia.
  rewrite IH by (apply N.div_lt; lia).
  cbn [takeDigits]. rewrite isDigit_pretty_N_char. reflexivity.
Qed.

Lemma hasEscape_pretty_N_go (x : N) (s : string) :
  hasEscape (pretty_N_go x s) = hasEscape s.
Proof.
  revert s. induction (N.lt_wf_0 x) as [x _ IH]; intros s.
  destruct (N.eq_dec x 0%N) as [->|Hx]; [reflexivity|].
  rewrite pretty_N_go_step by lia.
  rewrite IH by (apply N.div_lt; lia).
  cbn [hasEscape]. unfold pretty_N_char. repeat case_match; reflexivity.
Qed.

Lemma mathInt_pretty_N_go (x : N) :
  exists k, forall acc s,
    mathInt acc (pretty_N_go x s) = mathInt (acc * 10 ^ k + x)%N s.
Proof.
  induction (N.lt_wf_0 x) as [x _ IH].
  destruct (N.eq_dec x 0%N) as [->|Hx].
  - exists 0%N. intros acc s. rewrite pretty_N_go_0. f_equal. lia.
  - destruct (IH (x / 10)%N) as [k Hk]; [apply N.div_lt; lia|].
    exists (N.succ k). intros acc s.
    rewrite pretty_N_go_step by lia. rewrite Hk. cbn [mathInt].
    rewrite digitValue_pretty_N_char by (apply N.mod_lt; lia).
    f_equal. rewrite N.pow_succ_r'.
    pose proof (N.div_mod x 10 ltac:(lia)) as Hdm.
    rewrite N.mul_add_distr_l, N.mul_assoc, (N.mul_comm 10 acc), <- N.mul_assoc,
      <- N.add_assoc, <- Hdm. reflexivity.
Qed.

Lemma mathInt_pretty (n : N) : mathInt 0 (pretty n) = n.
Proof.
  unfold pretty, pretty_N. destruct (decide (n = 0%N)) as [->|Hn]; [reflexivity|].
  destruct (mathInt_pretty_N_go n) as [k Hk]. rewrite Hk. reflexivity.
Qed.

Lemma takeDigits_pretty (n : N) (rest : string) :
  takeDigits rest = EmptyString -> takeDigits (pretty n ++ rest) = pretty n.
Proof.
  intros Hrest. unfold pretty, pretty_N. destruct (decide (n = 0%N)) as [->|Hn].
  - rewrite append_String, append_Empty. cbn [takeDigits]. rewrite Hrest. reflexivity.
  - rewrite pretty_N_go_app, takeDigits_pretty_N_go, append_Empty, Hrest. reflexivity.
Qed.

Lemma pretty_nonempty (n : N) : pretty n <> EmptyString.
Proof.
  intros H. pose proof (mathInt_pretty n) as Hm. rewrite H in Hm. cbn in Hm. subst n.
  discriminate H.
Qed.

Lemma hasEscape_pretty (n : N) : hasEscape (pretty n) = false.
Proof.
  unfold pretty, pretty_N. destruct (decide (n = 0%N)); [reflexivity|].
  apply hasEscape_pretty_N_go.
Qed.

Lemma hasEscape_app (a b : string) : hasEscape (a ++ b) = hasEscape a || hasEscape b.
Proof.
  induction a as [|c a IH]; [reflexivity|].
  change (String c a ++ b) with (String c (a ++ b)). cbn [hasEscape].
  rewrite IH. apply orb_assoc.
Qed.

Lemma afterPrefix_app (p a x r : string) :
  afterPrefix p a = Some r -> afterPrefix p (a ++ x) = Some (r ++ x).
Proof.
  intros H. apply afterPrefix_Some in H. subst a.
  apply afterPrefix_Some. 
  clear. induction p as [|c p IH]; [reflexivity|].
  change (String c p ++ r) with (String c (p ++ r)).
  change (String c (p ++ r) ++ x) with (String c ((p ++ r) ++ x)).
  rewrite IH. reflexivity.
Qed.

Lemma afterPrefix_app_None (p a x : string) :
  afterPrefix p a = None -> (String.length p <= String.length a)%nat ->
  afterPrefix p (a ++ x) = None.
Proof.
  revert a. induction p as [|c p IH]; intros a; [discriminate|].
  destruct a as [|b a]; [cbn; lia|].
  change (String b a ++ x) with (String b (a ++ x)). cbn [afterPrefix String.length].
  destruct (Ascii.eqb c b); [|reflexivity].
  intros H Hl. apply IH; [exact H|lia].
Qed.

Lemma length_append (a b : string) :
  String.length (a ++ b) = (String.length a + String.length b)%nat.
Proof.
  induction a as [|c a IH]; [reflexivity|].
  change (String c a ++ b) with (String c (a ++ b)). cbn. rewrite IH. reflexivity.
Qed.

(** A match at the start of a text that is long enough does not depend on
    what follows the text. *)
Lemma matchLocalhostHere_app_None (a x : string) :
  (String.length localhostPrefix < String.length a)%nat ->
  matchLocalhostHere a = None -> matchLocalhostHere (a ++ x) = None.
Proof.
  intros Hlen. unfold matchLocalhostHere.
  destruct (afterPrefix localhostPrefix a) as [r|] eqn:E.
  - rewrite (afterPrefix_app _ _ x _ E).
    apply afterPrefix_Some in E. subst a. rewrite length_append in Hlen.
    destruct r as [|c r]; [cbn in Hlen; lia|].
    change (String c r ++ x) with (String c (r ++ x)). cbn [takeDigits].
    destruct (isDigit c); [discriminate|reflexivity].
  - intros _. rewrite afterPrefix_app_None; [reflexivity|exact E|lia].
Qed.

Lemma matchLocalhost_first (pre u : string) :
  matchLocalhost (pre ++ localhostPrefix) = None ->
  matchLocalhost (pre ++ localhostPrefix ++ u) = matchLocalhost (localhostPrefix ++ u).
Proof.
  induction pre as [|c pre IH]; [reflexivity|].
  change (String c pre ++ localhostPrefix) with (String c (pre ++ localhostPrefix)).
  change (String c pre ++ localhostPrefix ++ u)
    with (String c (pre ++ localhostPrefix ++ u)).
  cbn [matchLocalhost].
  destruct (matchLocalhostHere (String c (pre ++ localhostPrefix))) eqn:E; [discriminate|].
  intros Hrest.
  assert (Happ : String c (pre ++ localhostPrefix ++ u)
                 = String c (pre ++ localhostPrefix) ++ u).
  { change (String c (pre ++ localhostPrefix) ++ u)
      with (String c ((pre ++ localhostPrefix) ++ u)).
    f_equal. clear. induction pre as [|c pre IH]; [reflexivity|].
    change (String c pre ++ localhostPrefix ++ u)
      with (String c (pre ++ localhostPrefix ++ u)).
    rewrite IH. reflexivity. }
  rewrite Happ, matchLocalhostHere_app_None; [|cbn [String.length]; rewrite length_append; lia|exact E].
  apply IH. exact Hrest.
Qed.

Lemma roundToDouble_small (n : N) : (n < 2 ^ 53)%N -> roundToDouble n = Num n.
Proof. intros H. unfold roundToDouble. apply N.ltb_lt in H. rewrite H. reflexivity. Qed.

Section PrintedPort.

Variable getHost : Container -> number -> string.
Variable env : Env.
Variable me : TaskId.

(** X20.  A chunk of output without escape sequences, in which
    [http://localhost:] is first followed by a digit where the numeral of
    [n] stands, and in which the numeral is not followed by a further
    digit: the extractor reads [n] back, for every [n] below [2^53], with
    no regard to the range of port numbers.  The callback then pushes the
    preview URL of the host of port [n], except for [n = 0], which counts
    as no port. *)
Theorem extractPortNumber_reads_numeral (pre rest : string) (n : N) :
  let chunk := pre ++ localhostPrefix ++ pretty n ++ rest in
  hasEscape pre = false -> hasEscape rest = false ->
  ~ hasLocalhostUrl (pre ++ localhostPrefix) ->
  takeDigits rest = EmptyString ->
  (n < 2 ^ 53)%N ->
  extractPortNumber chunk = Some (Num n)
  /\ forall cb c st, container (st_this st) = Some c ->
       exec env me (onTerminalOutput getHost cb chunk) st
       = (Returned tt,
          {| st_this := st_this st;
             st_trace :=
               st_trace st
               ++ Emitted (cb_socket cb) (terminalResponse (Some (cb_id cb)) (Text chunk))
                  :: (if (n =? 0)%N then []
                      else [Emitted (cb_socket cb)
                              (previewURL ("https://" ++ getHost c (Num n)))]);
             st_locks := st_locks st |}).
Proof.
  intros chunk Hpre Hrest Hfirst Hnext Hn.
  assert (Hport : extractPortNumber chunk = Some (Num n)).
  { unfold extractPortNumber, chunk.
    rewrite stripAnsi_no_escape.
    2:{ rewrite !hasEscape_app, Hpre, Hrest, hasEscape_pretty. reflexivity. }
    apply matchLocalhost_None in Hfirst.
    rewrite (matchLocalhost_first pre _ Hfirst).
    assert (Hhere : matchLocalhostHere (localhostPrefix ++ pretty n ++ rest)
                    = Some (pretty n)).
    { unfold matchLocalhostHere.
      rewrite (proj2 (afterPrefix_Some localhostPrefix _ (pretty n ++ rest)) eq_refl).
      rewrite takeDigits_pretty by exact Hnext.
      destruct (pretty n) eqn:E; [exfalso; exact (pretty_nonempty n E)|reflexivity]. }
    assert (Hm : matchLocalhost (localhostPrefix ++ pretty n ++ rest) = Some (pretty n)).
    { destruct (localhostPrefix ++ pretty n ++ rest) eqn:E; [discriminate Hhere|].
      cbn [matchLocalhost]. rewrite Hhere. reflexivity. }
    rewrite Hm. f_equal. unfold parseInt.
    pose proof (takeDigits_pretty n EmptyString eq_refl) as Ht.
    assert (Happ : pretty n ++ EmptyString = pretty n).
    { clear. induction (pretty n) as [|c s IH]; [reflexivity|].
      change (String c s ++ EmptyString) with (String c (s ++ EmptyString)).
      rewrite IH. reflexivity. }
    rewrite Happ in Ht. rewrite Ht.
    destruct (pretty n) eqn:E; [exfalso; exact (pretty_nonempty n E)|].
    rewrite <- E, mathInt_pretty. apply roundToDouble_small. exact Hn. }
  split; [exact Hport|].
  intros cb c st Hc. rewrite exec_onTerminalOutput. unfold outputEvents.
  rewrite Hport, Hc. cbn [truthyNumber].
  destruct (n =? 0)%N; reflexivity.
Qed.

End PrintedPort.

(** ** The further properties on sample inputs *)

Lemma joinUrl_padded_witness :
  Api.joinUrl ["/api/"; "users//"] = Api.joinUrl ["api"; "users"].
Proof.
  apply (joinUrl_padded ["api"; "users"] ["/api/"; "users//"]).
  repeat constructor.
  - exists "/", "/". repeat split; reflexivity.
  - exists EmptyString, "//". repeat split; reflexivity.
Defined.

Lemma joinUrl_segments_witness :
  Api.joinUrl ["api"; "v1"; "users"] = "api/v1/users".
Proof.
  apply (joinUrl_segments ["api"; "v1"; "users"]).
  repeat constructor.
Defined.

Lemma legacy_createTerminal_routes_witness :
  Legacy.onTerminalData "A" "ls" legacyWithA
  = Ok {| Legacy.terminals := Legacy.terminals legacyWithA;
          Legacy.effects := [Legacy.Spawned "bash" 7%nat; Legacy.Wrote 7%nat "ls"] |}.
Proof.
  exact (proj1 (legacy_createTerminal_routes "linux" 1%nat "A" 7%nat Legacy.start
                  legacyWithA eq_refl) "ls").
Defined.

Lemma initialize_returns_ready_witness :
  let st' := snd (exec (scripted true true true true) 0 (initialize 1000)
                    (sessionOf knownProject)) in
  exists c,
    container (st_this st') = Some c
    /\ terminalManager (st_this st') = Some (newTerminalManager c)
    /\ fileManager (st_this st') = Some (newFileManager c).
Proof.
  cbv zeta.
  destruct (initialize_returns_ready 1000 (scripted true true true true) 0%nat
              (sessionOf knownProject)
              (snd (exec (scripted true true true true) 0 (initialize 1000)
                      (sessionOf knownProject)))
              eq_refl eq_refl)
    as (c & new & Hc & Htm & Hfm & _).
  exists c. repeat split; assumption.
Defined.

Lemma initialize_reconnects_witness :
  exists st',
    exec (scripted true true true true) 0 (initialize 1000) (sessionOf liveProject)
    = (Returned tt, st')
    /\ createCalls (st_trace st') = 0%nat
    /\ terminalManager (st_this st') = terminalManager liveProject
    /\ fileManager (st_this st') = fileManager liveProject.
Proof.
  destruct (initialize_reconnects 1000 (scripted true true true true) 0%nat
              (sessionOf liveProject) "sbx-old" {| sandboxId := "sbx-old" |}
              eq_refl eq_refl eq_refl eq_refl eq_refl)
    as (st' & Hrun & Htr & _ & _ & Htm & Hfm).
  exists st'. split; [exact Hrun|]. split; [rewrite Htr; reflexivity|].
  split; [exact Htm|exact Hfm].
Defined.

Lemma disconnect_stopWatching_fails_witness :
  exists st',
    exec watcherStuck 0 disconnect (sessionOf liveProject) = (Thrown "watcher stuck", st')
    /\ terminalManager (st_this st') = None
    /\ fileManager (st_this st') = fileManager liveProject.
Proof.
  destruct (disconnect_stopWatching_fails watcherStuck 0%nat (sessionOf liveProject)
              (newFileManager {| sandboxId := "sbx-old" |}) "watcher stuck"
              (fun _ _ => eq_refl) eq_refl (fun _ => eq_refl))
    as (st' & Hrun & Htm & Hfm & _).
  exists st'. split; [exact Hrun|]. split; [exact Htm|exact Hfm].
Defined.


Lemma extractPortNumber_reads_numeral_witness :
  extractPortNumber "Local: http://localhost:5173/" = Some (Num 5173).
Proof.
  refine (proj1 (extractPortNumber_reads_numeral sampleHost (scripted true true true true)
                   0%nat "Local: " "/" 5173%N eq_refl eq_refl _ eq_refl eq_refl)).
  apply matchLocalhost_None. vm_compute. reflexivity.
Defined.

